(** * IPA_SW: input-parameter authentication through dynamic software watermarking

    A shallow embedding of the Python package [watermarking]
    (base_convert, crypto, difference_expansion, graph, encoder, controller,
    wrap) and the verification of its specification.

    Python integers are [Z]; [//] and [%] are [Z.div] and [Z.modulo] (both
    floor, sign of the divisor).  Python lists are [list]s read and written
    with Python's indexing rules ([getitem], [setitem]).  [bytes] is
    [list byte], [str] is [string] (its UTF-8 bytes).  A raised exception is
    the outcome [Raise]; a [while True] loop that has not left after the
    given number of rounds is the outcome [Diverge]. *)

From Stdlib Require Import ZArith Lia List Permutation.
From Stdlib.Strings Require Import Byte Ascii.
From stdpp Require Import base tactics option list numbers strings pretty gmap sorting.

Local Open Scope Z_scope.

(* ===================================================================== *)
(** * Outcomes of Python code *)
(* ===================================================================== *)

Inductive exn : Type :=
| ValueError (msg : string)
| IndexError (msg : string).

(** [str(e)] *)
Definition exn_str (e : exn) : string :=
  match e with
  | ValueError msg => msg
  | IndexError msg => msg
  end.

Inductive result (A : Type) : Type :=
| Ok (a : A)
| Raise (e : exn)
| Diverge.
Arguments Ok {A} a.
Arguments Raise {A} e.
Arguments Diverge {A}.

#[global] Instance result_ret : MRet result := fun A a => Ok a.
#[global] Instance result_bind : MBind result := fun A B f m =>
  match m with
  | Ok a => f a
  | Raise e => Raise e
  | Diverge => Diverge
  end.
#[global] Instance result_fmap : FMap result := fun A B f m =>
  match m with
  | Ok a => Ok (f a)
  | Raise e => Raise e
  | Diverge => Diverge
  end.

(** [for x in xs: st = body(st, x)], leaving at the first exception. *)
Fixpoint for_each {A S : Type} (body : S -> A -> result S) (xs : list A) (st : S)
  : result S :=
  match xs with
  | [] => Ok st
  | x :: xs' => st' ← body st x; for_each body xs' st'
  end.

(** [[f(x) for x in xs]] *)
Fixpoint comprehension {A B : Type} (f : A -> result B) (xs : list A) : result (list B) :=
  match xs with
  | [] => Ok []
  | x :: xs' => y ← f x; ys ← comprehension f xs'; Ok (y :: ys)
  end.

(** [range(n)] and [range(a, b)] *)
Definition range (n : Z) : list Z := seqZ 0 n.
Definition range2 (a b : Z) : list Z := seqZ a (b - a).

(** Python's index normalisation: [0 <= i < len] is itself, [-len <= i < 0]
    counts from the end, anything else is out of range. *)
Definition py_index {A : Type} (l : list A) (i : Z) : option nat :=
  let n := Z.of_nat (length l) in
  if bool_decide (0 <= i < n) then Some (Z.to_nat i)
  else if bool_decide (- n <= i < 0) then Some (Z.to_nat (n + i))
  else None.

(** [l[i]] *)
Definition getitem {A : Type} (l : list A) (i : Z) : result A :=
  match py_index l i with
  | Some k =>
      match l !! k with
      | Some x => Ok x
      | None => Raise (IndexError "list index out of range")
      end
  | None => Raise (IndexError "list index out of range")
  end.

(** [l[i] = x] *)
Definition setitem {A : Type} (l : list A) (i : Z) (x : A) : result (list A) :=
  match py_index l i with
  | Some k => Ok (<[k:=x]> l)
  | None => Raise (IndexError "list assignment index out of range")
  end.

(** [str(n)] for an integer, and [s.encode("utf-8")]. *)
Definition str (n : Z) : string := pretty n.
Definition encode_utf8 (s : string) : list byte := String.list_byte_of_string s.

(* ===================================================================== *)
(** * base_convert.py *)
(* ===================================================================== *)

(** The [while n > 0] loop of [int_to_digits]; [digits] grows at its end.
    [k] bounds the number of rounds; [int_to_digits] passes a bound the
    loop never reaches ([int_to_digits_loop_spec]). *)
Fixpoint int_to_digits_loop (k : nat) (n base : Z) (digits : list Z) : list Z :=
  if bool_decide (n > 0) then
    match k with
    | O => digits
    | S k' => int_to_digits_loop k' (n / base) base (digits ++ [n mod base])
    end
  else digits.

Definition int_to_digits (n base : Z) : result (list Z) :=
  if bool_decide (base < 2) then Raise (ValueError "base must be >= 2")
  else if bool_decide (n < 0) then Raise (ValueError "n must be non-negative")
  else if bool_decide (n = 0) then Ok [0]
  else Ok (rev (int_to_digits_loop (S (Z.to_nat (Z.log2 n))) n base [])).

Definition digits_to_int (digits : list Z) (base : Z) : result Z :=
  if bool_decide (base < 2) then Raise (ValueError "base must be >= 2")
  else if bool_decide (digits = []) then Raise (ValueError "digits must be non-empty")
  else
    for_each (fun n d =>
      if bool_decide (d < 0 \/ d >= base)
      then Raise (ValueError ("digit " +:+ str d +:+ " out of range for base " +:+ str base))
      else Ok (n * base + d)) digits 0.

Definition bits_from_int (n eta : Z) : result (list Z) :=
  if bool_decide (eta <= 0) then Raise (ValueError "eta must be > 0")
  else
    bits ← int_to_digits n 2;
    if bool_decide (Z.of_nat (length bits) > eta)
    then Raise (ValueError "eta too small to represent n")
    else Ok (replicate (Z.to_nat (eta - Z.of_nat (length bits))) 0 ++ bits).

Definition int_from_bits (bits : list Z) : result Z := digits_to_int bits 2.

Definition base_convert_digits (digits : list Z) (base_from base_to : Z)
  : result (list Z) :=
  n ← digits_to_int digits base_from;
  int_to_digits n base_to.

(* ===================================================================== *)
(** * difference_expansion.py *)
(* ===================================================================== *)

Record EmbeddedPair : Type := mkEmbeddedPair { x_embedded : Z; y_embedded : Z }.

Definition _floor_div2 (n : Z) : Z := n / 2.
Definition _ceil_div2 (n : Z) : Z := - ((- n) / 2).

Definition embed_bit (x y bit : Z) : result EmbeddedPair :=
  if bool_decide (bit <> 0 /\ bit <> 1) then Raise (ValueError "bit must be 0 or 1")
  else
    let d := x - y in
    let a := _floor_div2 (x + y) in
    let d_prime := 2 * d + bit in
    let x_prime := a + _ceil_div2 d_prime in
    let y_prime := a - _floor_div2 d_prime in
    Ok (mkEmbeddedPair x_prime y_prime).

Definition extract_bit_and_restore (x_prime y_prime : Z) : Z * (Z * Z) :=
  let d_prime := x_prime - y_prime in
  let bit := d_prime mod 2 in
  let d := _floor_div2 d_prime in
  let a := _floor_div2 (x_prime + y_prime) in
  let x := a + _ceil_div2 d in
  let y := a - _floor_div2 d in
  (bit, (x, y)).

(* ===================================================================== *)
(** * graph.py *)
(* ===================================================================== *)

(** Python [Node] objects live on the heap and are compared by identity
    ([is], [is not]).  The heap is an arena of nodes, a reference is an index
    into it, and [None] is [None].  An index outside the arena reads as a node
    without pointers, so every heap is a total assignment of nodes to
    references. *)
Abbreviation addr := nat (only parsing).

Record Node : Type := mkNode { next : option addr; digit : option addr }.

Abbreviation heap := (list Node) (only parsing).

Definition deref (h : heap) (a : addr) : Node := default (mkNode None None) (h !! a).

Definition set_next (h : heap) (a : addr) (v : option addr) : heap :=
  <[a := mkNode v (digit (deref h a))]> h.
Definition set_digit (h : heap) (a : addr) (v : option addr) : heap :=
  <[a := mkNode (next (deref h a)) v]> h.

(** [[Node() for _ in range(mu)]]: the fresh arena and the list of references
    to its nodes. *)
Definition alloc_nodes (mu : Z) : heap * list addr :=
  (replicate (Z.to_nat mu) (mkNode None None), seq 0 (Z.to_nat mu)).

Definition encode_watermark (zeta6 : list Z) : result (heap * addr) :=
  let mu := Z.of_nat (length zeta6) in
  if bool_decide (mu <= 0) then Raise (ValueError "ζ6 must be non-empty")
  else
    let '(h0, nodes) := alloc_nodes mu in
    h1 ← for_each (fun h r =>
            nr ← getitem nodes r;
            nn ← getitem nodes ((r + 1) mod mu);
            Ok (set_next h nr (Some nn))) (range mu) h0;
    h2 ← for_each (fun h r =>
            d ← getitem zeta6 r;
            if bool_decide (d = 0) then
              nr ← getitem nodes r;
              Ok (set_digit h nr None)
            else
              let t := (r + d - 1) mod mu in
              nr ← getitem nodes r;
              nt ← getitem nodes t;
              Ok (set_digit h nr (Some nt))) (range mu) h1;
    head ← getitem nodes 0;
    Ok (h2, head).

(** The [while probe is not nr.digit] loop of [decode_watermark], entered with
    [probe] and the step count [s].  It leaves after at most [mu + 1] rounds;
    [k] bounds the rounds and [decode_watermark] passes [mu + 1]. *)
Fixpoint probe_loop (k : nat) (h : heap) (mu : Z) (target : addr) (probe : addr) (s : Z)
  : result Z :=
  if bool_decide (probe <> target) then
    match k with
    | O => Diverge
    | S k' =>
        let probe' := next (deref h probe) in
        let s' := s + 1 in
        match probe' with
        | None => Raise (ValueError "invalid structure (broken ring)")
        | Some q =>
            if bool_decide (s' > mu)
            then Raise (ValueError "invalid structure (unreachable digit)")
            else probe_loop k' h mu target q s'
        end
    end
  else Ok s.

Definition decode_watermark (h : heap) (head : addr) (mu : Z) : result (list Z) :=
  if bool_decide (mu <= 0) then Raise (ValueError "mu must be > 0")
  else
    '(nodes, cur) ← for_each (fun '(nodes, cur) (_ : Z) =>
            match next (deref h cur) with
            | None => Raise (ValueError "invalid structure (broken ring)")
            | Some cur' => Ok (nodes ++ [cur'], cur')
            end) (range2 1 mu) ([head], head);
    for_each (fun zeta6 r =>
            nr ← getitem nodes r;
            match digit (deref h nr) with
            | None => setitem zeta6 r 0
            | Some target =>
                s ← probe_loop (S (Z.to_nat mu)) h mu target nr 0;
                setitem zeta6 r (s + 1)
            end) (range mu) (replicate (Z.to_nat mu) 0).

(* ===================================================================== *)
(** * controller.py *)
(* ===================================================================== *)

Record VerificationResult : Type := mkVerificationResult {
  is_authentic : bool;
  recovered_zeta : option Z;
  recovered_zeta6 : option (list Z);
  error : option string
}.

Definition controller_verify (h : heap) (graph_head : addr) (expected_zeta : Z)
  : result VerificationResult :=
  if bool_decide (expected_zeta < 0)
  then Raise (ValueError "expected_zeta must be non-negative")
  else
    expected_zeta6 ← int_to_digits expected_zeta 6;
    let mu := Z.of_nat (length expected_zeta6) in
    match (recovered_zeta6 ← decode_watermark h graph_head mu;
           recovered_zeta ← digits_to_int recovered_zeta6 6;
           Ok (recovered_zeta6, recovered_zeta)) with
    | Ok (recovered_zeta6, recovered_zeta) =>
        Ok (mkVerificationResult (bool_decide (recovered_zeta = expected_zeta))
              (Some recovered_zeta) (Some recovered_zeta6) None)
    | Raise e =>
        Ok (mkVerificationResult false None None (Some (exn_str e)))
    | Diverge => Diverge
    end.

(* ===================================================================== *)
(** * hashlib / hmac: HMAC-SHA256 *)
(* ===================================================================== *)

(** The package draws all its pseudorandomness from Python's
    [hmac.new(key, msg, hashlib.sha256).digest()].  The development is
    parametric in that function; this module gives the function itself
    (SHA-256 after FIPS 180-4, HMAC after RFC 2104) so that the model can be
    run on concrete keys. *)
Module Hashlib.

Definition byte_to_Z (b : byte) : Z := Z.of_N (Byte.to_N b).
Definition byte_of_Z (z : Z) : byte :=
  match Byte.of_N (Z.to_N (z mod 256)) with
  | Some b => b
  | None => x00
  end.

Definition mask32 : Z := 4294967295.
Definition add32 (x y : Z) : Z := Z.land (x + y) mask32.
Definition rotr (n x : Z) : Z :=
  Z.lor (Z.shiftr x n) (Z.land (Z.shiftl x (32 - n)) mask32).
Definition shr (n x : Z) : Z := Z.shiftr x n.

Definition Ch (x y z : Z) : Z := Z.lxor (Z.land x y) (Z.land (Z.lxor x mask32) z).
Definition Maj (x y z : Z) : Z :=
  Z.lxor (Z.lxor (Z.land x y) (Z.land x z)) (Z.land y z).
Definition Sigma0 (x : Z) : Z := Z.lxor (Z.lxor (rotr 2 x) (rotr 13 x)) (rotr 22 x).
Definition Sigma1 (x : Z) : Z := Z.lxor (Z.lxor (rotr 6 x) (rotr 11 x)) (rotr 25 x).
Definition sigma0 (x : Z) : Z := Z.lxor (Z.lxor (rotr 7 x) (rotr 18 x)) (shr 3 x).
Definition sigma1 (x : Z) : Z := Z.lxor (Z.lxor (rotr 17 x) (rotr 19 x)) (shr 10 x).

(** The round constants and the initial hash value are the first 32 bits of
    the fractional parts of the cube roots of the first 64 primes and of the
    square roots of the first 8 primes. *)
Definition is_prime (n : Z) : bool :=
  forallb (fun d => negb (n mod d =? 0)) (seqZ 2 (Z.sqrt n - 1)).

Definition first_primes (k : nat) : list Z := take k (List.filter is_prime (seqZ 2 310)).

Fixpoint cube_root_bits (k : nat) (n r : Z) : Z :=
  match k with
  | O => r
  | S k' =>
      let r' := r + 2 ^ Z.of_nat k' in
      cube_root_bits k' n (if r' * r' * r' <=? n then r' else r)
  end.

Definition cube_root (n : Z) : Z := cube_root_bits 40 n 0.

Definition K256 : list Z :=
  Eval vm_compute in map (fun p => cube_root (p * 2 ^ 96) mod 2 ^ 32) (first_primes 64).

Definition H256 : list Z :=
  Eval vm_compute in map (fun p => Z.sqrt (p * 2 ^ 64) mod 2 ^ 32) (first_primes 8).

(** Big-endian words of a byte string whose length is a multiple of 4. *)
Fixpoint words_of_bytes (bs : list byte) : list Z :=
  match bs with
  | b0 :: b1 :: b2 :: b3 :: rest =>
      (((byte_to_Z b0 * 256 + byte_to_Z b1) * 256 + byte_to_Z b2) * 256 + byte_to_Z b3)
        :: words_of_bytes rest
  | _ => []
  end.

Definition bytes_of_word (w : Z) : list byte :=
  [byte_of_Z (Z.shiftr w 24); byte_of_Z (Z.shiftr w 16); byte_of_Z (Z.shiftr w 8); byte_of_Z w].

Definition bytes_of_len64 (n : Z) : list byte :=
  bytes_of_word (Z.shiftr n 32) ++ bytes_of_word (Z.land n mask32).

Definition pad (msg : list byte) : list byte :=
  let len := Z.of_nat (length msg) in
  let zeros := Z.to_nat ((55 - len) mod 64) in
  msg ++ [x80] ++ repeat x00 zeros ++ bytes_of_len64 (8 * len).

(** Message schedule; [w] holds the words so far, latest first. *)
Fixpoint schedule (n : nat) (w : list Z) : list Z :=
  match n with
  | O => rev w
  | S n' =>
      let wt := add32 (add32 (sigma1 (nth 1 w 0)) (nth 6 w 0))
                      (add32 (sigma0 (nth 14 w 0)) (nth 15 w 0)) in
      schedule n' (wt :: w)
  end.

Definition round (st : Z * Z * Z * Z * Z * Z * Z * Z) (kw : Z * Z)
  : Z * Z * Z * Z * Z * Z * Z * Z :=
  let '(a, b, c, d, e, f, g, h) := st in
  let '(k, w) := kw in
  let t1 := add32 (add32 (add32 h (Sigma1 e)) (add32 (Ch e f g) k)) w in
  let t2 := add32 (Sigma0 a) (Maj a b c) in
  (add32 t1 t2, a, b, c, add32 d t1, e, f, g).

Definition compress (hs : list Z) (block : list byte) : list Z :=
  let w := schedule 48 (rev (words_of_bytes block)) in
  match hs with
  | [a; b; c; d; e; f; g; h] =>
      let '(a', b', c', d', e', f', g', h') :=
        fold_left round (combine K256 w) (a, b, c, d, e, f, g, h) in
      [add32 a a'; add32 b b'; add32 c c'; add32 d d';
       add32 e e'; add32 f f'; add32 g g'; add32 h h']
  | _ => hs
  end.

Fixpoint blocks (n : nat) (hs : list Z) (bs : list byte) : list Z :=
  match n with
  | O => hs
  | S n' => blocks n' (compress hs (firstn 64 bs)) (skipn 64 bs)
  end.

Definition sha256 (msg : list byte) : list byte :=
  let p := pad msg in
  flat_map bytes_of_word (blocks (length p / 64) H256 p).

Definition xor_pad (c : Z) (k : list byte) : list byte :=
  map (fun b => byte_of_Z (Z.lxor (byte_to_Z b) c)) k.

(** HMAC (RFC 2104) over SHA-256, block size 64. *)
Definition hmac_sha256 (key msg : list byte) : list byte :=
  let k0 := if (64 <? Z.of_nat (length key)) then sha256 key else key in
  let k := k0 ++ repeat x00 (64 - length k0) in
  sha256 (xor_pad 0x5c k ++ sha256 (xor_pad 0x36 k ++ msg)).

End Hashlib.

(* ===================================================================== *)
(** * crypto.py, encoder.py, wrap.py *)
(* ===================================================================== *)

(** [int.from_bytes(bs, byteorder="big", signed=False)] *)
Definition int_from_bytes_be (bs : list byte) : Z :=
  fold_left (fun acc b => acc * 256 + Z.of_N (Byte.to_N b)) bs 0.

(** The [while True] rejection loop of [keyed_index] and [keyed_permutation]:
    draw [r] at counter [c], increment [c], leave with [r] when [r < limit].
    [fuel] bounds the number of draws. *)
Fixpoint rejection_loop (fuel : nat) (draw : Z -> Z) (limit : Z) (c : Z) : result (Z * Z) :=
  match fuel with
  | O => Diverge
  | S fuel' =>
      let r := draw c in
      let c' := c + 1 in
      if bool_decide (r < limit) then Ok (r, c') else rejection_loop fuel' draw limit c'
  end.

Definition em_dash : string := String "226"%char (String "128"%char (String "148"%char EmptyString)).

Record PreparedInput : Type := mkPreparedInput {
  watermarked_params : list Z;
  permutation : list Z;
  eta_used : Z
}.

Record AuthenticationBuild : Type := mkAuthenticationBuild {
  graph_heap : heap;
  graph_head : addr;
  build_permutation : list Z;
  build_eta : Z
}.

Section Watermarking.

(** [hmac.new(key, msg, hashlib.sha256).digest()], the one library primitive
    of the package.  [fuel] is the number of draws each rejection loop may
    make.  The optional arguments [label] of [prng_seed], [bi_lab] of
    [keyed_index] and [ctx] of [keyed_permutation] keep their default values,
    as in every call the package makes. *)
Variable _hmac_sha256 : list byte -> list byte -> list byte.
Variable fuel : nat.

(** The first eight bytes of the digest as an unsigned big-endian integer,
    as [keyed_bit], [keyed_index] and [keyed_permutation] read it. *)
Definition hmac64 (key msg : list byte) : Z :=
  int_from_bytes_be (take 8 (_hmac_sha256 key msg)).

Definition prng_seed (key : list byte) : list byte :=
  _hmac_sha256 key (encode_utf8 "PRNG|v1").

Definition keyed_bit (key : list byte) (label : string) : Z :=
  let msg := encode_utf8 label in
  let r := hmac64 key msg in
  r mod 2.

Definition keyed_index_msg (p c : Z) : list byte :=
  encode_utf8 ("KInd|v1" +:+ em_dash +:+ str p +:+ em_dash +:+ str c).

Definition keyed_index (p eta : Z) (key : list byte) : result Z :=
  if bool_decide (eta <= 0) then Raise (ValueError "eta must be > 0")
  else
    let limit := Z.shiftl 1 64 - (Z.shiftl 1 64) mod eta in
    '(r, _) ← rejection_loop fuel (fun c => hmac64 key (keyed_index_msg p c)) limit 0;
    Ok (r mod eta).

Definition keyed_permutation_label (i c : Z) : list byte :=
  encode_utf8 ("perm|" +:+ "KPerm|v1" +:+ "|i=" +:+ str i +:+ "|c=" +:+ str c).

Definition keyed_permutation (seed : list byte) (n : Z) : result (list Z) :=
  if bool_decide (n < 0) then Raise (ValueError "n must be >= 0")
  else
    '(P, _) ← for_each (fun '(P, c) i =>
        let m := i + 1 in
        let L := Z.shiftl 1 64 - (Z.shiftl 1 64) mod m in
        '(r, c') ← rejection_loop fuel (fun c => hmac64 seed (keyed_permutation_label i c)) L c;
        let j := r mod m in
        Pj ← getitem P j;
        Pi ← getitem P i;
        P1 ← setitem P i Pj;
        P2 ← setitem P1 j Pi;
        Ok (P2, c')) (range (n - 1)) (range n, 0);
    Ok P.

Definition not_enough_pairs_msg (eta n_pairs : Z) : string :=
  "Not enough parameter pairs to support eta=" +:+ str eta +:+ ": need at least "
  +:+ str eta +:+ " pairs, got " +:+ str n_pairs +:+ ". "
  +:+ "Increase the number of input integers or reduce eta.".

Definition insufficient_coverage_msg (covered eta : Z) : string :=
  "Insufficient KEYED_INDEX coverage: only " +:+ str covered +:+ "/" +:+ str eta
  +:+ " bit positions receive votes. "
  +:+ "Increase the number of input integers (more pairs) or reduce eta.".

Definition _compute_permutation (params_len : Z) (key : list byte) (eta : Z)
  : result (list Z) :=
  if bool_decide (params_len < 2)
  then Raise (ValueError "Need at least 2 parameters (one pair).")
  else
    let seed := prng_seed key in
    let n_pairs := params_len / 2 in
    if bool_decide (n_pairs < eta)
    then Raise (ValueError (not_enough_pairs_msg eta n_pairs))
    else
      P ← keyed_permutation seed n_pairs;
      idxs ← comprehension (fun p => keyed_index p eta key) P;
      let covered : gset Z := list_to_set idxs in
      if bool_decide (Z.of_nat (size covered) < eta)
      then Raise (ValueError (insufficient_coverage_msg (Z.of_nat (size covered)) eta))
      else Ok P.

Definition hints_detection (I : list Z) (P : list Z) : result (list Z) :=
  let n_pairs := Z.of_nat (length I) / 2 in
  let gamma := replicate (Z.to_nat n_pairs) 0 in
  for_each (fun gamma p =>
      x ← getitem I (2 * p);
      y ← getitem I (2 * p + 1);
      setitem gamma p ((x - y) mod 2)) P gamma.

Definition chaos_msg (j o z : Z) : string :=
  "KBit|v1" +:+ "|chaos|j=" +:+ str j +:+ "|o=" +:+ str o +:+ "|z=" +:+ str z.

Definition code_builder (gamma : list Z) (eta : Z) (key : list byte) (P : list Z)
  : result (list Z) :=
  let zeta2 := replicate (Z.to_nat eta) 0 in
  let ones := replicate (Z.to_nat eta) 0 in
  let zeros := replicate (Z.to_nat eta) 0 in
  '(ones, zeros) ← for_each (fun '(ones, zeros) p =>
      j ← keyed_index p eta key;
      g ← getitem gamma p;
      if bool_decide (g = 1) then
        o ← getitem ones j;
        ones' ← setitem ones j (o + 1);
        Ok (ones', zeros)
      else
        z ← getitem zeros j;
        zeros' ← setitem zeros j (z + 1);
        Ok (ones, zeros')) P (ones, zeros);
  for_each (fun zeta2 j =>
      o ← getitem ones j;
      z ← getitem zeros j;
      if bool_decide (o > 0 /\ z = 0) then setitem zeta2 j 1
      else if bool_decide (z > 0 /\ o = 0) then setitem zeta2 j 0
      else setitem zeta2 j (keyed_bit key (chaos_msg j o z))) (range eta) zeta2.

Definition prepare_parameters (params : list Z) (key : list byte) (zeta eta : Z)
  : result PreparedInput :=
  if bool_decide (zeta < 0) then Raise (ValueError "zeta must be non-negative")
  else
    P ← _compute_permutation (Z.of_nat (length params)) key eta;
    zeta2 ← bits_from_int zeta eta;
    let n_pairs := Z.of_nat (length params) / 2 in
    let gamma := replicate (Z.to_nat n_pairs) 0 in
    gamma ← for_each (fun gamma p =>
        j ← keyed_index p eta key;
        b ← getitem zeta2 j;
        setitem gamma p b) P gamma;
    I ← for_each (fun I p =>
        x ← getitem I (2 * p);
        y ← getitem I (2 * p + 1);
        g ← getitem gamma p;
        emb ← embed_bit x y g;
        I1 ← setitem I (2 * p) (x_embedded emb);
        setitem I1 (2 * p + 1) (y_embedded emb)) P params;
    Ok (mkPreparedInput I P eta).

Definition build_watermark_graph (received_params : list Z) (key : list byte) (eta : Z)
  : result AuthenticationBuild :=
  P ← _compute_permutation (Z.of_nat (length received_params)) key eta;
  gamma_detected ← hints_detection received_params P;
  zeta2_hat ← code_builder gamma_detected eta key P;
  zeta6_hat ← base_convert_digits zeta2_hat 2 6;
  '(h, head) ← encode_watermark zeta6_hat;
  Ok (mkAuthenticationBuild h head P eta).

Definition restore_params_from_pairs (watermarked_params : list Z) (P : list Z)
  : result (list Z) :=
  for_each (fun I p =>
      x_p ← getitem I (2 * p);
      y_p ← getitem I (2 * p + 1);
      let '(_, (x, y)) := extract_bit_and_restore x_p y_p in
      I1 ← setitem I (2 * p) x;
      setitem I1 (2 * p + 1) y) P watermarked_params.

(** wrap.py *)
Definition prepare (params : list Z) (key : list byte) (zeta eta : Z) : result (list Z) :=
  watermarked_params <$> prepare_parameters params key zeta eta.

End Watermarking.

(* ===================================================================== *)
(** * wrap.py: the protected call *)
(* ===================================================================== *)

(** [vr.error or 'code mismatch'] *)
Definition error_or_mismatch (vr : VerificationResult) : string :=
  match error vr with
  | Some s => if bool_decide (s = "") then "code mismatch" else s
  | None => "code mismatch"
  end.

Section Wrap.

Variable _hmac_sha256 : list byte -> list byte -> list byte.
Variable fuel : nat.

(** [protect(key=key, zeta=zeta, eta=eta, on_tamper=on_tamper)(func)
    (received_params)]: the function [wrapped] of the decorator.  [func] may
    raise; the result is [Some] of what [func] returns, or [None] where
    [wrapped] returns Python's [None] itself. *)
Definition protect {R : Type} (key : list byte) (zeta eta : Z) (on_tamper : string)
    (func : list Z -> result R) (received_params : list Z) : result (option R) :=
  build ← build_watermark_graph _hmac_sha256 fuel received_params key eta;
  vr ← controller_verify (graph_heap build) (graph_head build) zeta;
  if is_authentic vr then
    restored ← restore_params_from_pairs received_params (build_permutation build);
    Some <$> func restored
  else if bool_decide (on_tamper = "call_anyway") then Some <$> func received_params
  else if bool_decide (on_tamper = "return_none") then Ok None
  else Raise (ValueError ("Parameter authentication failed: " +:+ error_or_mismatch vr)).

End Wrap.

(* ===================================================================== *)
(** * Vocabulary of the specification *)
(* ===================================================================== *)

(** The rejection bound [(1 << 64) - ((1 << 64) % m)] of both sampling loops. *)
Definition reject_limit (m : Z) : Z := Z.shiftl 1 64 - (Z.shiftl 1 64) mod m.

Section Vocabulary.

Variable _hmac_sha256 : list byte -> list byte -> list byte.

(** The rejection loops end only if an accepted draw comes up.  For the
    shuffle of [n] elements: at every position [i] and from every counter
    value [c] on, some later draw is below the bound of [i + 1]. *)
Definition perm_fair (seed : list byte) (n : Z) : Prop :=
  forall i c, 0 <= i < n - 1 -> 0 <= c ->
    exists k : nat,
      hmac64 _hmac_sha256 seed (keyed_permutation_label i (c + Z.of_nat k))
      < reject_limit (i + 1).

(** For the index of each pair [p] in [0, n): some draw is below the bound
    of [eta] (asked only for [eta > 0]; otherwise no draw is made). *)
Definition index_fair (key : list byte) (eta n : Z) : Prop :=
  0 < eta ->
  forall p, 0 <= p < n ->
    exists k : nat,
      hmac64 _hmac_sha256 key (keyed_index_msg p (Z.of_nat k)) < reject_limit eta.

(** The vote pair [p] casts in [code_builder]: the bit position
    [keyed_index(p, eta, key)] and whether [gamma[p] == 1]. *)
Definition vote (fuel : nat) (gamma : list Z) (eta : Z) (key : list byte) (p : Z)
  : option (Z * bool) :=
  match keyed_index _hmac_sha256 fuel p eta key, getitem gamma p with
  | Ok j, Ok g => Some (j, bool_decide (g = 1))
  | _, _ => None
  end.

(** Number of one-votes ([one = true]) or zero-votes ([one = false]) that
    position [j] receives from the pairs of [P]. *)
Definition count_votes (fuel : nat) (gamma : list Z) (eta : Z) (key : list byte)
    (P : list Z) (j : Z) (one : bool) : Z :=
  Z.of_nat (length (filter (fun p => vote fuel gamma eta key p = Some (j, one)) P)).

(** Bit position [j] is the keyed index of some pair in [0, n); and the
    opposite, [j] is the keyed index of no pair in [0, n). *)
Definition covered (key : list byte) (eta n j : Z) : Prop :=
  exists p fuel, 0 <= p < n /\ keyed_index _hmac_sha256 fuel p eta key = Ok j.

Definition uncovered (key : list byte) (eta n j : Z) : Prop :=
  forall p fuel, 0 <= p < n -> keyed_index _hmac_sha256 fuel p eta key <> Ok j.

(** The bit [code_builder] writes at position [j] for the tallies [o], [z]. *)
Definition resolve_bit (key : list byte) (j o z : Z) : Z :=
  if bool_decide (o > 0 /\ z = 0) then 1
  else if bool_decide (z > 0 /\ o = 0) then 0
  else keyed_bit _hmac_sha256 key (chaos_msg j o z).

End Vocabulary.

(** The node [encode_watermark] builds at ring position [r] of [mu]: its
    [next] is position [(r + 1) mod mu], its [digit] is [dg]; and the digit
    pointer of a digit [d] at position [r]. *)
Definition ring_node (mu r : Z) (dg : option addr) : Node :=
  mkNode (Some (Z.to_nat ((r + 1) mod mu))) dg.

Definition digit_target (mu r d : Z) : option addr :=
  if bool_decide (d = 0) then None else Some (Z.to_nat ((r + d - 1) mod mu)).

(** The heap [encode_watermark] returns for the digit array [zeta6]. *)
Definition ring_heap (zeta6 : list Z) : heap :=
  imap (fun r d => ring_node (Z.of_nat (length zeta6)) (Z.of_nat r)
                     (digit_target (Z.of_nat (length zeta6)) (Z.of_nat r) d)) zeta6.

(** The node reached from [a] by following [next] pointers [k] times. *)
Fixpoint follow_next (h : heap) (k : nat) (a : addr) : option addr :=
  match k with
  | O => Some a
  | S k' =>
      match next (deref h a) with
      | Some a' => follow_next h k' a'
      | None => None
      end
  end.

(** What [decode_watermark] reads for a digit [d] stored in a ring of [mu]
    nodes. *)
Definition decoded_digit (mu d : Z) : Z :=
  if bool_decide (d = 0) then 0 else (d - 1) mod mu + 1.

(** The key of the package's unit tests, [b"unit-test-key"]. *)
Definition unit_test_key : list byte := encode_utf8 "unit-test-key".

(* ===================================================================== *)
(** * Reasoning about outcomes, loops and list indexing *)
(* ===================================================================== *)

Lemma bind_Ok {A B : Type} (m : result A) (k : A -> result B) (v : B) :
  (m ≫= k) = Ok v <-> exists a, m = Ok a /\ k a = Ok v.
Proof.
  destruct m as [a|e|]; simpl; split.
  - intros Hk. exists a. auto.
  - intros (a' & Ha & Hk). inversion Ha. subst. exact Hk.
  - discriminate.
  - intros (a' & Ha & _). discriminate.
  - discriminate.
  - intros (a' & Ha & _). discriminate.
Qed.

Lemma bind_not_Diverge {A B : Type} (m : result A) (k : A -> result B) :
  m <> Diverge -> (forall a, m = Ok a -> k a <> Diverge) -> (m ≫= k) <> Diverge.
Proof.
  destruct m as [a|e|]; simpl; intros Hm Hk.
  - apply Hk. reflexivity.
  - discriminate.
  - congruence.
Qed.

Lemma for_each_not_Diverge {A S : Type} (body : S -> A -> result S) (xs : list A) :
  (forall s x, x ∈ xs -> body s x <> Diverge) ->
  forall st, for_each body xs st <> Diverge.
Proof.
  induction xs as [|x xs IH]; intros Hb st; simpl.
  - discriminate.
  - apply bind_not_Diverge.
    + apply Hb. left.
    + intros s' _. apply IH. intros s y Hy. apply Hb. right. exact Hy.
Qed.

(** An invariant of the loop state holds at the end of a loop that finishes. *)
Lemma for_each_inv {A S : Type} (Inv : S -> Prop) (body : S -> A -> result S)
    (xs : list A) :
  (forall s x s', x ∈ xs -> Inv s -> body s x = Ok s' -> Inv s') ->
  forall st st', Inv st -> for_each body xs st = Ok st' -> Inv st'.
Proof.
  induction xs as [|x xs IH]; intros Hb st st' Hst Hrun; simpl in Hrun.
  - inversion Hrun. subst. exact Hst.
  - apply bind_Ok in Hrun as (s1 & H1 & H2).
    eapply IH; [| |exact H2].
    + intros s y s' Hy. apply Hb. right. exact Hy.
    + eapply Hb; [left|exact Hst|exact H1].
Qed.

Lemma for_each_app {A S : Type} (body : S -> A -> result S) (xs ys : list A) (st : S) :
  for_each body (xs ++ ys) st = for_each body xs st ≫= for_each body ys.
Proof.
  revert st. induction xs as [|x xs IH]; intros st; simpl; [reflexivity|].
  destruct (body st x) as [s1|e|]; simpl; auto.
Qed.

Lemma for_each_ext {A S : Type} (body body' : S -> A -> result S) (xs : list A) :
  (forall s x, x ∈ xs -> body s x = body' s x) ->
  forall st, for_each body xs st = for_each body' xs st.
Proof.
  induction xs as [|x xs IH]; intros Hb st; simpl; [reflexivity|].
  rewrite Hb by left.
  destruct (body' st x) as [s1|e|]; simpl; auto.
  apply IH. intros s y Hy. apply Hb. right. exact Hy.
Qed.

(** Indexing inside the list. *)
Lemma py_index_in {A : Type} (l : list A) (i : Z) :
  0 <= i < Z.of_nat (length l) -> py_index l i = Some (Z.to_nat i).
Proof.
  intros Hi. unfold py_index. rewrite bool_decide_eq_true_2 by exact Hi. reflexivity.
Qed.

Lemma getitem_in {A : Type} (l : list A) (i : Z) (x : A) :
  0 <= i -> l !! Z.to_nat i = Some x -> getitem l i = Ok x.
Proof.
  intros Hi Hx. unfold getitem.
  rewrite py_index_in.
  - rewrite Hx. reflexivity.
  - apply lookup_lt_Some in Hx. lia.
Qed.

Lemma getitem_in_range {A : Type} (l : list A) (i : Z) :
  0 <= i < Z.of_nat (length l) ->
  exists x, l !! Z.to_nat i = Some x /\ getitem l i = Ok x.
Proof.
  intros Hi.
  destruct (lookup_lt_is_Some_2 l (Z.to_nat i)) as [x Hx]; [lia|].
  exists x. split; [exact Hx|]. apply getitem_in; [lia|exact Hx].
Qed.

Lemma getitem_not_Diverge {A : Type} (l : list A) (i : Z) : getitem l i <> Diverge.
Proof. unfold getitem. repeat case_match; discriminate. Qed.

Lemma setitem_in {A : Type} (l : list A) (i : Z) (x : A) :
  0 <= i < Z.of_nat (length l) -> setitem l i x = Ok (<[Z.to_nat i := x]> l).
Proof. intros Hi. unfold setitem. rewrite py_index_in by exact Hi. reflexivity. Qed.

Lemma setitem_length {A : Type} (l l' : list A) (i : Z) (x : A) :
  setitem l i x = Ok l' -> length l' = length l.
Proof.
  unfold setitem. case_match; intros Hl; simplify_eq. apply length_insert.
Qed.

Lemma setitem_not_Diverge {A : Type} (l : list A) (i : Z) (x : A) :
  setitem l i x <> Diverge.
Proof. unfold setitem. case_match; discriminate. Qed.

Lemma elem_of_range (n i : Z) : i ∈ range n <-> 0 <= i < n.
Proof. unfold range. rewrite elem_of_seqZ. lia. Qed.

Lemma length_range (n : Z) : length (range n) = Z.to_nat n.
Proof. unfold range. apply length_seqZ. Qed.

Lemma NoDup_range (n : Z) : NoDup (range n).
Proof. apply NoDup_seqZ. Qed.

(* ===================================================================== *)
(** * Difference expansion (C2, C10) *)
(* ===================================================================== *)

Lemma extract_embed (x y bit : Z) :
  bit = 0 \/ bit = 1 ->
  let a := _floor_div2 (x + y) in
  let d' := 2 * (x - y) + bit in
  extract_bit_and_restore (a + _ceil_div2 d') (a - _floor_div2 d') = (bit, (x, y)).
Proof.
  intros Hbit a d'. subst a d'.
  unfold extract_bit_and_restore, _ceil_div2, _floor_div2.
  repeat f_equal.
  all: destruct Hbit; subst bit.
  all: Z.to_euclidean_division_equations; lia.
Qed.

(** C2.  For all integers [x], [y] and every [bit] in {0, 1}, [embed_bit]
    returns a pair from which [extract_bit_and_restore] gives back exactly
    [(bit, (x, y))]; and in the other direction, embedding the extracted bit
    into the restored pair gives back the pair one started from, so the two
    maps are inverse to each other on all of Z x Z. *)
Theorem C2_embed_extract_inverse (x y bit : Z) :
  bit = 0 \/ bit = 1 ->
  (exists emb, embed_bit x y bit = Ok emb /\
     extract_bit_and_restore (x_embedded emb) (y_embedded emb) = (bit, (x, y)))
  /\
  (forall x' y' : Z,
     let '(b, (x0, y0)) := extract_bit_and_restore x' y' in
     embed_bit x0 y0 b = Ok (mkEmbeddedPair x' y')).
Proof.
  intros Hbit. split.
  - unfold embed_bit. rewrite bool_decide_eq_false_2 by lia.
    eexists. split; [reflexivity|]. simpl. apply extract_embed. exact Hbit.
  - intros x' y'. unfold extract_bit_and_restore, embed_bit.
    pose proof (Z.mod_pos_bound (x' - y') 2 ltac:(lia)).
    rewrite bool_decide_eq_false_2 by lia.
    unfold _ceil_div2, _floor_div2. f_equal. f_equal.
    all: Z.to_euclidean_division_equations; lia.
Qed.

Lemma C2_embed_extract_inverse_witness :
  exists emb, embed_bit (-7) 12 1 = Ok emb /\
    extract_bit_and_restore (x_embedded emb) (y_embedded emb) = (1, (-7, 12)).
Proof.
  exact (proj1 (C2_embed_extract_inverse (-7) 12 1 (or_intror eq_refl))).
Defined.

(** C10.  [embed_bit] raises exactly when [bit] is neither 0 nor 1 (and then
    it is the ValueError of its guard); [extract_bit_and_restore] is a total
    function on pairs of integers whose bit is 0 or 1. *)
Theorem C10_embed_raises_iff_bad_bit (x y bit : Z) :
  ((exists e, embed_bit x y bit = Raise e) <-> (bit <> 0 /\ bit <> 1))
  /\ ((bit <> 0 /\ bit <> 1) <->
        embed_bit x y bit = Raise (ValueError "bit must be 0 or 1"))
  /\ embed_bit x y bit <> Diverge
  /\ (forall x' y' : Z, exists b x0 y0,
        extract_bit_and_restore x' y' = (b, (x0, y0)) /\ (b = 0 \/ b = 1)).
Proof.
  assert (Hex : forall x' y' : Z, exists b x0 y0,
             extract_bit_and_restore x' y' = (b, (x0, y0)) /\ (b = 0 \/ b = 1)).
  { intros x' y'. unfold extract_bit_and_restore. do 3 eexists.
    split; [reflexivity|].
    pose proof (Z.mod_pos_bound (x' - y') 2 ltac:(lia)). lia. }
  unfold embed_bit. case_bool_decide as Hb.
  - split; [|split; [|split]]; [| | discriminate | exact Hex].
    + split; [intros _; exact Hb | intros _; eexists; reflexivity].
    + split; [reflexivity | intros _; exact Hb].
  - split; [|split; [|split]]; [| | discriminate | exact Hex].
    + split; [intros [e He]; discriminate | intros Hb'; contradiction].
    + split; [intros Hb'; contradiction | discriminate].
Qed.

(* ===================================================================== *)
(** * Base conversion *)
(* ===================================================================== *)

Lemma int_to_digits_nonneg (n base : Z) :
  2 <= base -> 0 <= n -> exists ds, int_to_digits n base = Ok ds /\ ds <> [].
Proof.
  intros Hb Hn. unfold int_to_digits.
  rewrite bool_decide_eq_false_2 by lia.
  rewrite bool_decide_eq_false_2 by lia.
  case_bool_decide.
  - exists [0]. split; [reflexivity|discriminate].
  - eexists. split; [reflexivity|].
    simpl. rewrite bool_decide_eq_true_2 by lia.
    intros Hnil. apply (f_equal (@length Z)) in Hnil.
    rewrite length_rev in Hnil.
    assert (Hlen : forall k m acc, (length acc <= length (int_to_digits_loop k m base acc))%nat).
    { induction k as [|k IH]; intros m acc; simpl; case_bool_decide; try lia.
      etransitivity; [|apply IH]. rewrite length_app. simpl. lia. }
    specialize (Hlen (Z.to_nat (Z.log2 n)) (n / base) ([] ++ [n mod base])).
    simpl in Hlen, Hnil. lia.
Qed.

Lemma digits_to_int_not_Diverge (ds : list Z) (base : Z) : digits_to_int ds base <> Diverge.
Proof.
  unfold digits_to_int. repeat case_bool_decide; try discriminate.
  apply for_each_not_Diverge. intros s x _. case_bool_decide; discriminate.
Qed.

(* ===================================================================== *)
(** * The watermark graph and the Controller (C3, C4) *)
(* ===================================================================== *)

(** C3 (at the failing input).  For the one-digit array [5] the encoder
    reduces the digit pointer's target [(0 + 5 - 1) mod 1] to node 0 itself, and
    the decoder, finding the target after zero steps, returns [1]: the digit 5
    is lost.  The same happens for [3; 0] with two nodes. *)
Theorem C3_decode_encode_small_ring :
  (e ← encode_watermark [5]; decode_watermark e.1 e.2 1) = Ok [1]
  /\ (e ← encode_watermark [3; 0]; decode_watermark e.1 e.2 2) = Ok [1; 0].
Proof. split; vm_compute; reflexivity. Qed.

Lemma probe_loop_not_Diverge (k : nat) (h : heap) (mu : Z) (target probe : addr) (s : Z) :
  s <= mu -> mu - s < Z.of_nat k -> probe_loop k h mu target probe s <> Diverge.
Proof.
  revert probe s. induction k as [|k IH]; intros probe s Hs Hk; simpl.
  - lia.
  - case_bool_decide; [|discriminate].
    destruct (next (deref h probe)) as [q|]; [|discriminate].
    case_bool_decide; [discriminate|].
    apply IH; lia.
Qed.

Lemma decode_watermark_not_Diverge (h : heap) (head : addr) (mu : Z) :
  decode_watermark h head mu <> Diverge.
Proof.
  unfold decode_watermark. case_bool_decide as Hmu; [discriminate|].
  apply bind_not_Diverge.
  - apply for_each_not_Diverge. intros [nodes cur] x _.
    destruct (next (deref h cur)); discriminate.
  - intros [nodes cur] _.
    apply for_each_not_Diverge. intros zeta6 r _.
    apply bind_not_Diverge; [apply getitem_not_Diverge|].
    intros nr _. destruct (digit (deref h nr)) as [target|].
    + apply bind_not_Diverge.
      * apply probe_loop_not_Diverge; lia.
      * intros s _. apply setitem_not_Diverge.
    + apply setitem_not_Diverge.
Qed.

(** C4.  [controller_verify] raises exactly when [expected_zeta < 0]; for
    every heap, every head node and every [expected_zeta >= 0] it returns a
    VerificationResult.  An exception of [decode_watermark] (broken ring,
    unreachable digit) or of [digits_to_int] (digit out of range) becomes the
    result with [is_authentic = false], no recovered values and [error] the
    text of the exception; otherwise the result carries the decoded values and
    [is_authentic] says whether the decoded code equals the expected one. *)
Theorem C4_controller_verify_total (h : heap) (head : addr) (zeta : Z) :
  ((exists e, controller_verify h head zeta = Raise e) <-> zeta < 0)
  /\ (zeta < 0 ->
      controller_verify h head zeta = Raise (ValueError "expected_zeta must be non-negative"))
  /\ (0 <= zeta ->
      exists ds vr,
        int_to_digits zeta 6 = Ok ds /\
        controller_verify h head zeta = Ok vr /\
        let mu := Z.of_nat (length ds) in
        (forall e, decode_watermark h head mu = Raise e ->
           vr = mkVerificationResult false None None (Some (exn_str e))) /\
        (forall z6 e, decode_watermark h head mu = Ok z6 ->
           digits_to_int z6 6 = Raise e ->
           vr = mkVerificationResult false None None (Some (exn_str e))) /\
        (forall z6 z, decode_watermark h head mu = Ok z6 ->
           digits_to_int z6 6 = Ok z ->
           vr = mkVerificationResult (bool_decide (z = zeta)) (Some z) (Some z6) None)).
Proof.
  assert (Hneg : zeta < 0 ->
    controller_verify h head zeta = Raise (ValueError "expected_zeta must be non-negative")).
  { intros Hz. unfold controller_verify. rewrite bool_decide_eq_true_2 by exact Hz.
    reflexivity. }
  assert (Hpos : 0 <= zeta ->
      exists ds vr,
        int_to_digits zeta 6 = Ok ds /\
        controller_verify h head zeta = Ok vr /\
        let mu := Z.of_nat (length ds) in
        (forall e, decode_watermark h head mu = Raise e ->
           vr = mkVerificationResult false None None (Some (exn_str e))) /\
        (forall z6 e, decode_watermark h head mu = Ok z6 ->
           digits_to_int z6 6 = Raise e ->
           vr = mkVerificationResult false None None (Some (exn_str e))) /\
        (forall z6 z, decode_watermark h head mu = Ok z6 ->
           digits_to_int z6 6 = Ok z ->
           vr = mkVerificationResult (bool_decide (z = zeta)) (Some z) (Some z6) None)).
  { intros Hz.
    destruct (int_to_digits_nonneg zeta 6) as (ds & Hds & _); [lia|exact Hz|].
    exists ds. unfold controller_verify.
    rewrite bool_decide_eq_false_2 by lia. rewrite Hds. simpl.
    pose proof (decode_watermark_not_Diverge h head (Z.of_nat (length ds))) as Hdec.
    destruct (decode_watermark h head (Z.of_nat (length ds))) as [z6|e|] eqn:Edec;
      simpl; [| |contradiction]; cycle 1.
    { eexists. split; [reflexivity|]. split; [reflexivity|].
      split; [intros e' [= <-]; reflexivity|]. split; discriminate. }
    pose proof (digits_to_int_not_Diverge z6 6) as Hconv.
    destruct (digits_to_int z6 6) as [z|e|] eqn:Econv; simpl; [| |contradiction].
    - eexists. split; [reflexivity|]. split; [reflexivity|].
      split; [discriminate|]. split.
      + intros z6' e' [= <-] He'. rewrite Econv in He'. discriminate.
      + intros z6' z' [= <-] Hz'. rewrite Econv in Hz'. injection Hz' as <-.
        reflexivity.
    - eexists. split; [reflexivity|]. split; [reflexivity|].
      split; [discriminate|]. split.
      + intros z6' e' [= <-] He'. rewrite Econv in He'. injection He' as <-.
        reflexivity.
      + intros z6' z' [= <-] Hz'. rewrite Econv in Hz'. discriminate. }
  split; [|split; [exact Hneg|exact Hpos]].
  split.
  - intros [e He]. destruct (Z.lt_ge_cases zeta 0) as [Hlt|Hge]; [exact Hlt|].
    destruct (Hpos Hge) as (ds & vr & _ & Hvr & _). congruence.
  - intros Hz. eexists. apply Hneg. exact Hz.
Qed.

Lemma C4_controller_verify_total_witness :
  controller_verify [mkNode None None] 0%nat 6
  = Ok (mkVerificationResult false None None (Some "invalid structure (broken ring)")).
Proof.
  destruct (proj2 (proj2 (C4_controller_verify_total [mkNode None None] 0%nat 6)))
    as (ds & vr & Hds & Hvr & Hdec & _); [lia|].
  rewrite Hvr. f_equal.
  vm_compute in Hds. injection Hds as <-.
  apply (Hdec (ValueError "invalid structure (broken ring)")).
  vm_compute. reflexivity.
Defined.

(* ===================================================================== *)
(** * Rejection sampling and the keyed permutation (C8) *)
(* ===================================================================== *)

Lemma int_from_bytes_be_bound (bs : list byte) :
  0 <= int_from_bytes_be bs < 256 ^ Z.of_nat (length bs).
Proof.
  unfold int_from_bytes_be.
  assert (Hgen : forall acc k, 0 <= acc < 256 ^ k -> 0 <= k ->
            0 <= fold_left (fun acc b => acc * 256 + Z.of_N (Byte.to_N b)) bs acc
            < 256 ^ (k + Z.of_nat (length bs))).
  { induction bs as [|b bs IH]; intros acc k Hacc Hk; simpl.
    - rewrite Z.add_0_r. exact Hacc.
    - replace (k + Z.of_nat (S (length bs)))
        with ((k + 1) + Z.of_nat (length bs)) by lia.
      apply IH; [|lia].
      rewrite Z.pow_add_r by lia. change (256 ^ 1) with 256.
      pose proof (Byte.to_N_bounded b). lia. }
  specialize (Hgen 0 0). simpl in Hgen. apply Hgen; lia.
Qed.

Lemma hmac64_range (H : list byte -> list byte -> list byte) (key msg : list byte) :
  0 <= hmac64 H key msg < 2 ^ 64.
Proof.
  unfold hmac64.
  pose proof (int_from_bytes_be_bound (take 8 (H key msg))) as Hb.
  assert (Hlen : (length (take 8 (H key msg)) <= 8)%nat) by (rewrite length_take; lia).
  assert (256 ^ Z.of_nat (length (take 8 (H key msg))) <= 256 ^ 8)
    by (apply Z.pow_le_mono_r; lia).
  change (2 ^ 64) with (256 ^ 8). lia.
Qed.

Lemma rejection_loop_Ok_inv (fuel : nat) (draw : Z -> Z) (limit c r c' : Z) :
  rejection_loop fuel draw limit c = Ok (r, c') ->
  r < limit /\ c < c' /\ r = draw (c' - 1).
Proof.
  revert c. induction fuel as [|fuel IH]; intros c; simpl; [discriminate|].
  case_bool_decide as Hr.
  - intros [= <- <-]. replace (c + 1 - 1) with c by lia. lia.
  - intros Hrun. apply IH in Hrun. lia.
Qed.

Lemma rejection_loop_not_Raise (fuel : nat) (draw : Z -> Z) (limit c : Z) (e : exn) :
  rejection_loop fuel draw limit c <> Raise e.
Proof.
  revert c. induction fuel as [|fuel IH]; intros c; simpl; [discriminate|].
  case_bool_decide; [discriminate|apply IH].
Qed.

(** If an accepted draw comes up at or after [c], the loop returns it with
    every large enough budget of draws. *)
Lemma rejection_loop_fair (draw : Z -> Z) (limit c : Z) :
  (exists k : nat, draw (c + Z.of_nat k) < limit) ->
  exists r c' fuel0, r < limit /\ c < c' /\
    forall fuel, (fuel0 <= fuel)%nat -> rejection_loop fuel draw limit c = Ok (r, c').
Proof.
  intros [k Hk]. revert c Hk. induction k as [|k IH]; intros c Hk.
  - rewrite Z.add_0_r in Hk.
    exists (draw c), (c + 1), 1%nat. split; [exact Hk|]. split; [lia|].
    intros [|fuel] Hf; [lia|]. simpl. rewrite bool_decide_eq_true_2 by exact Hk.
    reflexivity.
  - destruct (decide (draw c < limit)) as [Hc|Hc].
    + exists (draw c), (c + 1), 1%nat. split; [exact Hc|]. split; [lia|].
      intros [|fuel] Hf; [lia|]. simpl. rewrite bool_decide_eq_true_2 by exact Hc.
      reflexivity.
    + destruct (IH (c + 1)) as (r & c' & fuel0 & Hr & Hc' & Hrun).
      { replace (c + 1 + Z.of_nat k) with (c + Z.of_nat (S k)) by lia. exact Hk. }
      exists r, c', (S fuel0). split; [exact Hr|]. split; [lia|].
      intros [|fuel] Hf; [lia|]. simpl. rewrite bool_decide_eq_false_2 by exact Hc.
      apply Hrun. lia.
Qed.

(** A loop each of whose rounds finishes with every large enough budget
    finishes with every large enough budget. *)
Lemma for_each_eventually {A S : Type} (Inv : S -> Prop)
    (body : nat -> S -> A -> result S) (xs : list A) :
  (forall s x, x ∈ xs -> Inv s ->
     exists s' fuel0, Inv s' /\ forall fuel, (fuel0 <= fuel)%nat -> body fuel s x = Ok s') ->
  forall st, Inv st ->
  exists st' fuel0, Inv st' /\
    forall fuel, (fuel0 <= fuel)%nat -> for_each (body fuel) xs st = Ok st'.
Proof.
  induction xs as [|x xs IH]; intros Hb st Hst.
  - exists st, 0%nat. split; [exact Hst|]. reflexivity.
  - destruct (Hb st x) as (s1 & f1 & Hs1 & H1); [left|exact Hst|].
    destruct (IH (fun s y Hy => Hb s y (list_elem_of_further _ _ _ Hy)) s1 Hs1)
      as (st' & f2 & Hst' & H2).
    exists st', (max f1 f2). split; [exact Hst'|].
    intros fuel Hf. simpl. rewrite H1 by lia. simpl. apply H2. lia.
Qed.

Lemma comprehension_eventually {A B : Type} (f : nat -> A -> result B) (xs : list A) :
  (forall x, x ∈ xs -> exists y fuel0, forall fuel, (fuel0 <= fuel)%nat -> f fuel x = Ok y) ->
  exists ys fuel0, forall fuel, (fuel0 <= fuel)%nat -> comprehension (f fuel) xs = Ok ys.
Proof.
  induction xs as [|x xs IH]; intros Hf.
  - exists [], 0%nat. reflexivity.
  - destruct (Hf x) as (y & f1 & H1); [left|].
    destruct IH as (ys & f2 & H2).
    { intros z Hz. apply Hf. right. exact Hz. }
    exists (y :: ys), (max f1 f2). intros fuel Hfuel. simpl.
    rewrite H1 by lia. simpl. rewrite H2 by lia. reflexivity.
Qed.

Lemma comprehension_Ok {A B : Type} (f : A -> result B) (xs : list A) (ys : list B) :
  comprehension f xs = Ok ys -> Forall2 (fun x y => f x = Ok y) xs ys.
Proof.
  revert ys. induction xs as [|x xs IH]; intros ys; simpl.
  - intros [= <-]. constructor.
  - intros Hrun. apply bind_Ok in Hrun as (y & Hy & Hrun).
    apply bind_Ok in Hrun as (ys' & Hys & [= <-]).
    constructor; [exact Hy|apply IH; exact Hys].
Qed.

(** [l[i], l[j] = l[j], l[i]] permutes [l]. *)
Lemma insert_head_Permutation {A : Type} (l : list A) (j : nat) (a b : A) :
  l !! j = Some b -> b :: <[j := a]> l ≡ₚ a :: l.
Proof.
  revert j. induction l as [|x l IH]; intros [|j] Hj; simpl in *; try discriminate.
  - injection Hj as ->. apply perm_swap.
  - rewrite (perm_swap x b). rewrite (IH j Hj). apply perm_swap.
Qed.

Lemma swap_Permutation {A : Type} (l : list A) (i j : nat) (a b : A) :
  l !! i = Some a -> l !! j = Some b -> <[j := a]> (<[i := b]> l) ≡ₚ l.
Proof.
  revert i j. induction l as [|x l IH]; intros [|i] [|j] Hi Hj; simpl in *;
    try discriminate.
  - injection Hi as ->. injection Hj as ->. reflexivity.
  - injection Hi as ->. apply insert_head_Permutation. exact Hj.
  - injection Hj as ->. apply insert_head_Permutation. exact Hi.
  - f_equiv. apply IH; assumption.
Qed.

Section KeyedPermutation.

Variable H : list byte -> list byte -> list byte.

(** One round of the shuffle, from the accepted draw on. *)
Lemma shuffle_round (P : list Z) (n i r : Z) :
  P ≡ₚ range n -> 0 <= i < n - 1 ->
  exists P',
    (Pj ← getitem P (r mod (i + 1));
     Pi ← getitem P i;
     P1 ← setitem P i Pj;
     setitem P1 (r mod (i + 1)) Pi) = Ok P'
    /\ P' ≡ₚ range n.
Proof.
  intros HP Hi.
  assert (Hlen : Z.of_nat (length P) = n).
  { rewrite HP, length_range. lia. }
  pose proof (Z.mod_pos_bound r (i + 1) ltac:(lia)) as Hj.
  destruct (getitem_in_range P (r mod (i + 1))) as (Pj & HPj & ->); [lia|].
  destruct (getitem_in_range P i) as (Pi & HPi & ->); [lia|].
  simpl. rewrite setitem_in by lia. simpl.
  rewrite setitem_in by (rewrite length_insert; lia).
  eexists. split; [reflexivity|].
  rewrite swap_Permutation; [exact HP|exact HPi|exact HPj].
Qed.

Lemma keyed_permutation_Ok (fuel : nat) (seed : list byte) (n : Z) (P : list Z) :
  keyed_permutation H fuel seed n = Ok P -> 0 <= n /\ P ≡ₚ range n.
Proof.
  unfold keyed_permutation. case_bool_decide as Hn; [discriminate|].
  intros Hrun. apply bind_Ok in Hrun as ([P' c] & Hrun & [= ->]).
  split; [lia|].
  revert Hrun.
  apply (for_each_inv (fun st : list Z * Z => st.1 ≡ₚ range n)); [|reflexivity].
  intros [P0 c0] i [P1 c1] Hi%elem_of_range HP0 Hbody. simpl in *.
  apply bind_Ok in Hbody as ([r c'] & _ & Hbody).
  destruct (shuffle_round P0 n i r HP0 Hi) as (P2 & Hround & HP2).
  unfold mbind, result_bind in *.
  repeat case_match; simplify_eq. exact HP2.
Qed.

Lemma keyed_permutation_not_Raise (fuel : nat) (seed : list byte) (n : Z) (e : exn) :
  0 <= n -> keyed_permutation H fuel seed n <> Raise e.
Proof.
  intros Hn. unfold keyed_permutation. rewrite bool_decide_eq_false_2 by lia.
  assert (Hloop : forall xs st, (forall i, i ∈ xs -> 0 <= i < n - 1) ->
            st.1 ≡ₚ range n ->
            for_each (fun '(P, c) i =>
              '(r, c') ← rejection_loop fuel
                  (fun c => hmac64 H seed (keyed_permutation_label i c))
                  (Z.shiftl 1 64 - Z.shiftl 1 64 mod (i + 1)) c;
              Pj ← getitem P (r mod (i + 1));
              Pi ← getitem P i;
              P1 ← setitem P i Pj;
              P2 ← setitem P1 (r mod (i + 1)) Pi;
              Ok (P2, c')) xs st <> Raise e).
  { induction xs as [|i xs IH]; intros [P0 c0] Hxs HP0; simpl; [discriminate|].
    pose proof (rejection_loop_not_Raise fuel
      (fun c => hmac64 H seed (keyed_permutation_label i c))
      (Z.shiftl 1 64 - Z.shiftl 1 64 mod (i + 1)) c0) as Hnr.
    destruct (rejection_loop _ _ _ c0) as [[r c']|e'|]; simpl;
      [|intros [= ->]; eapply Hnr; reflexivity|discriminate].
    destruct (shuffle_round P0 n i r HP0) as (P2 & Hround & HP2).
    { apply Hxs. left. }
    simpl in HP0.
    unfold mbind, result_bind in Hround |- *.
    repeat case_match; simplify_eq.
    apply IH; [|exact HP2].
    intros k Hk. apply Hxs. right. exact Hk. }
  intros Hrun.
  destruct (for_each _ (range (n - 1)) (range n, 0)) as [[P c]|e'|] eqn:E; simpl in Hrun;
    try discriminate.
  injection Hrun as ->. revert E. apply Hloop; [|reflexivity].
  intros i Hi%elem_of_range. exact Hi.
Qed.

(** Under fair sampling the shuffle finishes with every large enough budget
    of draws. *)
Lemma keyed_permutation_eventually (seed : list byte) (n : Z) :
  0 <= n -> perm_fair H seed n ->
  exists P fuel0, P ≡ₚ range n /\
    forall fuel, (fuel0 <= fuel)%nat -> keyed_permutation H fuel seed n = Ok P.
Proof.
  intros Hn Hfair. unfold keyed_permutation.
  rewrite bool_decide_eq_false_2 by lia.
  destruct (for_each_eventually
    (fun st : list Z * Z => st.1 ≡ₚ range n /\ 0 <= st.2)
    (fun fuel '(P, c) i =>
        '(r, c') ← rejection_loop fuel
            (fun c => hmac64 H seed (keyed_permutation_label i c))
            (Z.shiftl 1 64 - Z.shiftl 1 64 mod (i + 1)) c;
        Pj ← getitem P (r mod (i + 1));
        Pi ← getitem P i;
        P1 ← setitem P i Pj;
        P2 ← setitem P1 (r mod (i + 1)) Pi;
        Ok (P2, c'))
    (range (n - 1))) with (st := (range n, 0)) as ([P c] & fuel0 & [HP Hc] & Hrun).
  - intros [P0 c0] i Hi%elem_of_range [HP0 Hc0]. simpl in *.
    destruct (rejection_loop_fair
       (fun c => hmac64 H seed (keyed_permutation_label i c))
       (Z.shiftl 1 64 - Z.shiftl 1 64 mod (i + 1)) c0) as (r & c' & f0 & _ & Hc' & Hloop).
    { apply (Hfair i c0 Hi Hc0). }
    destruct (shuffle_round P0 n i r HP0 Hi) as (P2 & Hround & HP2).
    exists (P2, c'), f0. split; [split; [exact HP2|simpl; lia]|].
    intros fuel Hf. rewrite (Hloop fuel Hf). simpl.
    unfold mbind, result_bind in Hround |- *.
    repeat case_match; simplify_eq. reflexivity.
  - simpl. split; [reflexivity|lia].
  - exists P, fuel0. split; [exact HP|].
    intros fuel Hf. rewrite (Hrun fuel Hf). reflexivity.
Qed.

(** C8.  For [n >= 0], and a seed whose draws are fair for [n],
    [keyed_permutation(seed, n)] returns a list [P] (with every large enough
    budget of draws) that is a permutation of [0, n): it has length [n], no
    repetition, and contains exactly the indices of [0, n).  Whatever the
    budget, the function never raises for [n >= 0], and a list it returns is
    such a permutation. *)
Theorem C8_keyed_permutation_is_permutation (seed : list byte) (n : Z) :
  0 <= n -> perm_fair H seed n ->
  (exists P,
     (exists fuel0, forall fuel, (fuel0 <= fuel)%nat ->
        keyed_permutation H fuel seed n = Ok P)
     /\ P ≡ₚ range n
     /\ Z.of_nat (length P) = n
     /\ NoDup P
     /\ (forall i, i ∈ P <-> 0 <= i < n))
  /\ (forall fuel e, keyed_permutation H fuel seed n <> Raise e)
  /\ (forall fuel P', keyed_permutation H fuel seed n = Ok P' ->
        P' ≡ₚ range n /\ Z.of_nat (length P') = n /\ NoDup P'
        /\ (forall i, i ∈ P' <-> 0 <= i < n)).
Proof.
  intros Hn Hfair.
  assert (Hperm : forall P : list Z, P ≡ₚ range n ->
            P ≡ₚ range n /\ Z.of_nat (length P) = n /\ NoDup P
            /\ (forall i, i ∈ P <-> 0 <= i < n)).
  { intros P HP. split; [exact HP|]. split; [|split].
    - rewrite HP, length_range. lia.
    - rewrite HP. apply NoDup_range.
    - intros i. rewrite HP. apply elem_of_range. }
  split; [|split].
  - destruct (keyed_permutation_eventually seed n Hn Hfair) as (P & fuel0 & HP & Hrun).
    exists P. split; [exists fuel0; exact Hrun|]. apply Hperm. exact HP.
  - intros fuel e. apply keyed_permutation_not_Raise. exact Hn.
  - intros fuel P' Hrun. apply Hperm. eapply keyed_permutation_Ok. exact Hrun.
Qed.

End KeyedPermutation.

(* ===================================================================== *)
(** * The keyed index and the coverage check (C5) *)
(* ===================================================================== *)

Lemma rejection_loop_det (f f' : nat) (draw : Z -> Z) (limit c : Z) (v v' : Z * Z) :
  rejection_loop f draw limit c = Ok v ->
  rejection_loop f' draw limit c = Ok v' -> v = v'.
Proof.
  revert f' c. induction f as [|f IH]; intros [|f'] c; simpl; try discriminate.
  case_bool_decide.
  - congruence.
  - apply IH.
Qed.

(** The covered positions are fewer than [eta] exactly when one position of
    [0, eta) is missing. *)
Lemma coverage_size (idxs : list Z) (eta : Z) :
  0 <= eta -> Forall (fun j => 0 <= j < eta) idxs ->
  Z.of_nat (size (list_to_set idxs : gset Z)) < eta
  <-> exists j, 0 <= j < eta /\ j ∉ idxs.
Proof.
  intros Heta Hidx.
  set (X := list_to_set idxs : gset Z).
  set (Y := list_to_set (range eta) : gset Z).
  assert (HXY : X ⊆ Y).
  { intros j Hj. apply elem_of_list_to_set in Hj. apply elem_of_list_to_set.
    apply elem_of_range. rewrite Forall_forall in Hidx. apply Hidx. exact Hj. }
  assert (HY : size Y = Z.to_nat eta).
  { unfold Y. rewrite size_list_to_set by apply NoDup_range. apply length_range. }
  split.
  - intros Hlt.
    destruct (size_pos_elem_of (Y ∖ X)) as [j Hj].
    { rewrite size_difference by exact HXY. lia. }
    apply elem_of_difference in Hj as [HjY HjX].
    exists j. split.
    + apply elem_of_list_to_set, elem_of_range in HjY. exact HjY.
    + intros Hin. apply HjX. apply elem_of_list_to_set. exact Hin.
  - intros (j & Hj & Hnin).
    assert (HjY : j ∈ Y) by (apply elem_of_list_to_set, elem_of_range; exact Hj).
    assert (HX' : X ⊆ Y ∖ {[j]}).
    { intros k Hk. apply elem_of_difference. split; [apply HXY; exact Hk|].
      intros ->%elem_of_singleton. apply Hnin.
      apply elem_of_list_to_set in Hk. exact Hk. }
    apply subseteq_size in HX'.
    rewrite size_difference in HX' by (apply singleton_subseteq_l; exact HjY).
    rewrite size_singleton in HX'.
    assert (size Y <> 0)%nat.
    { apply size_non_empty_iff. intros HYe. apply HYe in HjY.
      apply elem_of_empty in HjY. exact HjY. }
    lia.
Qed.

Section KeyedIndex.

Variable H : list byte -> list byte -> list byte.

Lemma keyed_index_Ok (fuel : nat) (p eta : Z) (key : list byte) (j : Z) :
  keyed_index H fuel p eta key = Ok j -> 0 < eta /\ 0 <= j < eta.
Proof.
  unfold keyed_index. case_bool_decide as Heta; [discriminate|].
  intros Hrun. apply bind_Ok in Hrun as ([r c] & _ & [= <-]).
  split; [lia|]. apply Z.mod_pos_bound. lia.
Qed.

Lemma keyed_index_nonpos (fuel : nat) (p eta : Z) (key : list byte) :
  eta <= 0 -> keyed_index H fuel p eta key = Raise (ValueError "eta must be > 0").
Proof.
  intros Heta. unfold keyed_index. rewrite bool_decide_eq_true_2 by exact Heta.
  reflexivity.
Qed.

Lemma keyed_index_det (f f' : nat) (p eta : Z) (key : list byte) (j j' : Z) :
  keyed_index H f p eta key = Ok j -> keyed_index H f' p eta key = Ok j' -> j = j'.
Proof.
  unfold keyed_index. case_bool_decide; [discriminate|].
  intros H1 H2.
  apply bind_Ok in H1 as ([r1 c1] & H1 & [= <-]).
  apply bind_Ok in H2 as ([r2 c2] & H2 & [= <-]).
  pose proof (rejection_loop_det _ _ _ _ _ _ _ H1 H2) as [= -> ->]. reflexivity.
Qed.

Lemma keyed_index_eventually (p eta : Z) (key : list byte) :
  0 < eta ->
  (exists k : nat, hmac64 H key (keyed_index_msg p (Z.of_nat k)) < reject_limit eta) ->
  exists j fuel0, 0 <= j < eta /\
    forall fuel, (fuel0 <= fuel)%nat -> keyed_index H fuel p eta key = Ok j.
Proof.
  intros Heta Hfair.
  destruct (rejection_loop_fair
      (fun c => hmac64 H key (keyed_index_msg p c)) (reject_limit eta) 0)
    as (r & c' & fuel0 & _ & _ & Hloop).
  { destruct Hfair as [k Hk]. exists k. rewrite Z.add_0_l. exact Hk. }
  exists (r mod eta), fuel0. split; [apply Z.mod_pos_bound; lia|].
  intros fuel Hf. unfold keyed_index. rewrite bool_decide_eq_false_2 by lia.
  unfold reject_limit in Hloop. rewrite (Hloop fuel Hf). reflexivity.
Qed.

(** What a successful [_compute_permutation] establishes. *)
Lemma compute_permutation_Ok (fuel : nat) (params_len : Z) (key : list byte)
    (eta : Z) (P : list Z) :
  _compute_permutation H fuel params_len key eta = Ok P ->
  2 <= params_len /\ 0 < eta <= params_len / 2
  /\ P ≡ₚ range (params_len / 2)
  /\ (forall p, p ∈ P -> exists j, keyed_index H fuel p eta key = Ok j /\ 0 <= j < eta)
  /\ (forall j, 0 <= j < eta -> exists p, p ∈ P /\ keyed_index H fuel p eta key = Ok j).
Proof.
  unfold _compute_permutation.
  case_bool_decide as Hlen; [discriminate|].
  case_bool_decide as Hpairs; [discriminate|].
  intros Hrun.
  apply bind_Ok in Hrun as (P' & HP' & Hrun).
  apply bind_Ok in Hrun as (idxs & Hidxs & Hrun).
  case_bool_decide as Hcov; [discriminate|]. injection Hrun as ->.
  apply keyed_permutation_Ok in HP' as [Hn HP].
  apply comprehension_Ok in Hidxs.
  assert (Hex : forall p, p ∈ P -> exists j, keyed_index H fuel p eta key = Ok j /\ 0 <= j < eta).
  { intros p Hp. apply list_elem_of_lookup in Hp as [i Hi].
    destruct (Forall2_lookup_l _ _ _ _ _ Hidxs Hi) as (j & _ & Hj).
    exists j. split; [exact Hj|]. apply (keyed_index_Ok _ _ _ _ _ Hj). }
  assert (Heta : 0 < eta).
  { assert (Hne : 0 ∈ P) by (rewrite HP; apply elem_of_range;
      assert (1 <= params_len / 2) by (apply Z.div_le_lower_bound; lia); lia).
    destruct (Hex 0 Hne) as (j & _ & Hj). lia. }
  split; [lia|]. split; [lia|]. split; [exact HP|]. split; [exact Hex|].
  intros j Hj.
  assert (Hall : Forall (fun j => 0 <= j < eta) idxs).
  { apply Forall_forall. intros k Hk. apply list_elem_of_lookup in Hk as [i Hi].
    destruct (Forall2_lookup_r _ _ _ _ _ Hidxs Hi) as (p & _ & Hp).
    apply (keyed_index_Ok _ _ _ _ _ Hp). }
  destruct (decide (j ∈ idxs)) as [Hin|Hnin].
  - apply list_elem_of_lookup in Hin as [i Hi].
    destruct (Forall2_lookup_r _ _ _ _ _ Hidxs Hi) as (p & Hp & Hpj).
    exists p. split; [|exact Hpj]. apply list_elem_of_lookup. exists i. exact Hp.
  - exfalso. apply Hcov. apply coverage_size; [lia|exact Hall|].
    exists j. split; [exact Hj|exact Hnin].
Qed.

End KeyedIndex.

Lemma rejection_loop_first (fuel : nat) (draw : Z -> Z) (limit c r c' : Z) :
  rejection_loop fuel draw limit c = Ok (r, c') ->
  c' - c <= Z.of_nat fuel /\ forall k, c <= k < c' - 1 -> limit <= draw k.
Proof.
  revert c. induction fuel as [|fuel IH]; intros c; simpl; [discriminate|].
  case_bool_decide as Hr.
  - intros [= <- <-]. split; [lia|]. intros k Hk. lia.
  - intros Hrun. destruct (IH _ Hrun) as [Hf Hrej]. split; [lia|].
    intros k Hk. destruct (decide (k = c)) as [->|Hne]; [lia|]. apply Hrej. lia.
Qed.

Lemma rejection_loop_more_fuel (fuel fuel' : nat) (draw : Z -> Z) (limit c : Z)
    (v : Z * Z) :
  (fuel <= fuel')%nat ->
  rejection_loop fuel draw limit c = Ok v -> rejection_loop fuel' draw limit c = Ok v.
Proof.
  revert fuel' c. induction fuel as [|fuel IH]; intros fuel' c Hle; simpl; [discriminate|].
  destruct fuel' as [|fuel']; [lia|]. simpl.
  case_bool_decide; [auto|]. apply IH. lia.
Qed.

Lemma rejection_loop_never (fuel : nat) (draw : Z -> Z) (limit c : Z) :
  (forall k, limit <= draw k) -> rejection_loop fuel draw limit c = Diverge.
Proof.
  intros Hrej. revert c. induction fuel as [|fuel IH]; intros c; simpl; [reflexivity|].
  rewrite bool_decide_eq_false_2 by (specialize (Hrej c); lia). apply IH.
Qed.

(** Outcomes do not depend on the budget of draws: a run that ends, by
    returning or by raising, ends the same way with every larger budget. *)
Lemma rejection_loop_stable (fuel fuel' : nat) (draw : Z -> Z) (limit c : Z) :
  (fuel <= fuel')%nat -> rejection_loop fuel draw limit c <> Diverge ->
  rejection_loop fuel' draw limit c = rejection_loop fuel draw limit c.
Proof.
  intros Hle Hnd. destruct (rejection_loop fuel draw limit c) as [v|e|] eqn:E.
  - apply (rejection_loop_more_fuel fuel fuel' _ _ _ _ Hle E).
  - exfalso. apply (rejection_loop_not_Raise _ _ _ _ _ E).
  - contradiction.
Qed.

Lemma bind_stable {A B : Type} (m m' : result A) (k k' : A -> result B) :
  (m <> Diverge -> m' = m) ->
  (forall a, m = Ok a -> k a <> Diverge -> k' a = k a) ->
  (m ≫= k) <> Diverge -> (m' ≫= k') = (m ≫= k).
Proof.
  intros Hm Hk. destruct m as [a|e|]; simpl.
  - rewrite Hm by discriminate. simpl. apply Hk. reflexivity.
  - rewrite Hm by discriminate. reflexivity.
  - contradiction.
Qed.

Lemma for_each_stable {A S : Type} (body body' : S -> A -> result S) (xs : list A) :
  (forall s x, x ∈ xs -> body s x <> Diverge -> body' s x = body s x) ->
  forall st, for_each body xs st <> Diverge ->
  for_each body' xs st = for_each body xs st.
Proof.
  induction xs as [|x xs IH]; intros Hbody st; simpl; [reflexivity|].
  apply bind_stable.
  - apply Hbody. left.
  - intros s1 _. apply IH. intros s y Hy. apply Hbody. right. exact Hy.
Qed.

Lemma comprehension_stable {A B : Type} (f f' : A -> result B) (xs : list A) :
  (forall x, x ∈ xs -> f x <> Diverge -> f' x = f x) ->
  comprehension f xs <> Diverge -> comprehension f' xs = comprehension f xs.
Proof.
  induction xs as [|x xs IH]; intros Hf; simpl; [reflexivity|].
  apply bind_stable.
  - apply Hf. left.
  - intros y _. apply bind_stable.
    + apply IH. intros z Hz. apply Hf. right. exact Hz.
    + reflexivity.
Qed.

Lemma comprehension_Raise_inv {A B : Type} (f : A -> result B) (xs : list A) (e : exn) :
  comprehension f xs = Raise e -> exists x, x ∈ xs /\ f x = Raise e.
Proof.
  induction xs as [|x xs IH]; simpl; [discriminate|].
  destruct (f x) as [y|e'|] eqn:E; simpl.
  - destruct (comprehension f xs) as [ys|e'|]; simpl; try discriminate.
    intros [= ->]. destruct (IH eq_refl) as (z & Hz & Hfz).
    exists z. split; [right; exact Hz|exact Hfz].
  - intros [= ->]. exists x. split; [left|exact E].
  - discriminate.
Qed.

Section ComputePermutation.

Variable H : list byte -> list byte -> list byte.

(** A failure of [_compute_permutation] is the failure of both callers. *)
Lemma compute_permutation_Raise_paths (fuel : nat) (params : list Z) (key : list byte)
    (zeta eta : Z) (e : exn) :
  _compute_permutation H fuel (Z.of_nat (length params)) key eta = Raise e ->
  (0 <= zeta -> prepare_parameters H fuel params key zeta eta = Raise e)
  /\ build_watermark_graph H fuel params key eta = Raise e.
Proof.
  intros Hfail. split.
  - intros Hz. unfold prepare_parameters.
    rewrite bool_decide_eq_false_2 by lia. rewrite Hfail. reflexivity.
  - unfold build_watermark_graph. rewrite Hfail. reflexivity.
Qed.

(** With fair draws, [_compute_permutation] has one outcome for every large
    enough budget, and that outcome is decided by four checks in order. *)
Lemma compute_permutation_eventually (params_len : Z) (key : list byte) (eta : Z) :
  let n_pairs := params_len / 2 in
  perm_fair H (prng_seed H key) n_pairs ->
  index_fair H key eta n_pairs ->
  exists r fuel0,
    (forall fuel, (fuel0 <= fuel)%nat ->
       _compute_permutation H fuel params_len key eta = r)
    /\ r <> Diverge
    /\ (params_len < 2 ->
       r = Raise (ValueError "Need at least 2 parameters (one pair)."))
    /\ (2 <= params_len -> n_pairs < eta ->
       r = Raise (ValueError (not_enough_pairs_msg eta n_pairs)))
    /\ (2 <= params_len -> eta <= n_pairs -> eta <= 0 ->
       r = Raise (ValueError "eta must be > 0"))
    /\ (2 <= params_len -> 0 < eta <= n_pairs ->
       (exists j, 0 <= j < eta /\ uncovered H key eta n_pairs j) ->
       exists c, 0 <= c < eta /\ r = Raise (ValueError (insufficient_coverage_msg c eta)))
    /\ (2 <= params_len -> 0 < eta <= n_pairs ->
       (forall j, 0 <= j < eta -> covered H key eta n_pairs j) ->
       exists P, r = Ok P /\ P ≡ₚ range n_pairs).
Proof.
  intros n_pairs Hpf Hif.
  destruct (decide (params_len < 2)) as [Hlen|Hlen].
  { exists (Raise (ValueError "Need at least 2 parameters (one pair).")), 0%nat.
    split; [|split; [discriminate|]].
    - intros fuel _. unfold _compute_permutation.
      rewrite bool_decide_eq_true_2 by exact Hlen. reflexivity.
    - do 4 (split; [intros; first [reflexivity | exfalso; lia]|]).
      intros; exfalso; lia. }
  destruct (decide (n_pairs < eta)) as [Hpairs|Hpairs].
  { exists (Raise (ValueError (not_enough_pairs_msg eta n_pairs))), 0%nat.
    split; [|split; [discriminate|]].
    - intros fuel _. unfold _compute_permutation.
      rewrite bool_decide_eq_false_2 by exact Hlen.
      fold n_pairs. rewrite bool_decide_eq_true_2 by exact Hpairs. reflexivity.
    - do 4 (split; [intros; first [reflexivity | exfalso; lia]|]).
      intros; exfalso; lia. }
  assert (Hn1 : 1 <= n_pairs) by (apply Z.div_le_lower_bound; lia).
  destruct (keyed_permutation_eventually H (prng_seed H key) n_pairs ltac:(lia) Hpf)
    as (P & f1 & HP & HrunP).
  assert (HinP : forall p, p ∈ P <-> 0 <= p < n_pairs).
  { intros p. rewrite HP. apply elem_of_range. }
  destruct (decide (eta <= 0)) as [Heta|Heta].
  { exists (Raise (ValueError "eta must be > 0")), f1.
    split; [|split; [discriminate|]].
    - intros fuel Hf. unfold _compute_permutation.
      rewrite bool_decide_eq_false_2 by exact Hlen.
      fold n_pairs. rewrite bool_decide_eq_false_2 by exact Hpairs.
      rewrite (HrunP fuel Hf). simpl.
      destruct P as [|p0 P'].
      + assert (H0 : 0 ∈ @nil Z) by (apply HinP; lia). inversion H0.
      + simpl. rewrite keyed_index_nonpos by exact Heta. reflexivity.
    - do 4 (split; [intros; first [reflexivity | exfalso; lia]|]).
      intros; exfalso; lia. }
  destruct (comprehension_eventually (fun fuel p => keyed_index H fuel p eta key) P)
    as (idxs & f2 & Hrunidx).
  { intros p Hp%HinP.
    destruct (keyed_index_eventually H p eta key ltac:(lia)) as (j & f0 & _ & Hj).
    - apply Hif; [lia|exact Hp].
    - exists j, f0. exact Hj. }
  pose proof (comprehension_Ok _ _ _ (Hrunidx (max f1 f2) ltac:(lia))) as Hidxs.
  assert (Hall : Forall (fun j => 0 <= j < eta) idxs).
  { apply Forall_forall. intros k Hk. apply list_elem_of_lookup in Hk as [i Hi].
    destruct (Forall2_lookup_r _ _ _ _ _ Hidxs Hi) as (p & _ & Hp).
    apply (keyed_index_Ok _ _ _ _ _ _ Hp). }
  set (c := Z.of_nat (size (list_to_set idxs : gset Z))).
  exists (if bool_decide (c < eta)
          then Raise (ValueError (insufficient_coverage_msg c eta)) else Ok P),
         (max f1 f2).
  split; [|split].
  { intros fuel Hf. unfold _compute_permutation.
    rewrite bool_decide_eq_false_2 by exact Hlen.
    fold n_pairs. rewrite bool_decide_eq_false_2 by exact Hpairs.
    rewrite (HrunP fuel ltac:(lia)). simpl.
    rewrite (Hrunidx fuel ltac:(lia)). reflexivity. }
  { case_bool_decide; discriminate. }
  split; [intros; lia|]. split; [intros; lia|]. split; [intros; lia|].
  split.
  - intros _ _ (j & Hj & Hunc).
    exists c.
    assert (Hlt : c < eta).
    { apply coverage_size; [lia|exact Hall|]. exists j. split; [exact Hj|].
      intros Hin. apply list_elem_of_lookup in Hin as [i Hi].
      destruct (Forall2_lookup_r _ _ _ _ _ Hidxs Hi) as (p & Hp & Hpj).
      apply (Hunc p (max f1 f2)); [|exact Hpj].
      apply HinP. apply list_elem_of_lookup. exists i. exact Hp. }
    split; [unfold c in *; lia|]. rewrite bool_decide_eq_true_2 by exact Hlt. reflexivity.
  - intros _ _ Hcov. exists P. split; [|exact HP].
    rewrite bool_decide_eq_false_2; [reflexivity|].
    intros Hlt. apply coverage_size in Hlt as (j & Hj & Hnin); [|lia|exact Hall].
    destruct (Hcov j Hj) as (p & fuel' & Hp & Hpj).
    apply HinP, list_elem_of_lookup in Hp as [i Hi].
    destruct (Forall2_lookup_l _ _ _ _ _ Hidxs Hi) as (j' & Hj' & Hpj').
    rewrite (keyed_index_det H _ _ _ _ _ _ _ Hpj Hpj') in Hnin.
    apply Hnin. apply list_elem_of_lookup. exists i. exact Hj'.
Qed.

Lemma keyed_index_Raise (fuel : nat) (p eta : Z) (key : list byte) (e : exn) :
  keyed_index H fuel p eta key = Raise e ->
  eta <= 0 /\ e = ValueError "eta must be > 0".
Proof.
  unfold keyed_index. case_bool_decide as Heta.
  - intros [= <-]. split; [exact Heta|reflexivity].
  - destruct (rejection_loop fuel _ _ 0) as [[r c]|e'|] eqn:E; simpl; try discriminate.
    intros _. exfalso. apply (rejection_loop_not_Raise _ _ _ _ _ E).
Qed.

Lemma keyed_index_stable (fuel fuel' : nat) (p eta : Z) (key : list byte) :
  (fuel <= fuel')%nat -> keyed_index H fuel p eta key <> Diverge ->
  keyed_index H fuel' p eta key = keyed_index H fuel p eta key.
Proof.
  intros Hle. unfold keyed_index. case_bool_decide; [reflexivity|].
  apply bind_stable.
  - apply rejection_loop_stable. exact Hle.
  - reflexivity.
Qed.

Lemma keyed_permutation_stable (fuel fuel' : nat) (seed : list byte) (n : Z) :
  (fuel <= fuel')%nat -> keyed_permutation H fuel seed n <> Diverge ->
  keyed_permutation H fuel' seed n = keyed_permutation H fuel seed n.
Proof.
  intros Hle. unfold keyed_permutation. case_bool_decide; [reflexivity|].
  apply bind_stable; [|reflexivity].
  apply for_each_stable. intros [P c] i _. apply bind_stable.
  - apply rejection_loop_stable. exact Hle.
  - reflexivity.
Qed.

Lemma compute_permutation_stable (fuel fuel' : nat) (params_len : Z) (key : list byte)
    (eta : Z) :
  (fuel <= fuel')%nat -> _compute_permutation H fuel params_len key eta <> Diverge ->
  _compute_permutation H fuel' params_len key eta
  = _compute_permutation H fuel params_len key eta.
Proof.
  intros Hle. unfold _compute_permutation.
  case_bool_decide; [reflexivity|]. case_bool_decide; [reflexivity|].
  apply bind_stable.
  - apply keyed_permutation_stable. exact Hle.
  - intros P _. apply bind_stable; [|reflexivity].
    apply comprehension_stable. intros p _. apply keyed_index_stable. exact Hle.
Qed.

Lemma compute_permutation_Ok_perm (fuel : nat) (params_len : Z) (key : list byte)
    (eta : Z) (P : list Z) :
  _compute_permutation H fuel params_len key eta = Ok P ->
  keyed_permutation H fuel (prng_seed H key) (params_len / 2) = Ok P.
Proof.
  unfold _compute_permutation.
  case_bool_decide; [discriminate|]. case_bool_decide; [discriminate|].
  intros Hrun. apply bind_Ok in Hrun as (P' & HP' & Hrun).
  apply bind_Ok in Hrun as (idxs & _ & Hrun).
  case_bool_decide; [discriminate|]. injection Hrun as ->. exact HP'.
Qed.

(** Every exception of [_compute_permutation] is one of four, whatever the
    hash and the budget. *)
Lemma compute_permutation_Raise_inv (fuel : nat) (params_len : Z) (key : list byte)
    (eta : Z) (e : exn) :
  let n_pairs := params_len / 2 in
  _compute_permutation H fuel params_len key eta = Raise e ->
  (params_len < 2 /\ e = ValueError "Need at least 2 parameters (one pair).")
  \/ (2 <= params_len /\ n_pairs < eta
      /\ e = ValueError (not_enough_pairs_msg eta n_pairs))
  \/ (2 <= params_len /\ eta <= n_pairs /\ eta <= 0
      /\ e = ValueError "eta must be > 0")
  \/ (2 <= params_len /\ 0 < eta <= n_pairs
      /\ exists c, 0 <= c < eta /\ e = ValueError (insufficient_coverage_msg c eta)
           /\ exists j, 0 <= j < eta /\ uncovered H key eta n_pairs j).
Proof.
  intros n_pairs. unfold _compute_permutation. fold n_pairs.
  case_bool_decide as Hlen; [intros [= <-]; left; split; [exact Hlen|reflexivity]|].
  case_bool_decide as Hpairs;
    [intros [= <-]; right; left; split; [lia|split; [exact Hpairs|reflexivity]]|].
  assert (Hn1 : 1 <= n_pairs) by (apply Z.div_le_lower_bound; lia).
  destruct (keyed_permutation H fuel (prng_seed H key) n_pairs) as [P|e'|] eqn:HP;
    cbn [mbind result_bind]; [| |discriminate].
  2: { intros _. exfalso.
       apply (keyed_permutation_not_Raise H fuel (prng_seed H key) n_pairs e'
                ltac:(lia) HP). }
  apply keyed_permutation_Ok in HP as [_ HP].
  assert (HinP : forall p, p ∈ P <-> 0 <= p < n_pairs).
  { intros p. rewrite HP. apply elem_of_range. }
  destruct (comprehension (fun p => keyed_index H fuel p eta key) P)
    as [idxs|e'|] eqn:Hidx; cbn [mbind result_bind]; [| |discriminate].
  - case_bool_decide as Hcov; [|discriminate]. intros [= <-].
    apply comprehension_Ok in Hidx.
    assert (Hall : Forall (fun j => 0 <= j < eta) idxs).
    { apply Forall_forall. intros k Hk. apply list_elem_of_lookup in Hk as [i Hi].
      destruct (Forall2_lookup_r _ _ _ _ _ Hidx Hi) as (p & _ & Hp).
      apply (keyed_index_Ok _ _ _ _ _ _ Hp). }
    assert (Heta : 0 < eta).
    { assert (H0 : 0 ∈ P) by (apply HinP; lia).
      apply list_elem_of_lookup in H0 as [i Hi].
      destruct (Forall2_lookup_l _ _ _ _ _ Hidx Hi) as (j & _ & Hj).
      apply (keyed_index_Ok _ _ _ _ _ _ Hj). }
    right. right. right. split; [lia|]. split; [lia|].
    exists (Z.of_nat (size (list_to_set idxs : gset Z))).
    split; [lia|]. split; [reflexivity|].
    apply coverage_size in Hcov as (j & Hj & Hnin); [|lia|exact Hall].
    exists j. split; [exact Hj|]. intros p fuel' Hp Hpj. apply Hnin.
    apply HinP, list_elem_of_lookup in Hp as [i Hi].
    destruct (Forall2_lookup_l _ _ _ _ _ Hidx Hi) as (j' & Hj' & Hpj').
    rewrite (keyed_index_det H _ _ _ _ _ _ _ Hpj Hpj').
    apply list_elem_of_lookup. exists i. exact Hj'.
  - intros [= <-]. apply comprehension_Raise_inv in Hidx as (p & _ & Hp).
    apply keyed_index_Raise in Hp as [Heta ->].
    right. right. left. split; [lia|]. split; [lia|]. split; [exact Heta|reflexivity].
Qed.

(** C5 (as amended).  [_compute_permutation(params_len, key, eta)] raises in
    exactly four cases, tried in this order.  The first two, [params_len < 2]
    and [n_pairs < eta], raise before any draw, for every hash.  The other
    two follow the rejection loops and raise once these have ended, which
    they do when accepted draws keep coming up ([perm_fair], [index_fair]):
    [eta <= 0] (the guard of [keyed_index], reached on the first pair), and
    some bit position of [0, eta) being the keyed index of no pair.  In every
    other case it returns, once the loops have ended, the keyed permutation
    of [0, n_pairs).  Conversely every exception it raises is one of these
    four, and a returned list means that none of the four conditions holds.
    The outcome does not depend on the number of draws allowed, and an
    exception it raises is raised unchanged by [prepare_parameters] (for
    [zeta >= 0]) and by [build_watermark_graph] on any list of that length. *)
Theorem C5_compute_permutation_failures (params_len : Z) (key : list byte) (eta : Z) :
  let n_pairs := params_len / 2 in
  let seed := prng_seed H key in
  (forall fuel, params_len < 2 ->
     _compute_permutation H fuel params_len key eta
     = Raise (ValueError "Need at least 2 parameters (one pair)."))
  /\ (forall fuel, 2 <= params_len -> n_pairs < eta ->
     _compute_permutation H fuel params_len key eta
     = Raise (ValueError (not_enough_pairs_msg eta n_pairs)))
  /\ (2 <= params_len -> eta <= n_pairs -> eta <= 0 ->
      perm_fair H seed n_pairs ->
      exists fuel0, forall fuel, (fuel0 <= fuel)%nat ->
        _compute_permutation H fuel params_len key eta
        = Raise (ValueError "eta must be > 0"))
  /\ (2 <= params_len -> 0 < eta <= n_pairs ->
      perm_fair H seed n_pairs -> index_fair H key eta n_pairs ->
      (exists j, 0 <= j < eta /\ uncovered H key eta n_pairs j) ->
      exists c fuel0, 0 <= c < eta /\ forall fuel, (fuel0 <= fuel)%nat ->
        _compute_permutation H fuel params_len key eta
        = Raise (ValueError (insufficient_coverage_msg c eta)))
  /\ (2 <= params_len -> 0 < eta <= n_pairs ->
      perm_fair H seed n_pairs -> index_fair H key eta n_pairs ->
      (forall j, 0 <= j < eta -> covered H key eta n_pairs j) ->
      exists P fuel0, P ≡ₚ range n_pairs /\ forall fuel, (fuel0 <= fuel)%nat ->
        keyed_permutation H fuel seed n_pairs = Ok P
        /\ _compute_permutation H fuel params_len key eta = Ok P)
  /\ (forall fuel e, _compute_permutation H fuel params_len key eta = Raise e ->
      (params_len < 2 /\ e = ValueError "Need at least 2 parameters (one pair).")
      \/ (2 <= params_len /\ n_pairs < eta
          /\ e = ValueError (not_enough_pairs_msg eta n_pairs))
      \/ (2 <= params_len /\ eta <= n_pairs /\ eta <= 0
          /\ e = ValueError "eta must be > 0")
      \/ (2 <= params_len /\ 0 < eta <= n_pairs
          /\ exists c, 0 <= c < eta /\ e = ValueError (insufficient_coverage_msg c eta)
               /\ exists j, 0 <= j < eta /\ uncovered H key eta n_pairs j))
  /\ (forall fuel P, _compute_permutation H fuel params_len key eta = Ok P ->
      2 <= params_len /\ 0 < eta <= n_pairs
      /\ keyed_permutation H fuel seed n_pairs = Ok P
      /\ P ≡ₚ range n_pairs
      /\ (forall j, 0 <= j < eta -> covered H key eta n_pairs j))
  /\ (forall fuel fuel', (fuel <= fuel')%nat ->
      _compute_permutation H fuel params_len key eta <> Diverge ->
      _compute_permutation H fuel' params_len key eta
      = _compute_permutation H fuel params_len key eta)
  /\ (forall fuel e, _compute_permutation H fuel params_len key eta = Raise e ->
      forall params zeta, Z.of_nat (length params) = params_len ->
        (0 <= zeta -> prepare_parameters H fuel params key zeta eta = Raise e)
        /\ build_watermark_graph H fuel params key eta = Raise e).
Proof.
  intros n_pairs seed.
  split.
  { intros fuel Hlen. unfold _compute_permutation.
    rewrite bool_decide_eq_true_2 by exact Hlen. reflexivity. }
  split.
  { intros fuel Hlen Hpairs. unfold _compute_permutation.
    rewrite bool_decide_eq_false_2 by lia. fold n_pairs.
    rewrite bool_decide_eq_true_2 by exact Hpairs. reflexivity. }
  split.
  { intros Hlen Hpairs Heta Hpf.
    destruct (compute_permutation_eventually params_len key eta Hpf)
      as (r & fuel0 & Hrun & _ & _ & _ & H3 & _).
    { intros Hpos. exfalso. lia. }
    exists fuel0. intros fuel Hf. rewrite (Hrun fuel Hf). apply H3; assumption. }
  split.
  { intros Hlen Heta Hpf Hif Hunc.
    destruct (compute_permutation_eventually params_len key eta Hpf Hif)
      as (r & fuel0 & Hrun & _ & _ & _ & _ & H4 & _).
    destruct (H4 Hlen Heta Hunc) as (c & Hc & Hr).
    exists c, fuel0. split; [exact Hc|]. intros fuel Hf.
    rewrite (Hrun fuel Hf). exact Hr. }
  split.
  { intros Hlen Heta Hpf Hif Hcov.
    destruct (compute_permutation_eventually params_len key eta Hpf Hif)
      as (r & fuel0 & Hrun & _ & _ & _ & _ & _ & H5).
    destruct (H5 Hlen Heta Hcov) as (P & Hr & HP).
    exists P, fuel0. split; [exact HP|]. intros fuel Hf.
    specialize (Hrun fuel Hf). rewrite Hr in Hrun.
    split; [apply (compute_permutation_Ok_perm fuel params_len key eta P Hrun)|exact Hrun]. }
  split.
  { intros fuel e. apply compute_permutation_Raise_inv. }
  split.
  { intros fuel P HP.
    destruct (compute_permutation_Ok H _ _ _ _ _ HP) as (Hlen & Heta & Hperm & _ & Hcov).
    split; [exact Hlen|]. split; [exact Heta|].
    split; [apply (compute_permutation_Ok_perm fuel params_len key eta P HP)|].
    split; [exact Hperm|].
    intros j Hj. destruct (Hcov j Hj) as (p & Hp & Hpj).
    exists p, fuel. split; [|exact Hpj].
    rewrite Hperm in Hp. apply elem_of_range in Hp. exact Hp. }
  split.
  { intros fuel fuel'. apply compute_permutation_stable. }
  intros fuel e Hrun params zeta <-.
  apply compute_permutation_Raise_paths. exact Hrun.
Qed.

End ComputePermutation.

(* ===================================================================== *)
(** * Loops that assign list positions *)
(* ===================================================================== *)

(** A loop whose state is described by the elements handled so far. *)
Lemma for_each_prefix {A S : Type} (Inv : list A -> S -> Prop)
    (body : S -> A -> result S) (xs : list A) :
  (forall pre x s, x ∈ xs -> Inv pre s ->
     exists s', body s x = Ok s' /\ Inv (pre ++ [x]) s') ->
  forall st, Inv [] st -> exists st', for_each body xs st = Ok st' /\ Inv xs st'.
Proof.
  intros Hb st Hst.
  assert (Hgen : forall ys pre s, (forall y, y ∈ ys -> y ∈ xs) -> Inv pre s ->
            exists s', for_each body ys s = Ok s' /\ Inv (pre ++ ys) s').
  { induction ys as [|y ys IH]; intros pre s Hsub Hs; simpl.
    - exists s. rewrite app_nil_r. auto.
    - destruct (Hb pre y s) as (s1 & H1 & Hs1); [apply Hsub; left|exact Hs|].
      rewrite H1. simpl.
      destruct (IH (pre ++ [y]) s1) as (s' & H' & Hs'); [|exact Hs1|].
      { intros z Hz. apply Hsub. right. exact Hz. }
      exists s'. split; [exact H'|]. rewrite <- app_assoc in Hs'. exact Hs'. }
  apply (Hgen xs [] st); auto.
Qed.

(** A loop [for p in P: g[p] = v(p)] over in-range positions. *)
Lemma for_each_assign {S : Type} (v : Z -> S) (n : Z) (body : list S -> Z -> result (list S))
    (P : list Z) :
  (forall g p, p ∈ P -> Z.of_nat (length g) = n ->
     body g p = Ok (<[Z.to_nat p := v p]> g)) ->
  (forall p, p ∈ P -> 0 <= p < n) ->
  forall g, Z.of_nat (length g) = n ->
  exists g', for_each body P g = Ok g'
    /\ Z.of_nat (length g') = n
    /\ (forall p, p ∈ P -> g' !! Z.to_nat p = Some (v p))
    /\ (forall k, (forall p, p ∈ P -> Z.to_nat p <> k) -> g' !! k = g !! k).
Proof.
  induction P as [|p P IH]; intros Hb Hin g Hg; simpl.
  - exists g. split; [reflexivity|]. split; [exact Hg|]. split; [|reflexivity].
    intros p Hp. inversion Hp.
  - rewrite Hb by (left || exact Hg). simpl.
    destruct (IH (fun g q Hq => Hb g q (list_elem_of_further _ _ _ Hq))
                 (fun q Hq => Hin q (list_elem_of_further _ _ _ Hq))
                 (<[Z.to_nat p := v p]> g)) as (g' & Hrun & Hlen & Hset & Hother).
    { rewrite length_insert. exact Hg. }
    exists g'. split; [exact Hrun|]. split; [exact Hlen|]. split.
    + intros q Hq. destruct (decide (q ∈ P)) as [HqP|HqP]; [apply Hset; exact HqP|].
      apply elem_of_cons in Hq as [->|Hq]; [|contradiction].
      rewrite Hother.
      * apply list_lookup_insert_eq. pose proof (Hin p ltac:(left)). lia.
      * intros q Hq Heq. apply HqP.
        assert (q = p); [|subst; exact Hq].
        pose proof (Hin q ltac:(right; exact Hq)). pose proof (Hin p ltac:(left)). lia.
    + intros k Hk. rewrite Hother.
      * apply list_lookup_insert_ne. apply Hk. left.
      * intros q Hq. apply Hk. right. exact Hq.
Qed.

(* ===================================================================== *)
(** * The code builder (C6) *)
(* ===================================================================== *)

Section CodeBuilder.

Variable H : list byte -> list byte -> list byte.
Variable fuel : nat.
Variable gamma : list Z.
Variable eta : Z.
Variable key : list byte.

Lemma count_votes_snoc (pre : list Z) (p j : Z) (b : bool) :
  count_votes H fuel gamma eta key (pre ++ [p]) j b
  = count_votes H fuel gamma eta key pre j b
    + (if bool_decide (vote H fuel gamma eta key p = Some (j, b)) then 1 else 0).
Proof.
  unfold count_votes. rewrite filter_app, length_app.
  case_bool_decide as Hv.
  - rewrite filter_cons_True by exact Hv. simpl. lia.
  - rewrite filter_cons_False by exact Hv. simpl. lia.
Qed.

Lemma code_builder_spec (P : list Z) :
  (forall p, p ∈ P -> exists j, keyed_index H fuel p eta key = Ok j) ->
  (forall p, p ∈ P -> exists g, getitem gamma p = Ok g) ->
  exists zeta2,
    code_builder H fuel gamma eta key P = Ok zeta2
    /\ length zeta2 = Z.to_nat eta
    /\ forall j, 0 <= j < eta ->
         zeta2 !! Z.to_nat j
         = Some (resolve_bit H key j (count_votes H fuel gamma eta key P j true)
                               (count_votes H fuel gamma eta key P j false)).
Proof.
  intros Hidx Hgam. unfold code_builder.
  set (tally := fun pre (st : list Z * list Z) =>
     length st.1 = Z.to_nat eta /\ length st.2 = Z.to_nat eta /\
     forall j, 0 <= j < eta ->
       st.1 !! Z.to_nat j = Some (count_votes H fuel gamma eta key pre j true) /\
       st.2 !! Z.to_nat j = Some (count_votes H fuel gamma eta key pre j false)).
  destruct (for_each_prefix tally
    (fun '(ones, zeros) p =>
       j ← keyed_index H fuel p eta key;
       g ← getitem gamma p;
       if bool_decide (g = 1) then
         o ← getitem ones j; ones' ← setitem ones j (o + 1); Ok (ones', zeros)
       else
         z ← getitem zeros j; zeros' ← setitem zeros j (z + 1); Ok (ones, zeros'))
    P) with (st := (replicate (Z.to_nat eta) 0, replicate (Z.to_nat eta) 0))
    as ([ones zeros] & Hrun & Hlo & Hlz & Htally).
  - intros pre p [ones zeros] Hp (Hlo & Hlz & Hcnt). simpl in *.
    destruct (Hidx p Hp) as [j Hj]. destruct (Hgam p Hp) as [g Hg].
    pose proof (keyed_index_Ok H _ _ _ _ _ Hj) as [Heta Hjr].
    rewrite Hj, Hg. simpl.
    destruct (Hcnt j Hjr) as [Ho Hz].
    assert (Hvote : vote H fuel gamma eta key p = Some (j, bool_decide (g = 1))).
    { unfold vote. rewrite Hj, Hg. reflexivity. }
    case_bool_decide as Hg1.
    + rewrite (getitem_in ones j _ ltac:(lia) Ho). simpl.
      rewrite setitem_in by lia. simpl. eexists. split; [reflexivity|].
      unfold tally. simpl.
      split; [rewrite length_insert; exact Hlo|]. split; [exact Hlz|].
      intros k Hk. simpl. rewrite !count_votes_snoc, Hvote.
      destruct (Hcnt k Hk) as [Hok Hzk].
      destruct (decide (k = j)) as [->|Hkj].
      * rewrite list_lookup_insert_eq by lia.
        rewrite bool_decide_eq_true_2 by reflexivity.
        rewrite bool_decide_eq_false_2 by (intros [=]).
        rewrite Hzk, Z.add_0_r. auto.
      * rewrite list_lookup_insert_ne by lia.
        rewrite bool_decide_eq_false_2 by (intros [=]; congruence).
        rewrite bool_decide_eq_false_2 by (intros [=]).
        rewrite Hok, Hzk, !Z.add_0_r. auto.
    + rewrite (getitem_in zeros j _ ltac:(lia) Hz). simpl.
      rewrite setitem_in by lia. simpl. eexists. split; [reflexivity|].
      unfold tally. simpl.
      split; [exact Hlo|]. split; [rewrite length_insert; exact Hlz|].
      intros k Hk. simpl. rewrite !count_votes_snoc, Hvote.
      destruct (Hcnt k Hk) as [Hok Hzk].
      destruct (decide (k = j)) as [->|Hkj].
      * rewrite list_lookup_insert_eq by lia.
        rewrite bool_decide_eq_false_2 by (intros [=]).
        rewrite bool_decide_eq_true_2 by reflexivity.
        rewrite Hok, Z.add_0_r. auto.
      * rewrite list_lookup_insert_ne by lia.
        rewrite bool_decide_eq_false_2 by (intros [=]).
        rewrite bool_decide_eq_false_2 by (intros [=]; congruence).
        rewrite Hok, Hzk, !Z.add_0_r. auto.
  - split; [apply length_replicate|]. split; [apply length_replicate|].
    intros j Hj. simpl. rewrite !lookup_replicate_2 by lia. auto.
  - rewrite Hrun. simpl in *.
    destruct (for_each_assign
      (fun j => resolve_bit H key j (count_votes H fuel gamma eta key P j true)
                              (count_votes H fuel gamma eta key P j false))
      (Z.of_nat (Z.to_nat eta))
      (fun zeta2 j =>
         o ← getitem ones j;
         z ← getitem zeros j;
         if bool_decide (o > 0 /\ z = 0) then setitem zeta2 j 1
         else if bool_decide (z > 0 /\ o = 0) then setitem zeta2 j 0
         else setitem zeta2 j (keyed_bit H key (chaos_msg j o z)))
      (range eta)) with (g := replicate (Z.to_nat eta) 0)
      as (zeta2 & Hrun2 & Hlen2 & Hset & _).
    + intros g j Hj%elem_of_range Hg.
      destruct (Htally j Hj) as [Ho Hz].
      rewrite (getitem_in ones j _ ltac:(lia) Ho). simpl.
      rewrite (getitem_in zeros j _ ltac:(lia) Hz). simpl.
      unfold resolve_bit. repeat case_bool_decide; apply setitem_in; lia.
    + intros j Hj%elem_of_range. lia.
    + rewrite length_replicate. reflexivity.
    + exists zeta2. split; [exact Hrun2|]. split; [lia|].
      intros j Hj. apply Hset. apply elem_of_range. exact Hj.
Qed.

(** C6.  When every pair of [P] has a keyed index and an entry in [gamma],
    [code_builder] returns [eta] bits, and for every position [j] in
    [0, eta), with [o] one-votes and [z] zero-votes for [j]: the bit is 1 if
    [o > 0] and [z = 0]; it is 0 if [z > 0] and [o = 0]; and in every other
    case (both kinds of votes in any proportion, or no vote) it is
    [keyed_bit(key, "KBit|v1|chaos|j=<j>|o=<o>|z=<z>")]. *)
Theorem C6_code_builder_votes (P : list Z) :
  (forall p, p ∈ P -> exists j, keyed_index H fuel p eta key = Ok j) ->
  (forall p, p ∈ P -> exists g, getitem gamma p = Ok g) ->
  exists zeta2,
    code_builder H fuel gamma eta key P = Ok zeta2
    /\ length zeta2 = Z.to_nat eta
    /\ forall j, 0 <= j < eta ->
         let o := count_votes H fuel gamma eta key P j true in
         let z := count_votes H fuel gamma eta key P j false in
         (0 < o -> z = 0 -> zeta2 !! Z.to_nat j = Some 1)
         /\ (0 < z -> o = 0 -> zeta2 !! Z.to_nat j = Some 0)
         /\ (~ (0 < o /\ z = 0) -> ~ (0 < z /\ o = 0) ->
             zeta2 !! Z.to_nat j = Some (keyed_bit H key (chaos_msg j o z))).
Proof.
  intros Hidx Hgam.
  destruct (code_builder_spec P Hidx Hgam) as (zeta2 & Hrun & Hlen & Hbits).
  exists zeta2. split; [exact Hrun|]. split; [exact Hlen|].
  intros j Hj o z. rewrite (Hbits j Hj). fold o z. unfold resolve_bit.
  split; [|split].
  - intros Ho Hz. rewrite bool_decide_eq_true_2 by lia. reflexivity.
  - intros Hz Ho. rewrite bool_decide_eq_false_2 by lia.
    rewrite bool_decide_eq_true_2 by lia. reflexivity.
  - intros H1 H2. rewrite bool_decide_eq_false_2 by lia.
    rewrite bool_decide_eq_false_2 by lia. reflexivity.
Qed.

End CodeBuilder.

(* ===================================================================== *)
(** * Digits of an integer *)
(* ===================================================================== *)

Lemma int_to_digits_loop_acc (k : nat) (n base : Z) (digits : list Z) :
  int_to_digits_loop k n base digits = digits ++ int_to_digits_loop k n base [].
Proof.
  revert n digits. induction k as [|k IH]; intros n digits; simpl.
  - case_bool_decide; rewrite app_nil_r; reflexivity.
  - case_bool_decide; [|rewrite app_nil_r; reflexivity].
    rewrite (IH _ (digits ++ [n mod base])), (IH _ [n mod base]).
    rewrite <- app_assoc. reflexivity.
Qed.

(** The digits the loop produces, least significant first: they are digits
    of [base], they denote [n], and their number is the number of digits of
    [n]. *)
Lemma int_to_digits_loop_spec (base : Z) (k : nat) (n : Z) :
  2 <= base -> 0 <= n < 2 ^ Z.of_nat k ->
  let ds := int_to_digits_loop k n base [] in
  Forall (fun d => 0 <= d < base) ds
  /\ for_each (fun acc d =>
        if bool_decide (d < 0 \/ d >= base)
        then Raise (ValueError ("digit " +:+ str d +:+ " out of range for base " +:+ str base))
        else Ok (acc * base + d)) (rev ds) 0 = Ok n
  /\ n < base ^ Z.of_nat (length ds)
  /\ (0 < n -> base ^ (Z.of_nat (length ds) - 1) <= n)
  /\ (n = 0 -> ds = []).
Proof.
  intros Hbase. revert n. induction k as [|k IH]; intros n Hn ds; subst ds; simpl.
  - change (2 ^ Z.of_nat 0) with 1 in Hn. assert (n = 0) as -> by lia.
    rewrite bool_decide_eq_false_2 by lia. simpl.
    repeat split; try constructor; try lia.
  - case_bool_decide as Hpos; cycle 1.
    { assert (n = 0) as -> by lia. simpl. repeat split; try constructor; try lia. }
    rewrite int_to_digits_loop_acc. simpl.
    assert (Hdiv : 0 <= n / base < 2 ^ Z.of_nat k).
    { split; [apply Z.div_pos; lia|].
      apply Z.div_lt_upper_bound; [lia|].
      rewrite Nat2Z.inj_succ, Z.pow_succ_r in Hn by lia.
      assert (0 < 2 ^ Z.of_nat k) by (apply Z.pow_pos_nonneg; lia). nia. }
    destruct (IH (n / base) Hdiv) as (Hall & Hval & Hub & Hlb & Hzero).
    pose proof (Z.mod_pos_bound n base ltac:(lia)) as Hmod.
    pose proof (Z.div_mod n base ltac:(lia)) as Hdm.
    set (ds := int_to_digits_loop k (n / base) base []) in *.
    split; [constructor; [lia|exact Hall]|].
    split.
    { rewrite for_each_app, Hval. simpl.
      rewrite bool_decide_eq_false_2 by lia. simpl. f_equal. lia. }
    rewrite Nat2Z.inj_succ, Z.pow_succ_r by lia.
    split; [nia|]. split; [|lia].
    intros _. replace (Z.succ (Z.of_nat (length ds)) - 1) with (Z.of_nat (length ds)) by lia.
    destruct (decide (n / base = 0)) as [Hz|Hnz].
    + rewrite (Hzero Hz). simpl. lia.
    + specialize (Hlb ltac:(lia)).
      assert (0 < length ds)%nat.
      { destruct ds; [|simpl; lia]. simpl in Hub. lia. }
      replace (Z.of_nat (length ds)) with (Z.succ (Z.of_nat (length ds) - 1)) by lia.
      rewrite Z.pow_succ_r by lia. nia.
Qed.

Lemma int_to_digits_spec (n base : Z) :
  2 <= base -> 0 <= n ->
  exists ds,
    int_to_digits n base = Ok ds
    /\ ds <> []
    /\ Forall (fun d => 0 <= d < base) ds
    /\ digits_to_int ds base = Ok n
    /\ n < base ^ Z.of_nat (length ds)
    /\ (0 < n -> base ^ (Z.of_nat (length ds) - 1) <= n).
Proof.
  intros Hbase Hn. unfold int_to_digits.
  rewrite bool_decide_eq_false_2 by lia. rewrite bool_decide_eq_false_2 by lia.
  case_bool_decide as Hz.
  - subst n. exists [0]. split; [reflexivity|]. split; [discriminate|].
    split; [repeat constructor; lia|]. split; [|simpl; lia].
    unfold digits_to_int. rewrite bool_decide_eq_false_2 by lia.
    rewrite bool_decide_eq_false_2 by discriminate. simpl.
    rewrite bool_decide_eq_false_2 by lia. reflexivity.
  - eexists. split; [reflexivity|].
    destruct (int_to_digits_loop_spec base (S (Z.to_nat (Z.log2 n))) n Hbase)
      as (Hall & Hval & Hub & Hlb & _).
    { split; [lia|]. rewrite Nat2Z.inj_succ, Z2Nat.id by apply Z.log2_nonneg.
      apply Z.log2_spec. lia. }
    set (ds := int_to_digits_loop (S (Z.to_nat (Z.log2 n))) n base []) in *.
    assert (Hne : rev ds <> []).
    { intros Hnil. apply (f_equal (@length Z)) in Hnil. rewrite length_rev in Hnil.
      destruct ds; [|discriminate]. simpl in Hub. lia. }
    split; [exact Hne|]. split; [|split; [|split]].
    + apply Forall_rev. exact Hall.
    + unfold digits_to_int. rewrite bool_decide_eq_false_2 by lia.
      rewrite bool_decide_eq_false_2 by exact Hne. exact Hval.
    + rewrite length_rev. exact Hub.
    + rewrite length_rev. exact Hlb.
Qed.

(** Leading zeros do not change the value. *)
Lemma digits_to_int_zeros (k : nat) (ds : list Z) (base n : Z) :
  digits_to_int ds base = Ok n -> digits_to_int (replicate k 0 ++ ds) base = Ok n.
Proof.
  unfold digits_to_int. case_bool_decide as Hb; [discriminate|].
  case_bool_decide as Hne; [discriminate|]. intros Hval.
  rewrite bool_decide_eq_false_2.
  - rewrite for_each_app.
    assert (Hz : for_each (fun acc d =>
        if bool_decide (d < 0 \/ d >= base)
        then Raise (ValueError ("digit " +:+ str d +:+ " out of range for base " +:+ str base))
        else Ok (acc * base + d)) (replicate k 0) 0 = Ok 0).
    { induction k as [|k IH]; simpl; [reflexivity|].
      rewrite bool_decide_eq_false_2 by lia. simpl. exact IH. }
    rewrite Hz. simpl. exact Hval.
  - destruct ds; [contradiction|]. intros Hnil.
    apply (f_equal (@length Z)) in Hnil. rewrite length_app in Hnil. simpl in Hnil. lia.
Qed.

Lemma bits_from_int_spec (zeta eta : Z) :
  0 < eta -> 0 <= zeta < 2 ^ eta ->
  exists zeta2,
    bits_from_int zeta eta = Ok zeta2
    /\ Z.of_nat (length zeta2) = eta
    /\ Forall (fun b => b = 0 \/ b = 1) zeta2
    /\ digits_to_int zeta2 2 = Ok zeta.
Proof.
  intros Heta Hz. unfold bits_from_int. rewrite bool_decide_eq_false_2 by lia.
  destruct (int_to_digits_spec zeta 2) as (bits & Hbits & Hne & Hall & Hval & Hub & Hlb);
    [lia|lia|].
  assert (Hlen : Z.of_nat (length bits) <= eta).
  { destruct (decide (zeta = 0)) as [->|Hnz].
    - vm_compute in Hbits. injection Hbits as <-. simpl. lia.
    - specialize (Hlb ltac:(lia)).
      destruct (Z.le_gt_cases (Z.of_nat (length bits)) eta) as [Hle|Hgt]; [exact Hle|].
      assert (2 ^ eta <= 2 ^ (Z.of_nat (length bits) - 1)) by (apply Z.pow_le_mono_r; lia).
      lia. }
  rewrite Hbits. simpl.
  rewrite bool_decide_eq_false_2 by lia.
  eexists. split; [reflexivity|]. split; [|split].
  - rewrite length_app, length_replicate. lia.
  - apply Forall_app. split.
    + apply Forall_replicate. left. reflexivity.
    + eapply Forall_impl; [exact Hall|]. simpl. intros b Hb. lia.
  - apply digits_to_int_zeros. exact Hval.
Qed.

Lemma bits_from_int_too_large (zeta eta : Z) :
  0 < eta -> 2 ^ eta <= zeta ->
  bits_from_int zeta eta = Raise (ValueError "eta too small to represent n").
Proof.
  intros Heta Hz. unfold bits_from_int. rewrite bool_decide_eq_false_2 by lia.
  assert (0 < 2 ^ eta) by (apply Z.pow_pos_nonneg; lia).
  destruct (int_to_digits_spec zeta 2) as (bits & -> & Hne & Hall & Hval & Hub & Hlb);
    [lia|lia|]. simpl.
  rewrite bool_decide_eq_true_2; [reflexivity|].
  destruct (Z.le_gt_cases (Z.of_nat (length bits)) eta) as [Hle|Hgt]; [|lia].
  assert (2 ^ Z.of_nat (length bits) <= 2 ^ eta) by (apply Z.pow_le_mono_r; lia).
  lia.
Qed.

(* ===================================================================== *)
(** * Loops that rewrite pairs of a parameter list *)
(* ===================================================================== *)

(** A loop [for p in P: (I[2p], I[2p+1]) = g(p, I[2p], I[2p+1])] over
    distinct pair indices. *)
Lemma for_each_pairs (g : Z -> Z -> Z -> Z * Z) (n : Z)
    (body : list Z -> Z -> result (list Z)) (P : list Z) :
  (forall I p x y, p ∈ P ->
     I !! Z.to_nat (2 * p) = Some x -> I !! Z.to_nat (2 * p + 1) = Some y ->
     body I p = Ok (<[Z.to_nat (2 * p + 1) := (g p x y).2]>
                      (<[Z.to_nat (2 * p) := (g p x y).1]> I))) ->
  NoDup P -> (forall p, p ∈ P -> 0 <= p < n) ->
  forall I, 2 * n <= Z.of_nat (length I) ->
  exists I', for_each body P I = Ok I'
    /\ length I' = length I
    /\ (forall p x y, p ∈ P ->
          I !! Z.to_nat (2 * p) = Some x -> I !! Z.to_nat (2 * p + 1) = Some y ->
          I' !! Z.to_nat (2 * p) = Some (g p x y).1
          /\ I' !! Z.to_nat (2 * p + 1) = Some (g p x y).2)
    /\ (forall k, (forall p, p ∈ P -> k <> Z.to_nat (2 * p) /\ k <> Z.to_nat (2 * p + 1)) ->
          I' !! k = I !! k).
Proof.
  induction P as [|p P IH]; intros Hbody Hnd Hin I HI; simpl.
  - exists I. split; [reflexivity|]. split; [reflexivity|]. split; [|reflexivity].
    intros p x y Hp. inversion Hp.
  - apply NoDup_cons in Hnd as [HpP Hnd].
    pose proof (Hin p ltac:(left)) as Hp.
    destruct (lookup_lt_is_Some_2 I (Z.to_nat (2 * p))) as [x Hx]; [lia|].
    destruct (lookup_lt_is_Some_2 I (Z.to_nat (2 * p + 1))) as [y Hy]; [lia|].
    rewrite (Hbody I p x y ltac:(left) Hx Hy). simpl.
    set (I1 := <[Z.to_nat (2 * p + 1) := (g p x y).2]>
                 (<[Z.to_nat (2 * p) := (g p x y).1]> I)).
    assert (HI1 : length I1 = length I) by (unfold I1; rewrite !length_insert; reflexivity).
    assert (Hfar : forall k, k <> Z.to_nat (2 * p) -> k <> Z.to_nat (2 * p + 1) ->
              I1 !! k = I !! k).
    { intros k H1 H2. unfold I1. rewrite !list_lookup_insert_ne by lia. reflexivity. }
    destruct (IH (fun I q x y Hq => Hbody I q x y (list_elem_of_further _ _ _ Hq)) Hnd
                 (fun q Hq => Hin q (list_elem_of_further _ _ _ Hq)) I1)
      as (I' & Hrun & Hlen & Hset & Hother); [lia|].
    assert (Hneq : forall q, q ∈ P ->
              Z.to_nat (2 * p) <> Z.to_nat (2 * q) /\ Z.to_nat (2 * p) <> Z.to_nat (2 * q + 1)
              /\ Z.to_nat (2 * p + 1) <> Z.to_nat (2 * q)
              /\ Z.to_nat (2 * p + 1) <> Z.to_nat (2 * q + 1)).
    { intros q Hq. assert (q <> p) by (intros ->; contradiction).
      pose proof (Hin q ltac:(right; exact Hq)). lia. }
    exists I'. split; [exact Hrun|]. split; [lia|]. split.
    + intros q x' y' Hq Hx' Hy'. apply elem_of_cons in Hq as [->|Hq].
      * rewrite Hx in Hx'. rewrite Hy in Hy'. injection Hx' as <-. injection Hy' as <-.
        rewrite !Hother by (intros q Hq; specialize (Hneq q Hq); lia).
        unfold I1. split.
        -- rewrite list_lookup_insert_ne by lia.
           apply list_lookup_insert_eq. lia.
        -- apply list_lookup_insert_eq. rewrite length_insert. lia.
      * apply Hset; [exact Hq| |].
        -- rewrite Hfar; [exact Hx'| |]; specialize (Hneq q Hq); lia.
        -- rewrite Hfar; [exact Hy'| |]; specialize (Hneq q Hq); lia.
    + intros k Hk. rewrite Hother.
      * apply Hfar; apply (Hk p); left.
      * intros q Hq. apply Hk. right. exact Hq.
Qed.

(** Every position below [2 n] is a position of a pair of [0, n). *)
Lemma position_of_pair (n : Z) (k : nat) :
  Z.of_nat k < 2 * n ->
  exists p, 0 <= p < n /\ (k = Z.to_nat (2 * p) \/ k = Z.to_nat (2 * p + 1)).
Proof.
  intros Hk. exists (Z.of_nat k / 2).
  pose proof (Z.div_mod (Z.of_nat k) 2 ltac:(lia)).
  pose proof (Z.mod_pos_bound (Z.of_nat k) 2 ltac:(lia)).
  split; [split; [apply Z.div_pos; lia|apply Z.div_lt_upper_bound; lia]|].
  lia.
Qed.

(* ===================================================================== *)
(** * Embedding and restoring (C7, and the restoring half of C1) *)
(* ===================================================================== *)

Lemma pairs_fit (len : Z) : 0 <= len -> 0 <= len / 2 /\ 2 * (len / 2) <= len.
Proof.
  intros Hlen. pose proof (Z.div_mod len 2 ltac:(lia)).
  pose proof (Z.mod_pos_bound len 2 ltac:(lia)).
  split; [apply Z.div_pos; lia|lia].
Qed.

Lemma restore_params_from_pairs_spec (n : Z) (P I : list Z) :
  NoDup P -> (forall p, p ∈ P -> 0 <= p < n) -> 2 * n <= Z.of_nat (length I) ->
  exists I', restore_params_from_pairs I P = Ok I'
    /\ length I' = length I
    /\ (forall p x y, p ∈ P ->
          I !! Z.to_nat (2 * p) = Some x -> I !! Z.to_nat (2 * p + 1) = Some y ->
          I' !! Z.to_nat (2 * p) = Some (extract_bit_and_restore x y).2.1
          /\ I' !! Z.to_nat (2 * p + 1) = Some (extract_bit_and_restore x y).2.2)
    /\ (forall k, (forall p, p ∈ P -> k <> Z.to_nat (2 * p) /\ k <> Z.to_nat (2 * p + 1)) ->
          I' !! k = I !! k).
Proof.
  intros Hnd Hin HI. unfold restore_params_from_pairs.
  apply (for_each_pairs (fun _ x y => (extract_bit_and_restore x y).2) n); auto.
  intros J p x y Hp Hx Hy.
  pose proof (Hin p Hp).
  rewrite (getitem_in J (2 * p) x ltac:(lia) Hx). simpl.
  rewrite (getitem_in J (2 * p + 1) y ltac:(lia) Hy). simpl.
  apply lookup_lt_Some in Hx, Hy.
  rewrite setitem_in by lia. simpl.
  rewrite setitem_in by (rewrite length_insert; lia). reflexivity.
Qed.

Section Prepare.

Variable H : list byte -> list byte -> list byte.

(** What a successful [prepare_parameters] went through. *)
Lemma prepare_parameters_Ok (fuel : nat) (params : list Z) (key : list byte)
    (zeta eta : Z) (prep : PreparedInput) :
  prepare_parameters H fuel params key zeta eta = Ok prep ->
  0 <= zeta
  /\ _compute_permutation H fuel (Z.of_nat (length params)) key eta = Ok (permutation prep)
  /\ (exists zeta2, bits_from_int zeta eta = Ok zeta2)
  /\ eta_used prep = eta
  /\ length (watermarked_params prep) = length params.
Proof.
  unfold prepare_parameters. case_bool_decide as Hz; [discriminate|].
  intros Hrun.
  apply bind_Ok in Hrun as (P & HP & Hrun).
  apply bind_Ok in Hrun as (zeta2 & Hbits & Hrun).
  apply bind_Ok in Hrun as (gamma & Hgamma & Hrun).
  apply bind_Ok in Hrun as (I & HI & [= <-]). simpl.
  split; [lia|]. split; [exact HP|]. split; [exists zeta2; exact Hbits|].
  split; [reflexivity|].
  revert HI.
  apply (for_each_inv (fun J : list Z => length J = length params)); [|reflexivity].
  intros J p J' _ HJ Hbody.
  apply bind_Ok in Hbody as (x & _ & Hbody).
  apply bind_Ok in Hbody as (y & _ & Hbody).
  apply bind_Ok in Hbody as (g & _ & Hbody).
  apply bind_Ok in Hbody as (emb & _ & Hbody).
  apply bind_Ok in Hbody as (J1 & HJ1 & HJ').
  apply setitem_length in HJ1, HJ'. lia.
Qed.

(** With the coverage check passed and [zeta] fitting in [eta] bits,
    [prepare_parameters] returns; every pair of the result yields, through
    [extract_bit_and_restore], the bit of [zeta2] at the pair's keyed index
    and the original pair; positions outside the pairs are unchanged. *)
Lemma prepare_parameters_spec (fuel : nat) (params : list Z) (key : list byte)
    (zeta eta : Z) (P : list Z) :
  _compute_permutation H fuel (Z.of_nat (length params)) key eta = Ok P ->
  0 <= zeta < 2 ^ eta ->
  exists zeta2 wm,
    bits_from_int zeta eta = Ok zeta2
    /\ prepare_parameters H fuel params key zeta eta = Ok (mkPreparedInput wm P eta)
    /\ length wm = length params
    /\ (forall p x y j b, p ∈ P ->
          params !! Z.to_nat (2 * p) = Some x -> params !! Z.to_nat (2 * p + 1) = Some y ->
          keyed_index H fuel p eta key = Ok j -> zeta2 !! Z.to_nat j = Some b ->
          exists x' y', wm !! Z.to_nat (2 * p) = Some x'
            /\ wm !! Z.to_nat (2 * p + 1) = Some y'
            /\ extract_bit_and_restore x' y' = (b, (x, y)))
    /\ (forall k, (forall p, p ∈ P -> k <> Z.to_nat (2 * p) /\ k <> Z.to_nat (2 * p + 1)) ->
          wm !! k = params !! k).
Proof.
  intros HP Hz.
  destruct (compute_permutation_Ok H _ _ _ _ _ HP) as (Hlen & Heta & Hperm & Hidx & _).
  set (n := Z.of_nat (length params) / 2) in *.
  destruct (pairs_fit (Z.of_nat (length params)) ltac:(lia)) as [Hn Hfit]. fold n in Hn, Hfit.
  assert (HinP : forall p, p ∈ P -> 0 <= p < n).
  { intros p Hp. rewrite Hperm in Hp. apply elem_of_range in Hp. exact Hp. }
  assert (HndP : NoDup P) by (rewrite Hperm; apply NoDup_range).
  destruct (bits_from_int_spec zeta eta ltac:(lia) Hz) as (zeta2 & Hbits & Hlen2 & Hall2 & _).
  exists zeta2.
  set (v := fun p => match keyed_index H fuel p eta key with
                     | Ok j => default 0 (zeta2 !! Z.to_nat j)
                     | _ => 0
                     end).
  assert (Hv : forall p, p ∈ P -> v p = 0 \/ v p = 1).
  { intros p Hp. unfold v. destruct (Hidx p Hp) as (j & -> & Hj).
    destruct (lookup_lt_is_Some_2 zeta2 (Z.to_nat j)) as [b Hb]; [lia|].
    rewrite Hb. simpl. rewrite Forall_forall in Hall2. apply Hall2.
    apply list_elem_of_lookup. exists (Z.to_nat j). exact Hb. }
  destruct (for_each_assign v n
    (fun gamma p =>
       j ← keyed_index H fuel p eta key;
       b ← getitem zeta2 j;
       setitem gamma p b) P) with (g := replicate (Z.to_nat n) 0)
    as (gamma & Hgamma & Hlg & Hgset & _).
  { intros g p Hp Hg. unfold v. destruct (Hidx p Hp) as (j & -> & Hj). simpl.
    destruct (getitem_in_range zeta2 j ltac:(lia)) as (b & Hb & ->). simpl.
    rewrite Hb. simpl. apply setitem_in. specialize (HinP p Hp). lia. }
  { exact HinP. }
  { rewrite length_replicate. lia. }
  destruct (for_each_pairs
    (fun p x y => (_floor_div2 (x + y) + _ceil_div2 (2 * (x - y) + v p),
                   _floor_div2 (x + y) - _floor_div2 (2 * (x - y) + v p))) n
    (fun I p =>
       x ← getitem I (2 * p);
       y ← getitem I (2 * p + 1);
       g ← getitem gamma p;
       emb ← embed_bit x y g;
       I1 ← setitem I (2 * p) (x_embedded emb);
       setitem I1 (2 * p + 1) (y_embedded emb)) P) with (I := params)
    as (wm & Hwm & Hlw & Hwset & Hwother); auto.
  { intros J p x y Hp Hx Hy. pose proof (HinP p Hp).
    rewrite (getitem_in J (2 * p) x ltac:(lia) Hx). simpl.
    rewrite (getitem_in J (2 * p + 1) y ltac:(lia) Hy). simpl.
    rewrite (getitem_in gamma p (v p) ltac:(lia) (Hgset p Hp)). simpl.
    unfold embed_bit. rewrite bool_decide_eq_false_2 by (specialize (Hv p Hp); lia).
    simpl. apply lookup_lt_Some in Hx, Hy.
    rewrite setitem_in by lia. simpl.
    rewrite setitem_in by (rewrite length_insert; lia). reflexivity. }
  exists wm. split; [exact Hbits|]. split; [|split; [exact Hlw|split; [|exact Hwother]]].
  - unfold prepare_parameters. rewrite bool_decide_eq_false_2 by lia.
    rewrite HP. simpl. rewrite Hbits. simpl. fold n.
    rewrite Hgamma. simpl. rewrite Hwm. reflexivity.
  - intros p x y j b Hp Hx Hy Hj Hb.
    destruct (Hwset p x y Hp Hx Hy) as [Hx' Hy']. simpl in Hx', Hy'.
    eexists _, _. split; [exact Hx'|]. split; [exact Hy'|].
    assert (Hvb : v p = b) by (unfold v; rewrite Hj, Hb; reflexivity).
    rewrite Hvb. apply extract_embed. rewrite <- Hvb. apply Hv. exact Hp.
Qed.

(** Restoring the prepared list with the returned permutation gives back the
    original list: the first half of the round trip. *)
Lemma restore_prepare (fuel : nat) (params : list Z) (key : list byte)
    (zeta eta : Z) (P : list Z) :
  _compute_permutation H fuel (Z.of_nat (length params)) key eta = Ok P ->
  0 <= zeta < 2 ^ eta ->
  exists prep,
    prepare_parameters H fuel params key zeta eta = Ok prep
    /\ permutation prep = P
    /\ restore_params_from_pairs (watermarked_params prep) (permutation prep) = Ok params.
Proof.
  intros HP Hz.
  destruct (prepare_parameters_spec fuel params key zeta eta P HP Hz)
    as (zeta2 & wm & Hbits & Hprep & Hlw & Hpairs & Hother).
  destruct (compute_permutation_Ok H _ _ _ _ _ HP) as (Hlen & Heta & Hperm & Hidx & _).
  set (n := Z.of_nat (length params) / 2) in *.
  destruct (pairs_fit (Z.of_nat (length params)) ltac:(lia)) as [Hn Hfit]. fold n in Hn, Hfit.
  assert (HinP : forall p, p ∈ P <-> 0 <= p < n).
  { intros p. rewrite Hperm. apply elem_of_range. }
  assert (HndP : NoDup P) by (rewrite Hperm; apply NoDup_range).
  destruct (bits_from_int_spec zeta eta ltac:(lia) Hz) as (zeta2' & Hbits' & Hlen2 & _).
  rewrite Hbits in Hbits'. injection Hbits' as <-.
  exists (mkPreparedInput wm P eta). split; [exact Hprep|]. split; [reflexivity|]. simpl.
  destruct (restore_params_from_pairs_spec n P wm HndP) as (I' & -> & HlI & Hset & Hoth).
  { intros p Hp. apply HinP. exact Hp. }
  { lia. }
  f_equal. apply list_eq. intros k.
  destruct (decide (Z.of_nat k < 2 * n)) as [Hk|Hk].
  - destruct (position_of_pair n k Hk) as (p & Hp & Hkp).
    destruct (lookup_lt_is_Some_2 params (Z.to_nat (2 * p))) as [x Hx]; [lia|].
    destruct (lookup_lt_is_Some_2 params (Z.to_nat (2 * p + 1))) as [y Hy]; [lia|].
    destruct (Hidx p) as (j & Hj & Hjr); [apply HinP; exact Hp|].
    destruct (lookup_lt_is_Some_2 zeta2 (Z.to_nat j)) as [b Hb]; [lia|].
    destruct (Hpairs p x y j b) as (x' & y' & Hx' & Hy' & Hext); auto; [apply HinP; exact Hp|].
    destruct (Hset p x' y') as [Hrx Hry]; auto; [apply HinP; exact Hp|].
    rewrite Hext in Hrx, Hry. simpl in Hrx, Hry.
    destruct Hkp as [-> | ->]; congruence.
  - assert (Hfar : forall p, p ∈ P -> k <> Z.to_nat (2 * p) /\ k <> Z.to_nat (2 * p + 1)).
    { intros p Hp%HinP. lia. }
    rewrite (Hoth k Hfar). apply Hother. exact Hfar.
Qed.

End Prepare.

Section PrepareOutcome.

Variable H : list byte -> list byte -> list byte.

(** C7.  Whenever [prepare_parameters] (and so [prepare]) returns, the
    watermarked list has the length of the input list, and no constraint was
    violated: [0 <= zeta < 2^eta], at least 2 parameters, [0 < eta <= n_pairs]
    and every bit position covered.  Conversely, when a constraint is violated
    ([zeta < 0], [zeta >= 2^eta], fewer than 2 parameters, fewer pairs than
    [eta], or a bit position that no pair covers), no list is returned,
    whatever the hash and the number of draws allowed.  For [zeta < 0], fewer
    than 2 parameters and fewer pairs than [eta] the exception is raised
    before any draw; for the other violations it is raised once the rejection
    loops have ended, which they do when accepted draws keep coming up. *)
Theorem C7_prepare_length_or_error (params : list Z) (key : list byte) (zeta eta : Z) :
  let n_pairs := Z.of_nat (length params) / 2 in
  let violated :=
    zeta < 0 \/ 2 ^ eta <= zeta \/ Z.of_nat (length params) < 2 \/ n_pairs < eta
    \/ (exists j, 0 <= j < eta /\ uncovered H key eta n_pairs j) in
  (forall fuel prep,
     prepare_parameters H fuel params key zeta eta = Ok prep ->
     length (watermarked_params prep) = length params
     /\ prepare H fuel params key zeta eta = Ok (watermarked_params prep)
     /\ 0 <= zeta < 2 ^ eta
     /\ 2 <= Z.of_nat (length params)
     /\ 0 < eta <= n_pairs
     /\ (forall j, 0 <= j < eta -> covered H key eta n_pairs j))
  /\ (forall fuel w,
     prepare H fuel params key zeta eta = Ok w -> length w = length params)
  /\ (violated -> forall fuel,
       (forall prep, prepare_parameters H fuel params key zeta eta <> Ok prep)
       /\ (forall w, prepare H fuel params key zeta eta <> Ok w))
  /\ (zeta < 0 -> forall fuel,
       prepare_parameters H fuel params key zeta eta
       = Raise (ValueError "zeta must be non-negative")
       /\ prepare H fuel params key zeta eta
          = Raise (ValueError "zeta must be non-negative"))
  /\ (0 <= zeta -> Z.of_nat (length params) < 2 -> forall fuel,
       prepare_parameters H fuel params key zeta eta
       = Raise (ValueError "Need at least 2 parameters (one pair).")
       /\ prepare H fuel params key zeta eta
          = Raise (ValueError "Need at least 2 parameters (one pair)."))
  /\ (0 <= zeta -> 2 <= Z.of_nat (length params) -> n_pairs < eta -> forall fuel,
       prepare_parameters H fuel params key zeta eta
       = Raise (ValueError (not_enough_pairs_msg eta n_pairs))
       /\ prepare H fuel params key zeta eta
          = Raise (ValueError (not_enough_pairs_msg eta n_pairs)))
  /\ (violated ->
      perm_fair H (prng_seed H key) n_pairs -> index_fair H key eta n_pairs ->
      exists e fuel0, forall fuel, (fuel0 <= fuel)%nat ->
        prepare_parameters H fuel params key zeta eta = Raise e
        /\ prepare H fuel params key zeta eta = Raise e).
Proof.
  intros n_pairs violated.
  assert (HOk : forall fuel prep,
     prepare_parameters H fuel params key zeta eta = Ok prep ->
     length (watermarked_params prep) = length params
     /\ prepare H fuel params key zeta eta = Ok (watermarked_params prep)
     /\ 0 <= zeta < 2 ^ eta
     /\ 2 <= Z.of_nat (length params)
     /\ 0 < eta <= n_pairs
     /\ (forall j, 0 <= j < eta -> covered H key eta n_pairs j)).
  { intros fuel prep Hprep.
    destruct (prepare_parameters_Ok H _ _ _ _ _ _ Hprep)
      as (Hz & HP & (zeta2 & Hbits) & _ & Hlw).
    destruct (compute_permutation_Ok H _ _ _ _ _ HP) as (Hlen & Heta & Hperm & _ & Hcov).
    split; [exact Hlw|]. split; [unfold prepare; rewrite Hprep; reflexivity|].
    split; [|split; [exact Hlen|split; [exact Heta|]]].
    - split; [exact Hz|].
      destruct (Z.lt_ge_cases zeta (2 ^ eta)) as [Hlt|Hge]; [exact Hlt|].
      rewrite bits_from_int_too_large in Hbits by lia. discriminate.
    - intros j Hj. destruct (Hcov j Hj) as (p & Hp & Hpj).
      exists p, fuel. split; [|exact Hpj].
      rewrite Hperm in Hp. apply elem_of_range in Hp. exact Hp. }
  assert (Hboth : forall fuel e, prepare_parameters H fuel params key zeta eta = Raise e ->
            prepare_parameters H fuel params key zeta eta = Raise e
            /\ prepare H fuel params key zeta eta = Raise e).
  { intros fuel e He. split; [exact He|]. unfold prepare. rewrite He. reflexivity. }
  assert (Hnever : violated -> forall fuel prep,
            prepare_parameters H fuel params key zeta eta <> Ok prep).
  { intros Hviol fuel prep Hprep.
    destruct (HOk fuel prep Hprep) as (_ & _ & Hz & Hlen & Heta & Hcov).
    destruct Hviol as [?|[?|[?|[?|(j & Hj & Hunc)]]]]; try lia.
    destruct (Hcov j Hj) as (p & fuel' & Hp & Hpj). apply (Hunc p fuel' Hp Hpj). }
  split; [exact HOk|]. split.
  { intros fuel w Hw. unfold prepare in Hw.
    destruct (prepare_parameters H fuel params key zeta eta) as [prep|e|] eqn:Hprep;
      try discriminate.
    injection Hw as <-. apply (HOk fuel prep Hprep). }
  split.
  { intros Hviol fuel. split; [apply Hnever; exact Hviol|].
    intros w Hw. unfold prepare in Hw.
    destruct (prepare_parameters H fuel params key zeta eta) as [prep|e|] eqn:Hprep;
      try discriminate.
    apply (Hnever Hviol fuel prep Hprep). }
  split.
  { intros Hz fuel. apply Hboth. unfold prepare_parameters.
    rewrite bool_decide_eq_true_2 by exact Hz. reflexivity. }
  split.
  { intros Hz Hlen fuel. apply Hboth.
    apply (compute_permutation_Raise_paths H fuel params key zeta eta); [|exact Hz].
    unfold _compute_permutation. rewrite bool_decide_eq_true_2 by exact Hlen. reflexivity. }
  split.
  { intros Hz Hlen Hpairs fuel. apply Hboth.
    apply (compute_permutation_Raise_paths H fuel params key zeta eta); [|exact Hz].
    unfold _compute_permutation. rewrite bool_decide_eq_false_2 by lia.
    fold n_pairs. rewrite bool_decide_eq_true_2 by exact Hpairs. reflexivity. }
  intros Hviol Hpf Hif.
  destruct (decide (zeta < 0)) as [Hz|Hz].
  { exists (ValueError "zeta must be non-negative"), 0%nat. intros fuel _.
    apply Hboth. unfold prepare_parameters.
    rewrite bool_decide_eq_true_2 by exact Hz. reflexivity. }
  destruct (compute_permutation_eventually H (Z.of_nat (length params)) key eta Hpf Hif)
    as (r & fuel0 & Hrun & Hnd & _).
  destruct r as [P|e|]; [| |contradiction].
  - exists (ValueError "eta too small to represent n"), fuel0. intros fuel Hf.
    specialize (Hrun fuel Hf).
    destruct (compute_permutation_Ok H _ _ _ _ _ Hrun) as (Hlen & Heta & Hperm & _ & Hcov).
    fold n_pairs in Heta.
    assert (Hbig : 2 ^ eta <= zeta).
    { destruct Hviol as [?|[?|[?|[?|(j & Hj & Hunc)]]]]; try lia.
      destruct (Hcov j Hj) as (p & Hp & Hpj). exfalso.
      apply (Hunc p fuel); [|exact Hpj].
      rewrite Hperm in Hp. apply elem_of_range in Hp. exact Hp. }
    apply Hboth. unfold prepare_parameters. rewrite bool_decide_eq_false_2 by exact Hz.
    rewrite Hrun. simpl. rewrite bits_from_int_too_large by lia. reflexivity.
  - exists e, fuel0. intros fuel Hf. apply Hboth.
    apply (compute_permutation_Raise_paths H fuel params key zeta eta e (Hrun fuel Hf)). lia.
Qed.

End PrepareOutcome.

(* ===================================================================== *)
(** * Lists of odd length (C9) *)
(* ===================================================================== *)

Lemma getitem_app_l {A : Type} (l t : list A) (i : Z) :
  0 <= i < Z.of_nat (length l) -> getitem (l ++ t) i = getitem l i.
Proof.
  intros Hi. unfold getitem.
  rewrite !py_index_in by (rewrite ?length_app; lia).
  rewrite lookup_app_l by lia. reflexivity.
Qed.

Lemma setitem_app_l {A : Type} (l t : list A) (i : Z) (x : A) :
  0 <= i < Z.of_nat (length l) ->
  setitem (l ++ t) i x = (fun l' => l' ++ t) <$> setitem l i x.
Proof.
  intros Hi. unfold setitem.
  rewrite !py_index_in by (rewrite ?length_app; lia).
  simpl. rewrite insert_app_l by lia. reflexivity.
Qed.

(** A loop that reads and writes only inside the first [m] positions does
    the same on a longer list and leaves the rest alone. *)
Lemma for_each_frame (body : list Z -> Z -> result (list Z)) (t : list Z) (m : nat)
    (P : list Z) :
  (forall I p, p ∈ P -> length I = m ->
     body (I ++ t) p = (fun l => l ++ t) <$> body I p) ->
  (forall I p I', p ∈ P -> length I = m -> body I p = Ok I' -> length I' = m) ->
  forall I, length I = m ->
    for_each body P (I ++ t) = (fun l => l ++ t) <$> for_each body P I.
Proof.
  induction P as [|p P IH]; intros Hb Hl I HI; simpl; [reflexivity|].
  rewrite Hb by (left || exact HI).
  destruct (body I p) as [I1|e|] eqn:E; simpl; try reflexivity.
  apply IH.
  - intros J q Hq. apply Hb. right. exact Hq.
  - intros J q J' Hq. apply Hl. right. exact Hq.
  - apply (Hl I p I1); [left|exact HI|exact E].
Qed.

Lemma odd_length_pairs (len : Z) :
  0 <= len -> Z.even len = true ->
  (len + 1) / 2 = len / 2 /\ (len + 1 < 2 <-> len < 2) /\ 2 * (len / 2) = len.
Proof.
  intros Hlen Hev. apply Z.even_spec in Hev as [k ->].
  replace (2 * k + 1) with (1 + k * 2) by lia.
  rewrite Z.div_add by lia. replace (2 * k) with (k * 2) by lia.
  rewrite Z.div_mul by lia. change (1 / 2) with 0. lia.
Qed.

Section OddLength.

Variable H : list byte -> list byte -> list byte.
Variable fuel : nat.

Lemma compute_permutation_odd (len : Z) (key : list byte) (eta : Z) :
  0 <= len -> Z.even len = true ->
  _compute_permutation H fuel (len + 1) key eta = _compute_permutation H fuel len key eta.
Proof.
  intros Hlen Hev. destruct (odd_length_pairs len Hlen Hev) as (Hdiv & Hlt & _).
  unfold _compute_permutation. rewrite Hdiv.
  rewrite (bool_decide_ext _ _ Hlt). reflexivity.
Qed.

Lemma hints_detection_app (I t P : list Z) :
  Z.even (Z.of_nat (length I)) = true ->
  length t = 1%nat ->
  (forall p, p ∈ P -> 0 <= p < Z.of_nat (length I) / 2) ->
  hints_detection (I ++ t) P = hints_detection I P.
Proof.
  intros Hev Ht HP.
  destruct (odd_length_pairs (Z.of_nat (length I)) ltac:(lia) Hev) as (Hdiv & _ & Hfit).
  unfold hints_detection. rewrite length_app, Ht.
  replace (Z.of_nat (length I + 1)) with (Z.of_nat (length I) + 1) by lia.
  rewrite Hdiv. apply for_each_ext. intros gamma p Hp.
  specialize (HP p Hp).
  rewrite !getitem_app_l by lia. reflexivity.
Qed.

Lemma restore_params_from_pairs_app (I t P : list Z) :
  (forall p, p ∈ P -> 0 <= p < Z.of_nat (length I) / 2) ->
  restore_params_from_pairs (I ++ t) P
  = (fun l => l ++ t) <$> restore_params_from_pairs I P.
Proof.
  intros HP. unfold restore_params_from_pairs.
  destruct (pairs_fit (Z.of_nat (length I)) ltac:(lia)) as [_ Hfit].
  apply (for_each_frame _ t (length I)); [| |reflexivity].
  - intros J p Hp HJ. specialize (HP p Hp).
    rewrite !getitem_app_l by lia.
    destruct (getitem J (2 * p)) as [x|e|]; simpl; try reflexivity.
    destruct (getitem J (2 * p + 1)) as [y|e|]; simpl; try reflexivity.
    rewrite setitem_app_l by lia.
    destruct (setitem J (2 * p) _) as [J1|e|] eqn:E; simpl; try reflexivity.
    apply setitem_length in E.
    rewrite setitem_app_l by lia. reflexivity.
  - intros J p J' Hp HJ Hbody.
    apply bind_Ok in Hbody as (x & _ & Hbody).
    apply bind_Ok in Hbody as (y & _ & Hbody). simpl in Hbody.
    apply bind_Ok in Hbody as (J1 & HJ1 & HJ').
    apply setitem_length in HJ1, HJ'. lia.
Qed.

(** C9.  A list [I ++ [z]] of odd length is handled like the even-length
    list [I], and its final element [z] is carried along unchanged:
    [prepare_parameters] returns for [I ++ [z]] exactly when it returns for
    [I], with the same permutation and the watermarked list of [I] followed by
    [z]; [build_watermark_graph] gives the same outcome as on [I]; and for
    pair indices in [0, len div 2), [hints_detection] gives the same hints and
    [restore_params_from_pairs] the restored list of [I] followed by [z]. *)
Theorem C9_odd_length_final_element (I : list Z) (z : Z) (key : list byte) (zeta eta : Z) :
  Z.even (Z.of_nat (length I)) = true ->
  prepare_parameters H fuel (I ++ [z]) key zeta eta
  = (fun prep => mkPreparedInput (watermarked_params prep ++ [z])
                   (permutation prep) (eta_used prep))
    <$> prepare_parameters H fuel I key zeta eta
  /\ (forall prep, prepare_parameters H fuel (I ++ [z]) key zeta eta = Ok prep ->
        length (watermarked_params prep) = S (length I)
        /\ last (watermarked_params prep) = Some z)
  /\ build_watermark_graph H fuel (I ++ [z]) key eta
     = build_watermark_graph H fuel I key eta
  /\ (forall P, (forall p, p ∈ P -> 0 <= p < Z.of_nat (length I) / 2) ->
        hints_detection (I ++ [z]) P = hints_detection I P
        /\ restore_params_from_pairs (I ++ [z]) P
           = (fun l => l ++ [z]) <$> restore_params_from_pairs I P
        /\ (forall R, restore_params_from_pairs (I ++ [z]) P = Ok R ->
              last R = Some z)).
Proof.
  intros Hev.
  destruct (odd_length_pairs (Z.of_nat (length I)) ltac:(lia) Hev) as (Hdiv & _ & Hfit).
  assert (Hlen1 : Z.of_nat (length (I ++ [z])) = Z.of_nat (length I) + 1).
  { rewrite length_app. simpl. lia. }
  assert (Hprep : prepare_parameters H fuel (I ++ [z]) key zeta eta
    = (fun prep => mkPreparedInput (watermarked_params prep ++ [z])
                     (permutation prep) (eta_used prep))
      <$> prepare_parameters H fuel I key zeta eta).
  { unfold prepare_parameters. case_bool_decide; [reflexivity|].
    rewrite Hlen1, compute_permutation_odd by (exact Hev || lia). rewrite Hdiv.
    destruct (_compute_permutation H fuel (Z.of_nat (length I)) key eta) as [P|e|] eqn:HP;
      simpl; try reflexivity.
    destruct (compute_permutation_Ok H _ _ _ _ _ HP) as (_ & _ & Hperm & _).
    destruct (bits_from_int zeta eta) as [zeta2|e|]; simpl; try reflexivity.
    destruct (for_each _ P (replicate _ 0)) as [gamma|e|]; simpl; try reflexivity.
    rewrite (for_each_frame _ [z] (length I)); [| | |reflexivity].
    - destruct (for_each _ P I) as [wm|e|]; reflexivity.
    - intros J p Hp HJ. rewrite Hperm in Hp. apply elem_of_range in Hp.
      rewrite !getitem_app_l by lia.
      destruct (getitem J (2 * p)) as [x|e|]; simpl; try reflexivity.
      destruct (getitem J (2 * p + 1)) as [y|e|]; simpl; try reflexivity.
      destruct (getitem gamma p) as [g|e|]; simpl; try reflexivity.
      destruct (embed_bit x y g) as [emb|e|]; simpl; try reflexivity.
      rewrite setitem_app_l by lia.
      destruct (setitem J (2 * p) _) as [J1|e|] eqn:E; simpl; try reflexivity.
      apply setitem_length in E.
      rewrite setitem_app_l by lia. reflexivity.
    - intros J p J' Hp HJ Hbody.
      apply bind_Ok in Hbody as (x & _ & Hbody).
      apply bind_Ok in Hbody as (y & _ & Hbody).
      apply bind_Ok in Hbody as (g & _ & Hbody).
      apply bind_Ok in Hbody as (emb & _ & Hbody).
      apply bind_Ok in Hbody as (J1 & HJ1 & HJ').
      apply setitem_length in HJ1, HJ'. lia. }
  split; [exact Hprep|]. split; [|split].
  - intros prep Hp. rewrite Hprep in Hp.
    destruct (prepare_parameters H fuel I key zeta eta) as [prep0|e|] eqn:E;
      try discriminate.
    injection Hp as <-. simpl.
    apply prepare_parameters_Ok in E as (_ & _ & _ & _ & Hl).
    rewrite length_app, Hl. simpl. split; [lia|]. apply last_snoc.
  - unfold build_watermark_graph.
    rewrite Hlen1, compute_permutation_odd by (exact Hev || lia).
    destruct (_compute_permutation H fuel (Z.of_nat (length I)) key eta) as [P|e|] eqn:HP;
      simpl; try reflexivity.
    destruct (compute_permutation_Ok H _ _ _ _ _ HP) as (_ & _ & Hperm & _).
    rewrite hints_detection_app; [reflexivity|exact Hev|reflexivity|].
    intros p Hp. rewrite Hperm in Hp. apply elem_of_range in Hp. exact Hp.
  - intros P HP. split; [|split].
    + apply hints_detection_app; [exact Hev|reflexivity|exact HP].
    + apply restore_params_from_pairs_app. exact HP.
    + intros R HR. rewrite restore_params_from_pairs_app in HR by exact HP.
      destruct (restore_params_from_pairs I P) as [R0|e|]; try discriminate.
      injection HR as <-. apply last_snoc.
Qed.

End OddLength.

(* ===================================================================== *)
(** * Runs on HMAC-SHA256 *)
(* ===================================================================== *)

(** A draw is always accepted when the modulus divides 2^64. *)
Lemma accept_when_divides (H : list byte -> list byte -> list byte)
    (key msg : list byte) (m : Z) :
  Z.shiftl 1 64 mod m = 0 -> hmac64 H key msg < reject_limit m.
Proof.
  intros Hm. unfold reject_limit. rewrite Hm.
  pose proof (hmac64_range H key msg) as Hr.
  change (Z.shiftl 1 64) with (2 ^ 64). lia.
Qed.

Lemma perm_fair_small (H : list byte -> list byte -> list byte) (seed : list byte) (n : Z) :
  n <= 3 -> perm_fair H seed n.
Proof.
  intros Hn i c Hi Hc. exists 0%nat. apply accept_when_divides.
  assert (i = 0 \/ i = 1) as [-> | ->] by lia; reflexivity.
Qed.

Lemma index_fair_divides (H : list byte -> list byte -> list byte) (key : list byte)
    (eta n : Z) :
  Z.shiftl 1 64 mod eta = 0 -> index_fair H key eta n.
Proof.
  intros Heta _ p _. exists 0%nat. apply accept_when_divides. exact Heta.
Qed.

Lemma elem_of_three (p a b c : Z) : p ∈ [a; b; c] -> p = a \/ p = b \/ p = c.
Proof.
  intros Hp. apply elem_of_cons in Hp as [->|Hp]; [auto|].
  apply elem_of_cons in Hp as [->|Hp]; [auto|].
  apply elem_of_cons in Hp as [->|Hp]; [auto|]. inversion Hp.
Qed.

(** [Hashlib.hmac_sha256] on the test vector of RFC 4231, test case 2
    (key "Jefe"). *)
Example hmac_sha256_rfc4231_case2 :
  map Hashlib.byte_to_Z
    (Hashlib.hmac_sha256 (encode_utf8 "Jefe") (encode_utf8 "what do ya want for nothing?"))
  = [0x5b; 0xdc; 0xc1; 0x46; 0xbf; 0x60; 0x75; 0x4e; 0x6a; 0x04; 0x24; 0x26; 0x08; 0x95;
     0x75; 0xc7; 0x5a; 0x00; 0x3f; 0x08; 0x9d; 0x27; 0x39; 0x83; 0x9d; 0xec; 0x58; 0xb9;
     0x64; 0xec; 0x38; 0x43].
Proof. vm_compute. reflexivity. Qed.

Lemma C8_keyed_permutation_is_permutation_witness :
  exists P,
    (exists fuel0, forall fuel, (fuel0 <= fuel)%nat ->
       keyed_permutation Hashlib.hmac_sha256 fuel
         (prng_seed Hashlib.hmac_sha256 unit_test_key) 3 = Ok P)
    /\ P ≡ₚ range 3.
Proof.
  destruct (C8_keyed_permutation_is_permutation Hashlib.hmac_sha256
              (prng_seed Hashlib.hmac_sha256 unit_test_key) 3
              ltac:(lia) (perm_fair_small _ _ 3 ltac:(lia)))
    as [(P & Hrun & HP & _) _].
  exists P. split; [exact Hrun|exact HP].
Defined.

(** C5 fails as stated at [params_len = 2], [eta = 0]: the call raises
    (through the guard of [keyed_index]), although [params_len < 2] is false,
    [n_pairs < eta] is false, and no set has fewer than 0 elements.  The same
    exception leaves [prepare_parameters] on the list [1; 2]. *)
Lemma C5_counterexample_eta_zero :
  _compute_permutation Hashlib.hmac_sha256 0 2 unit_test_key 0
    = Raise (ValueError "eta must be > 0")
  /\ prepare_parameters Hashlib.hmac_sha256 0 [1; 2] unit_test_key 0 0
    = Raise (ValueError "eta must be > 0")
  /\ ~ (2 < 2)
  /\ ~ (2 / 2 < 0)
  /\ (forall covered : gset Z, ~ (Z.of_nat (size covered) < 0)).
Proof.
  split; [vm_compute; reflexivity|]. split; [vm_compute; reflexivity|].
  split; [lia|]. split; [vm_compute; discriminate|]. intros covered. lia.
Qed.

Lemma C5_compute_permutation_failures_witness :
  _compute_permutation Hashlib.hmac_sha256 0 2 unit_test_key (2 ^ 64 + 1)
  = Raise (ValueError (not_enough_pairs_msg (2 ^ 64 + 1) 1))
  /\ (exists fuel0, forall fuel, (fuel0 <= fuel)%nat ->
        _compute_permutation Hashlib.hmac_sha256 fuel 2 unit_test_key 0
        = Raise (ValueError "eta must be > 0"))
  /\ (exists c fuel0, 0 <= c < 2 /\ forall fuel, (fuel0 <= fuel)%nat ->
        _compute_permutation Hashlib.hmac_sha256 fuel 6
          (encode_utf8 "demo-key-32bytes-minimum---ok") 2
        = Raise (ValueError (insufficient_coverage_msg c 2))).
Proof.
  split; [|split].
  - pose proof (C5_compute_permutation_failures Hashlib.hmac_sha256 2 unit_test_key
                  (2 ^ 64 + 1)) as (_ & Hpairs & _).
    apply (Hpairs 0%nat); [lia|]. change (2 / 2) with 1. lia.
  - pose proof (C5_compute_permutation_failures Hashlib.hmac_sha256 2 unit_test_key 0)
      as (_ & _ & Hguard & _).
    apply Hguard; [lia| |lia|].
    + change (2 / 2) with 1. lia.
    + apply perm_fair_small. change (2 / 2) with 1. lia.
  - pose proof (C5_compute_permutation_failures Hashlib.hmac_sha256 6
                  (encode_utf8 "demo-key-32bytes-minimum---ok") 2)
      as (_ & _ & _ & Hcov & _).
    apply Hcov.
    + lia.
    + change (6 / 2) with 3. lia.
    + apply perm_fair_small. change (6 / 2) with 3. lia.
    + apply index_fair_divides. reflexivity.
    + exists 0. split; [lia|]. intros p fuel Hp Hrun. change (6 / 2) with 3 in Hp.
      assert (Hone : keyed_index Hashlib.hmac_sha256 1 p 2
                       (encode_utf8 "demo-key-32bytes-minimum---ok") = Ok 1).
      { assert (p = 0 \/ p = 1 \/ p = 2) as [-> | [-> | ->]] by lia;
          vm_compute; reflexivity. }
      pose proof (keyed_index_det _ _ _ _ _ _ _ _ Hrun Hone). lia.
Defined.

Lemma C6_code_builder_votes_witness :
  exists zeta2,
    code_builder Hashlib.hmac_sha256 1 [1; 0; 0] 2 unit_test_key [0; 1; 2] = Ok zeta2
    /\ length zeta2 = 2%nat.
Proof.
  destruct (C6_code_builder_votes Hashlib.hmac_sha256 1 [1; 0; 0] 2 unit_test_key [0; 1; 2])
    as (zeta2 & Hrun & Hlen & _).
  - intros p Hp. apply elem_of_three in Hp as [-> | [-> | ->]];
      eexists; vm_compute; reflexivity.
  - intros p Hp. apply elem_of_three in Hp as [-> | [-> | ->]];
      eexists; vm_compute; reflexivity.
  - exists zeta2. split; [exact Hrun|exact Hlen].
Defined.

Lemma C7_prepare_length_or_error_witness :
  (prepare_parameters Hashlib.hmac_sha256 0 [1; 2] unit_test_key 0 (2 ^ 64 + 1)
   = Raise (ValueError (not_enough_pairs_msg (2 ^ 64 + 1) 1))
   /\ prepare Hashlib.hmac_sha256 0 [1; 2] unit_test_key 0 (2 ^ 64 + 1)
      = Raise (ValueError (not_enough_pairs_msg (2 ^ 64 + 1) 1)))
  /\ (exists e fuel0, forall fuel, (fuel0 <= fuel)%nat ->
        prepare_parameters Hashlib.hmac_sha256 fuel [1; 2; 3; 4; 5; 6] unit_test_key 4 2
        = Raise e
        /\ prepare Hashlib.hmac_sha256 fuel [1; 2; 3; 4; 5; 6] unit_test_key 4 2 = Raise e).
Proof.
  split.
  - pose proof (C7_prepare_length_or_error Hashlib.hmac_sha256 [1; 2] unit_test_key 0
                  (2 ^ 64 + 1)) as (_ & _ & _ & _ & _ & Hpairs & _).
    apply (Hpairs ltac:(lia)); [simpl; lia|].
    change (Z.of_nat (length [1; 2]) / 2) with 1. lia.
  - pose proof (C7_prepare_length_or_error Hashlib.hmac_sha256 [1; 2; 3; 4; 5; 6]
                  unit_test_key 4 2) as (_ & _ & _ & _ & _ & _ & Hlate).
    apply Hlate.
    + right. left. change (2 ^ 2) with 4. lia.
    + apply perm_fair_small. change (Z.of_nat (length [1; 2; 3; 4; 5; 6]) / 2) with 3. lia.
    + apply index_fair_divides. reflexivity.
Defined.

Lemma C9_odd_length_final_element_witness :
  build_watermark_graph Hashlib.hmac_sha256 1 ([1; 2; 3; 4; 5; 6] ++ [7]) unit_test_key 2
  = build_watermark_graph Hashlib.hmac_sha256 1 [1; 2; 3; 4; 5; 6] unit_test_key 2
  /\ restore_params_from_pairs ([0; 2; 3; 4; 4; 6] ++ [7]) [0; 1; 2]
     = (fun l => l ++ [7]) <$> restore_params_from_pairs [0; 2; 3; 4; 4; 6] [0; 1; 2].
Proof.
  pose proof (C9_odd_length_final_element Hashlib.hmac_sha256 1
                [1; 2; 3; 4; 5; 6] 7 unit_test_key 2 2 eq_refl) as (_ & _ & Hbuild & _).
  pose proof (C9_odd_length_final_element Hashlib.hmac_sha256 1
                [0; 2; 3; 4; 4; 6] 7 unit_test_key 2 2 eq_refl) as (_ & _ & _ & Hrest).
  split; [exact Hbuild|].
  assert (Hin : forall p, p ∈ [0; 1; 2] ->
            0 <= p < Z.of_nat (length [0; 2; 3; 4; 4; 6]) / 2).
  { intros p Hp. change (Z.of_nat (length [0; 2; 3; 4; 4; 6]) / 2) with 3.
    apply elem_of_three in Hp as [-> | [-> | ->]]; lia. }
  exact (proj1 (proj2 (Hrest [0; 1; 2] Hin))).
Defined.

(** C1 (at a failing input).  With the key of the unit tests, the six
    parameters 1..6, [eta = 2] and the code [zeta = 2 < 2^2]: the coverage
    check passes, [prepare_parameters] returns, and
    [restore_params_from_pairs] gives back the original list; but the graph
    built from the watermarked list has the single node of the base-6 digit
    array [2], its digit pointer is reduced modulo 1 to the node itself, and
    [controller_verify] decodes the code 1 and reports [is_authentic = false]. *)
Theorem C1_round_trip_small_code :
  exists prep b,
    prepare_parameters Hashlib.hmac_sha256 1 [1; 2; 3; 4; 5; 6] unit_test_key 2 2 = Ok prep
    /\ watermarked_params prep = [0; 2; 3; 4; 4; 6]
    /\ restore_params_from_pairs (watermarked_params prep) (permutation prep)
       = Ok [1; 2; 3; 4; 5; 6]
    /\ build_watermark_graph Hashlib.hmac_sha256 1 (watermarked_params prep) unit_test_key 2
       = Ok b
    /\ controller_verify (graph_heap b) (graph_head b) 2
       = Ok (mkVerificationResult false (Some 1) (Some [1]) None).
Proof.
  eexists. eexists.
  split; [vm_compute; reflexivity|]. split; [reflexivity|].
  split; [vm_compute; reflexivity|]. split; [vm_compute; reflexivity|].
  vm_compute. reflexivity.
Qed.

(* ===================================================================== *)
(** * Encoding and decoding a ring that is long enough *)
(* ===================================================================== *)

Lemma getitem_seq (m : nat) (r : Z) :
  0 <= r < Z.of_nat m -> getitem (seq 0 m) r = Ok (Z.to_nat r).
Proof.
  intros Hr. apply getitem_in; [lia|]. rewrite lookup_seq_lt by lia. reflexivity.
Qed.

Lemma lookup_ring_heap (zeta6 : list Z) (r : nat) (d : Z) :
  zeta6 !! r = Some d ->
  ring_heap zeta6 !! r
  = Some (ring_node (Z.of_nat (length zeta6)) (Z.of_nat r)
            (digit_target (Z.of_nat (length zeta6)) (Z.of_nat r) d)).
Proof. intros Hd. unfold ring_heap. rewrite list_lookup_imap, Hd. reflexivity. Qed.

(** [encode_watermark] returns the ring heap with head 0. *)
Lemma encode_watermark_spec (zeta6 : list Z) :
  zeta6 <> [] -> encode_watermark zeta6 = Ok (ring_heap zeta6, 0%nat).
Proof.
  intros Hne. unfold encode_watermark.
  set (m := length zeta6). set (mu := Z.of_nat m).
  assert (Hm : (0 < m)%nat) by (unfold m; destruct zeta6; [contradiction|simpl; lia]).
  assert (Hmu : mu = Z.of_nat m) by reflexivity.
  assert (Hmlen : m = length zeta6) by reflexivity.
  rewrite bool_decide_eq_false_2 by lia.
  unfold alloc_nodes. replace (Z.to_nat mu) with m by lia.
  (* first loop: the next pointers *)
  destruct (for_each_prefix
    (fun pre (h : heap) => length h = m /\
       forall r, (r < m)%nat ->
         h !! r = Some (if bool_decide (Z.of_nat r ∈ pre)
                        then ring_node mu (Z.of_nat r) None else mkNode None None))
    (fun h r =>
       nr ← getitem (seq 0 m) r;
       nn ← getitem (seq 0 m) ((r + 1) mod mu);
       Ok (set_next h nr (Some nn)))
    (range mu)) with (st := replicate m (mkNode None None)) as (h1 & Hrun1 & Hl1 & Hh1).
  { intros pre x h Hx%elem_of_range [Hl Hh].
    pose proof (Z.mod_pos_bound (x + 1) mu ltac:(lia)).
    rewrite (getitem_seq m x) by lia. simpl.
    rewrite (getitem_seq m ((x + 1) mod mu)) by lia. simpl.
    eexists. split; [reflexivity|]. unfold set_next. split; [rewrite length_insert; exact Hl|].
    intros r Hr. destruct (decide (r = Z.to_nat x)) as [->|Hne'].
    - rewrite list_lookup_insert_eq by lia.
      rewrite bool_decide_eq_true_2
        by (apply elem_of_app; right; apply list_elem_of_singleton; lia).
      unfold deref. rewrite (Hh (Z.to_nat x)) by lia. unfold ring_node.
      replace (Z.of_nat (Z.to_nat x)) with x by lia.
      case_bool_decide; reflexivity.
    - rewrite list_lookup_insert_ne by lia. rewrite (Hh r Hr).
      apply (f_equal Some).
      rewrite (bool_decide_ext (Z.of_nat r ∈ pre ++ [x]) (Z.of_nat r ∈ pre)); [reflexivity|].
      rewrite elem_of_app, list_elem_of_singleton. split; [intros [?|?]; [done|lia]|auto]. }
  { split; [apply length_replicate|]. intros r Hr.
    rewrite lookup_replicate_2 by exact Hr.
    rewrite bool_decide_eq_false_2 by (intros Hin; inversion Hin). reflexivity. }
  rewrite Hrun1. simpl.
  (* second loop: the digit pointers *)
  destruct (for_each_prefix
    (fun pre (h : heap) => length h = m /\
       forall r d, zeta6 !! r = Some d ->
         h !! r = Some (ring_node mu (Z.of_nat r)
                          (if bool_decide (Z.of_nat r ∈ pre)
                           then digit_target mu (Z.of_nat r) d else None)))
    (fun h r =>
       d ← getitem zeta6 r;
       if bool_decide (d = 0) then
         nr ← getitem (seq 0 m) r; Ok (set_digit h nr None)
       else
         nr ← getitem (seq 0 m) r;
         nt ← getitem (seq 0 m) ((r + d - 1) mod mu);
         Ok (set_digit h nr (Some nt)))
    (range mu)) with (st := h1) as (h2 & Hrun2 & Hl2 & Hh2).
  { intros pre x h Hx%elem_of_range [Hl Hh].
    destruct (getitem_in_range zeta6 x ltac:(fold m; lia)) as (d & Hd & ->). simpl.
    assert (Hstep : exists h',
      (if bool_decide (d = 0) then
         nr ← getitem (seq 0 m) x; Ok (set_digit h nr None)
       else
         nr ← getitem (seq 0 m) x;
         nt ← getitem (seq 0 m) ((x + d - 1) mod mu);
         Ok (set_digit h nr (Some nt)))
      = Ok h' /\ h' = <[Z.to_nat x := ring_node mu x (digit_target mu x d)]> h).
    { unfold digit_target. case_bool_decide.
      - rewrite (getitem_seq m x) by lia. simpl. eexists. split; [reflexivity|].
        unfold set_digit, deref. rewrite (Hh (Z.to_nat x) d Hd). simpl.
        replace (Z.of_nat (Z.to_nat x)) with x by lia. reflexivity.
      - pose proof (Z.mod_pos_bound (x + d - 1) mu ltac:(lia)).
        rewrite (getitem_seq m x) by lia. simpl.
        rewrite (getitem_seq m ((x + d - 1) mod mu)) by lia. simpl.
        eexists. split; [reflexivity|].
        unfold set_digit, deref. rewrite (Hh (Z.to_nat x) d Hd). simpl.
        replace (Z.of_nat (Z.to_nat x)) with x by lia. reflexivity. }
    destruct Hstep as (h' & -> & ->).
    eexists. split; [reflexivity|]. split; [rewrite length_insert; exact Hl|].
    intros r d' Hd'. destruct (decide (r = Z.to_nat x)) as [->|Hne'].
    - rewrite list_lookup_insert_eq by lia. rewrite Hd in Hd'. injection Hd' as <-.
      rewrite bool_decide_eq_true_2
        by (apply elem_of_app; right; apply list_elem_of_singleton; lia).
      replace (Z.of_nat (Z.to_nat x)) with x by lia. reflexivity.
    - rewrite list_lookup_insert_ne by lia. rewrite (Hh r d' Hd').
      rewrite (bool_decide_ext (Z.of_nat r ∈ pre ++ [x]) (Z.of_nat r ∈ pre)); [reflexivity|].
      rewrite elem_of_app, list_elem_of_singleton. split; [intros [?|?]; [done|lia]|auto]. }
  { split; [exact Hl1|]. intros r d Hd.
    rewrite (Hh1 r) by (apply lookup_lt_Some in Hd; exact Hd).
    rewrite bool_decide_eq_true_2
      by (apply elem_of_range; apply lookup_lt_Some in Hd; fold m in Hd; lia).
    rewrite bool_decide_eq_false_2 by (intros Hin; inversion Hin). reflexivity. }
  rewrite Hrun2. simpl. rewrite getitem_seq by lia. simpl.
  do 2 f_equal. apply list_eq. intros r.
  destruct (zeta6 !! r) as [d|] eqn:Hd.
  - rewrite (Hh2 r d Hd), (lookup_ring_heap zeta6 r d Hd).
    rewrite bool_decide_eq_true_2
      by (apply elem_of_range; apply lookup_lt_Some in Hd; fold m in Hd; lia).
    reflexivity.
  - apply lookup_ge_None in Hd. rewrite !lookup_ge_None_2; [reflexivity| |].
    + unfold ring_heap. rewrite length_imap. exact Hd.
    + fold m in Hd. lia.
Qed.

Lemma mod_eq_small (mu r s k : Z) :
  0 < mu -> 0 <= s <= k -> k < mu -> (r + s) mod mu = (r + k) mod mu -> s = k.
Proof.
  intros Hmu Hs Hk Heq.
  assert (Hz : (k - s) mod mu = 0).
  { replace (k - s) with ((r + k) - (r + s)) by lia.
    rewrite Zminus_mod, Heq, Z.sub_diag. apply Z.mod_0_l. lia. }
  rewrite Z.mod_small in Hz by lia. lia.
Qed.

Section RingDecoding.

Variable zeta6 : list Z.
Local Abbreviation mu := (Z.of_nat (length zeta6)).
Hypothesis Hne : zeta6 <> [].

Lemma ring_positive : 0 < mu.
Proof. destruct zeta6; [contradiction|simpl; lia]. Qed.

Lemma ring_heap_node (a d : Z) :
  0 <= a -> zeta6 !! Z.to_nat a = Some d ->
  deref (ring_heap zeta6) (Z.to_nat a) = ring_node mu a (digit_target mu a d).
Proof.
  intros Ha Hd. unfold deref. rewrite (lookup_ring_heap zeta6 _ d Hd). simpl.
  replace (Z.of_nat (Z.to_nat a)) with a by lia. reflexivity.
Qed.

Lemma ring_heap_next (a : Z) :
  0 <= a < mu ->
  next (deref (ring_heap zeta6) (Z.to_nat a)) = Some (Z.to_nat ((a + 1) mod mu)).
Proof.
  intros Ha.
  destruct (lookup_lt_is_Some_2 zeta6 (Z.to_nat a)) as [d Hd]; [lia|].
  rewrite (ring_heap_node a d) by (lia || exact Hd). reflexivity.
Qed.

(** Walking from ring position [r] (already [s] steps away) to the position
    [k] steps away takes [k] steps, when [k] is less than the ring length. *)
Lemma probe_loop_ring (r k : Z) (fuel : nat) (s : Z) :
  0 <= s <= k -> k < mu -> (Z.to_nat (k - s) <= fuel)%nat ->
  probe_loop fuel (ring_heap zeta6) mu
    (Z.to_nat ((r + k) mod mu)) (Z.to_nat ((r + s) mod mu)) s = Ok k.
Proof.
  pose proof ring_positive as Hmu.
  revert s. induction fuel as [|fuel IH]; intros s Hs Hk Hfuel.
  - assert (s = k) as -> by lia. simpl.
    rewrite bool_decide_eq_false_2 by (intros Hneq; apply Hneq; reflexivity). reflexivity.
  - simpl. case_bool_decide as Hneq; cycle 1.
    { f_equal. apply (mod_eq_small mu r s k); [lia|lia|lia|].
      pose proof (Z.mod_pos_bound (r + s) mu ltac:(lia)).
      pose proof (Z.mod_pos_bound (r + k) mu ltac:(lia)).
      lia. }
    assert (s < k).
    { destruct (decide (s = k)) as [->|]; [contradiction|lia]. }
    rewrite ring_heap_next by (apply Z.mod_pos_bound; lia).
    rewrite bool_decide_eq_false_2 by lia.
    rewrite Zplus_mod_idemp_l.
    replace (r + s + 1) with (r + (s + 1)) by lia.
    apply IH; lia.
Qed.

(** The first loop of [decode_watermark] collects the ring positions in order. *)
Lemma collect_ring (k : nat) (a : Z) (nodes : list nat) (c : nat) :
  (c + k < length zeta6)%nat ->
  for_each (fun '(nodes, cur) (_ : Z) =>
      match next (deref (ring_heap zeta6) cur) with
      | None => Raise (ValueError "invalid structure (broken ring)")
      | Some cur' => Ok (nodes ++ [cur'], cur')
      end) (seqZ a (Z.of_nat k)) (nodes, c)
  = Ok (nodes ++ seq (S c) k, (c + k)%nat).
Proof.
  pose proof ring_positive as Hmu.
  revert a nodes c. induction k as [|k IH]; intros a nodes c Hc.
  - simpl. rewrite app_nil_r, Nat.add_0_r. reflexivity.
  - rewrite seqZ_cons by lia. simpl.
    pose proof (ring_heap_next (Z.of_nat c) ltac:(lia)) as Hnext.
    rewrite Nat2Z.id in Hnext. rewrite Hnext. simpl.
    rewrite Z.mod_small by lia.
    replace (Z.pred (Z.of_nat (S k))) with (Z.of_nat k) by lia.
    replace (Z.to_nat (Z.of_nat c + 1)) with (S c) by lia.
    rewrite IH by lia. rewrite <- app_assoc. simpl.
    do 3 f_equal. lia.
Qed.

Lemma decode_ring_heap :
  Forall (fun d => 0 <= d <= mu) zeta6 ->
  decode_watermark (ring_heap zeta6) 0%nat mu = Ok zeta6.
Proof.
  intros Hdigits. pose proof ring_positive as Hmu.
  unfold decode_watermark. rewrite bool_decide_eq_false_2 by lia.
  unfold range2. replace (mu - 1) with (Z.of_nat (length zeta6 - 1)) by lia.
  rewrite collect_ring by lia. cbn [mbind result_bind app].
  replace (0%nat :: seq 1 (length zeta6 - 1)) with (seq 0 (length zeta6))
    by (destruct (length zeta6) eqn:E; [lia|simpl; f_equal; f_equal; lia]).
  destruct (for_each_assign (fun r => default 0 (zeta6 !! Z.to_nat r)) mu
    (fun out r =>
       nr ← getitem (seq 0 (length zeta6)) r;
       match digit (deref (ring_heap zeta6) nr) with
       | None => setitem out r 0
       | Some target =>
           s ← probe_loop (S (Z.to_nat mu)) (ring_heap zeta6) mu target nr 0;
           setitem out r (s + 1)
       end) (range mu)) with (g := replicate (Z.to_nat mu) 0)
    as (out & Hrun & Hlen & Hset & _).
  - intros g r Hr%elem_of_range Hg.
    rewrite getitem_seq by lia. cbn [mbind result_bind].
    destruct (lookup_lt_is_Some_2 zeta6 (Z.to_nat r)) as [d Hd]; [lia|].
    rewrite (ring_heap_node r d) by (lia || exact Hd). rewrite Hd.
    change (default 0 (Some d)) with d. unfold ring_node. cbn [digit].
    assert (Hdr : 0 <= d <= mu).
    { rewrite Forall_forall in Hdigits. apply Hdigits.
      apply list_elem_of_lookup. exists (Z.to_nat r). exact Hd. }
    unfold digit_target. case_bool_decide as Hd0.
    + subst d. apply setitem_in. lia.
    + pose proof (probe_loop_ring r (d - 1) (S (Z.to_nat mu)) 0
                    ltac:(lia) ltac:(lia) ltac:(lia)) as Hprobe.
      rewrite Z.add_0_r, (Z.mod_small r mu) in Hprobe by lia.
      replace (r + (d - 1)) with (r + d - 1) in Hprobe by lia.
      rewrite Hprobe. simpl.
      replace (d - 1 + 1) with d by lia. apply setitem_in. lia.
  - intros r Hr%elem_of_range. exact Hr.
  - rewrite length_replicate. lia.
  - rewrite Hrun. f_equal. apply list_eq. intros i.
    destruct (decide (i < length zeta6)%nat) as [Hi|Hi].
    + specialize (Hset (Z.of_nat i) ltac:(apply elem_of_range; lia)).
      rewrite Nat2Z.id in Hset. rewrite Hset.
      destruct (lookup_lt_is_Some_2 zeta6 i Hi) as [d Hd]. rewrite Hd. reflexivity.
    + rewrite !lookup_ge_None_2; [reflexivity|lia|lia].
Qed.

End RingDecoding.

(** Graph invertibility where it holds: a non-empty digit array none of
    whose digits exceeds the ring length is decoded from its graph.  For
    base-6 digits this is every array of at least 5 digits. *)
Lemma decode_encode_long_ring (zeta6 : list Z) :
  zeta6 <> [] ->
  Forall (fun d => 0 <= d <= Z.of_nat (length zeta6)) zeta6 ->
  (e ← encode_watermark zeta6; decode_watermark e.1 e.2 (Z.of_nat (length zeta6)))
  = Ok zeta6.
Proof.
  intros Hne Hdigits. rewrite encode_watermark_spec by exact Hne. simpl.
  apply decode_ring_heap; assumption.
Qed.

(* ===================================================================== *)
(** * The round trip where it holds *)
(* ===================================================================== *)

Lemma hints_detection_spec (I P : list Z) :
  (forall p, p ∈ P -> 0 <= p < Z.of_nat (length I) / 2) ->
  exists gamma, hints_detection I P = Ok gamma
    /\ Z.of_nat (length gamma) = Z.of_nat (length I) / 2
    /\ forall p x y, p ∈ P ->
         I !! Z.to_nat (2 * p) = Some x -> I !! Z.to_nat (2 * p + 1) = Some y ->
         gamma !! Z.to_nat p = Some ((x - y) mod 2).
Proof.
  intros HP. unfold hints_detection.
  destruct (pairs_fit (Z.of_nat (length I)) ltac:(lia)) as [Hn Hfit].
  destruct (for_each_assign
    (fun p => (default 0 (I !! Z.to_nat (2 * p)) - default 0 (I !! Z.to_nat (2 * p + 1))) mod 2)
    (Z.of_nat (length I) / 2)
    (fun gamma p =>
       x ← getitem I (2 * p);
       y ← getitem I (2 * p + 1);
       setitem gamma p ((x - y) mod 2)) P)
    with (g := replicate (Z.to_nat (Z.of_nat (length I) / 2)) 0)
    as (gamma & Hrun & Hlen & Hset & _).
  - intros g p Hp Hg. specialize (HP p Hp).
    destruct (getitem_in_range I (2 * p) ltac:(lia)) as (x & Hx & ->).
    destruct (getitem_in_range I (2 * p + 1) ltac:(lia)) as (y & Hy & ->).
    simpl. rewrite Hx, Hy. simpl. apply setitem_in. lia.
  - exact HP.
  - rewrite length_replicate. lia.
  - exists gamma. split; [exact Hrun|]. split; [exact Hlen|].
    intros p x y Hp Hx Hy. rewrite (Hset p Hp), Hx, Hy. reflexivity.
Qed.

Section RoundTrip.

Variable H : list byte -> list byte -> list byte.
Variable fuel : nat.

Lemma count_votes_pos (gamma : list Z) (eta : Z) (key : list byte) (P : list Z)
    (p j : Z) (b : bool) :
  p ∈ P -> vote H fuel gamma eta key p = Some (j, b) ->
  0 < count_votes H fuel gamma eta key P j b.
Proof.
  intros Hp Hv. unfold count_votes.
  assert (Hin : p ∈ filter (fun p => vote H fuel gamma eta key p = Some (j, b)) P).
  { apply list_elem_of_filter. split; [exact Hv|exact Hp]. }
  destruct (filter _ P); [inversion Hin|simpl; lia].
Qed.

Lemma count_votes_zero (gamma : list Z) (eta : Z) (key : list byte) (P : list Z)
    (j : Z) (b : bool) :
  (forall p, p ∈ P -> vote H fuel gamma eta key p <> Some (j, b)) ->
  count_votes H fuel gamma eta key P j b = 0.
Proof.
  intros Hno. unfold count_votes.
  destruct (filter _ P) as [|p l] eqn:E; [reflexivity|].
  assert (Hin : p ∈ filter (fun p => vote H fuel gamma eta key p = Some (j, b)) P)
    by (rewrite E; left).
  apply list_elem_of_filter in Hin as [Hv Hp]. exfalso. apply (Hno p Hp Hv).
Qed.

(** What the server rebuilds from a watermarked list: when the coverage
    check passes and [0 <= zeta < 2^eta], the hints read from the list
    [prepare_parameters] returns make [code_builder] return the bits of
    [zeta], and [build_watermark_graph] returns the graph of the base-6
    digits of [zeta]. *)
Lemma build_of_prepared (params : list Z) (key : list byte) (zeta eta : Z)
    (P zeta6 : list Z) :
  _compute_permutation H fuel (Z.of_nat (length params)) key eta = Ok P ->
  0 <= zeta < 2 ^ eta ->
  int_to_digits zeta 6 = Ok zeta6 ->
  exists wm gamma,
    prepare_parameters H fuel params key zeta eta = Ok (mkPreparedInput wm P eta)
    /\ hints_detection wm P = Ok gamma
    /\ code_builder H fuel gamma eta key P = bits_from_int zeta eta
    /\ build_watermark_graph H fuel wm key eta
       = Ok (mkAuthenticationBuild (ring_heap zeta6) 0%nat P eta).
Proof.
  intros HP Hz Hz6.
  destruct (prepare_parameters_spec H fuel params key zeta eta P HP Hz)
    as (zeta2 & wm & Hbits & Hprep & Hlw & Hpairs & _).
  destruct (compute_permutation_Ok H _ _ _ _ _ HP) as (Hlen & Heta & Hperm & Hidx & Hcov).
  set (n := Z.of_nat (length params) / 2) in *.
  destruct (pairs_fit (Z.of_nat (length params)) ltac:(lia)) as [Hn Hfit]. fold n in Hn, Hfit.
  assert (HinP : forall p, p ∈ P -> 0 <= p < n).
  { intros p Hp. rewrite Hperm in Hp. apply elem_of_range in Hp. exact Hp. }
  destruct (bits_from_int_spec zeta eta ltac:(lia) Hz) as (zeta2' & Hbits' & Hlen2 & Hall2 & Hval2).
  rewrite Hbits in Hbits'. injection Hbits' as <-.
  (* the hints read back are the scattered bits *)
  destruct (hints_detection_spec wm P) as (gamma & Hgamma & Hlg & Hg).
  { rewrite Hlw. exact HinP. }
  assert (Hvote : forall p j b, p ∈ P ->
            keyed_index H fuel p eta key = Ok j -> zeta2 !! Z.to_nat j = Some b ->
            vote H fuel gamma eta key p = Some (j, bool_decide (b = 1))).
  { intros p j b Hp Hj Hb. specialize (HinP p Hp).
    destruct (lookup_lt_is_Some_2 params (Z.to_nat (2 * p))) as [x Hx]; [lia|].
    destruct (lookup_lt_is_Some_2 params (Z.to_nat (2 * p + 1))) as [y Hy]; [lia|].
    destruct (Hpairs p x y j b Hp Hx Hy Hj Hb) as (x' & y' & Hx' & Hy' & Hext).
    specialize (Hg p x' y' Hp Hx' Hy').
    unfold extract_bit_and_restore in Hext. injection Hext as Hbit _ _.
    unfold vote. rewrite Hj.
    rewrite (getitem_in gamma p _ ltac:(lia) Hg). rewrite Hbit. reflexivity. }
  (* so every position is voted unanimously *)
  destruct (code_builder_spec H fuel gamma eta key P) as (zeta2_hat & Hcb & Hlhat & Hhat).
  { intros p Hp. destruct (Hidx p Hp) as (j & Hj & _). exists j. exact Hj. }
  { intros p Hp. specialize (HinP p Hp). rewrite Hlw in Hlg. fold n in Hlg.
    destruct (getitem_in_range gamma p ltac:(lia)) as (g & _ & Hgp). exists g. exact Hgp. }
  assert (Heq : zeta2_hat = zeta2).
  { apply list_eq. intros i.
    destruct (decide (Z.of_nat i < eta)) as [Hi|Hi];
      [|rewrite !lookup_ge_None_2 by lia; reflexivity].
    specialize (Hhat (Z.of_nat i) ltac:(lia)). rewrite Nat2Z.id in Hhat. rewrite Hhat.
    destruct (lookup_lt_is_Some_2 zeta2 i ltac:(lia)) as [b Hb]. rewrite Hb. f_equal.
    destruct (Hcov (Z.of_nat i) ltac:(lia)) as (p0 & Hp0 & Hj0).
    assert (Hb01 : b = 0 \/ b = 1).
    { rewrite Forall_forall in Hall2. apply Hall2. apply list_elem_of_lookup. eauto. }
    assert (Hother : forall c, c <> bool_decide (b = 1) ->
              count_votes H fuel gamma eta key P (Z.of_nat i) c = 0).
    { intros c Hc. apply count_votes_zero. intros p Hp Hv.
      destruct (Hidx p Hp) as (j & Hj & Hjr).
      destruct (lookup_lt_is_Some_2 zeta2 (Z.to_nat j) ltac:(lia)) as [b' Hb'].
      rewrite (Hvote p j b' Hp Hj Hb') in Hv. injection Hv as -> <-.
      rewrite Nat2Z.id in Hb'. rewrite Hb in Hb'. injection Hb' as <-. contradiction. }
    pose proof (count_votes_pos gamma eta key P p0 (Z.of_nat i) (bool_decide (b = 1)) Hp0)
      as Hpos.
    rewrite (Hvote p0 (Z.of_nat i) b Hp0 Hj0) in Hpos by (rewrite Nat2Z.id; exact Hb).
    specialize (Hpos eq_refl).
    unfold resolve_bit. destruct Hb01 as [-> | ->].
    - rewrite bool_decide_eq_false_2 in Hpos by lia.
      rewrite (Hother true) by (rewrite bool_decide_eq_false_2 by lia; discriminate).
      rewrite bool_decide_eq_false_2 by lia.
      rewrite bool_decide_eq_true_2 by lia. reflexivity.
    - rewrite bool_decide_eq_true_2 in Hpos by lia.
      rewrite (Hother false) by (rewrite bool_decide_eq_true_2 by lia; discriminate).
      rewrite bool_decide_eq_true_2 by lia. reflexivity. }
  subst zeta2_hat.
  destruct (int_to_digits_spec zeta 6 ltac:(lia) ltac:(lia))
    as (zeta6' & Hz6' & Hne & _).
  rewrite Hz6 in Hz6'. injection Hz6' as <-.
  exists wm, gamma. split; [exact Hprep|]. split; [exact Hgamma|].
  split; [rewrite Hcb, Hbits; reflexivity|].
  unfold build_watermark_graph. rewrite Hlw, HP. simpl.
  rewrite Hgamma. simpl. rewrite Hcb. simpl.
  unfold base_convert_digits. rewrite Hval2. simpl. rewrite Hz6. simpl.
  rewrite encode_watermark_spec by exact Hne. reflexivity.
Qed.

(** The round trip of C1 for the codes the graph can carry: when the
    coverage check passes and [0 <= zeta < 2^eta], [prepare_parameters]
    returns, restoring gives back the original list, and, provided no base-6
    digit of [zeta] exceeds the number of its base-6 digits, the graph built
    from the watermarked list verifies against [zeta] with the recovered
    code [zeta]. *)
Lemma round_trip (params : list Z) (key : list byte) (zeta eta : Z) (P zeta6 : list Z) :
  _compute_permutation H fuel (Z.of_nat (length params)) key eta = Ok P ->
  0 <= zeta < 2 ^ eta ->
  int_to_digits zeta 6 = Ok zeta6 ->
  Forall (fun d => d <= Z.of_nat (length zeta6)) zeta6 ->
  exists prep b,
    prepare_parameters H fuel params key zeta eta = Ok prep
    /\ restore_params_from_pairs (watermarked_params prep) (permutation prep) = Ok params
    /\ build_watermark_graph H fuel (watermarked_params prep) key eta = Ok b
    /\ controller_verify (graph_heap b) (graph_head b) zeta
       = Ok (mkVerificationResult true (Some zeta) (Some zeta6) None).
Proof.
  intros HP Hz Hz6 Hsmall.
  destruct (build_of_prepared params key zeta eta P zeta6 HP Hz Hz6)
    as (wm & gamma & Hprep & _ & _ & Hbuild).
  destruct (restore_prepare H fuel params key zeta eta P HP Hz)
    as (prep & Hprep' & _ & Hrestore).
  rewrite Hprep in Hprep'. injection Hprep' as <-. simpl in Hrestore.
  destruct (int_to_digits_spec zeta 6 ltac:(lia) ltac:(lia))
    as (zeta6' & Hz6' & Hne & Hdig & Hval6 & _).
  rewrite Hz6 in Hz6'. injection Hz6' as <-.
  exists (mkPreparedInput wm P eta),
         (mkAuthenticationBuild (ring_heap zeta6) 0%nat P eta).
  split; [exact Hprep|]. split; [exact Hrestore|]. simpl. split; [exact Hbuild|].
  unfold controller_verify. rewrite bool_decide_eq_false_2 by lia.
  rewrite Hz6. cbn [mbind result_bind].
  rewrite decode_ring_heap; [|exact Hne|].
  - cbn [mbind result_bind]. rewrite Hval6. cbn [mbind result_bind].
    rewrite bool_decide_eq_true_2 by reflexivity. reflexivity.
  - rewrite Forall_forall in Hdig, Hsmall |- *. intros d Hd.
    specialize (Hdig d Hd). specialize (Hsmall d Hd). lia.
Qed.

(** Every code of at least five base-6 digits, [zeta >= 6^4], is carried. *)
Lemma long_codes_fit (zeta : Z) (zeta6 : list Z) :
  1296 <= zeta -> int_to_digits zeta 6 = Ok zeta6 ->
  Forall (fun d => d <= Z.of_nat (length zeta6)) zeta6.
Proof.
  intros Hz Hz6.
  destruct (int_to_digits_spec zeta 6 ltac:(lia) ltac:(lia))
    as (zeta6' & Hz6' & _ & Hdig & _ & Hub & _).
  rewrite Hz6 in Hz6'. injection Hz6' as <-.
  assert (Hlen : 5 <= Z.of_nat (length zeta6)).
  { destruct (Z.le_gt_cases 5 (Z.of_nat (length zeta6))) as [Hle|Hgt]; [exact Hle|].
    assert (6 ^ Z.of_nat (length zeta6) <= 6 ^ 4) by (apply Z.pow_le_mono_r; lia).
    change (6 ^ 4) with 1296 in *. lia. }
  eapply Forall_impl; [exact Hdig|]. simpl. intros d Hd. lia.
Qed.

End RoundTrip.

(** The round trip on HMAC-SHA256 for a code of five base-6 digits: the key
    of the unit tests, the parameters 1..64, [eta = 11], [zeta = 1500]. *)
Example round_trip_five_digits :
  exists prep b,
    prepare_parameters Hashlib.hmac_sha256 4 (seqZ 1 64) unit_test_key 1500 11 = Ok prep
    /\ restore_params_from_pairs (watermarked_params prep) (permutation prep)
       = Ok (seqZ 1 64)
    /\ build_watermark_graph Hashlib.hmac_sha256 4 (watermarked_params prep) unit_test_key 11
       = Ok b
    /\ controller_verify (graph_heap b) (graph_head b) 1500
       = Ok (mkVerificationResult true (Some 1500) (Some [1; 0; 5; 4; 0]) None).
Proof.
  assert (HP : exists P,
            _compute_permutation Hashlib.hmac_sha256 4
              (Z.of_nat (length (seqZ 1 64))) unit_test_key 11 = Ok P)
    by (eexists; vm_compute; reflexivity).
  destruct HP as [P HP].
  apply (round_trip Hashlib.hmac_sha256 4 (seqZ 1 64) unit_test_key 1500 11 P
           [1; 0; 5; 4; 0] HP).
  - change (2 ^ 11) with 2048. lia.
  - vm_compute. reflexivity.
  - apply (long_codes_fit 1500); [lia|vm_compute; reflexivity].
Qed.

(* ===================================================================== *)
(** * Further properties: base conversion *)
(* ===================================================================== *)

Section Digits.

Variable base : Z.
Hypothesis Hbase : 2 <= base.

Local Abbreviation digit_step := (fun acc d : Z =>
  if bool_decide (d < 0 \/ d >= base)
  then Raise (ValueError ("digit " +:+ str d +:+ " out of range for base " +:+ str base))
  else Ok (acc * base + d)).

Lemma digits_to_int_unfold (ds : list Z) :
  ds <> [] -> digits_to_int ds base = for_each digit_step ds 0.
Proof.
  intros Hne. unfold digits_to_int.
  rewrite bool_decide_eq_false_2 by lia.
  rewrite bool_decide_eq_false_2 by exact Hne. reflexivity.
Qed.

(** The accumulated value lies in the interval the digits read so far leave. *)
Lemma digits_fold_bounds (ds : list Z) (acc n : Z) :
  0 <= acc -> for_each digit_step ds acc = Ok n ->
  Forall (fun d => 0 <= d < base) ds
  /\ acc * base ^ Z.of_nat (length ds) <= n < (acc + 1) * base ^ Z.of_nat (length ds).
Proof.
  revert acc. induction ds as [|d ds IH]; intros acc Hacc Hrun; simpl in Hrun.
  - injection Hrun as <-. split; [constructor|]. simpl. lia.
  - case_bool_decide as Hd; [discriminate|]. simpl in Hrun.
    destruct (IH (acc * base + d) ltac:(nia) Hrun) as [Hall Hn].
    split; [constructor; [lia|exact Hall]|].
    replace (Z.of_nat (length (d :: ds))) with (Z.succ (Z.of_nat (length ds)))
      by (simpl; lia).
    rewrite Z.pow_succ_r by lia.
    assert (0 < base ^ Z.of_nat (length ds)) by (apply Z.pow_pos_nonneg; lia).
    nia.
Qed.

Lemma digits_fold_total (ds : list Z) (acc : Z) :
  Forall (fun d => 0 <= d < base) ds -> exists n, for_each digit_step ds acc = Ok n.
Proof.
  revert acc. induction ds as [|d ds IH]; intros acc Hall; simpl.
  - exists acc. reflexivity.
  - apply Forall_cons in Hall as [Hd Hall].
    rewrite bool_decide_eq_false_2 by lia. simpl. apply IH. exact Hall.
Qed.

Lemma digits_fold_raise (pre post : list Z) (d acc : Z) :
  Forall (fun d => 0 <= d < base) pre -> d < 0 \/ d >= base ->
  for_each digit_step (pre ++ d :: post) acc
  = Raise (ValueError ("digit " +:+ str d +:+ " out of range for base " +:+ str base)).
Proof.
  revert acc. induction pre as [|x pre IH]; intros acc Hall Hd; simpl.
  - rewrite bool_decide_eq_true_2 by exact Hd. reflexivity.
  - apply Forall_cons in Hall as [Hx Hall].
    rewrite bool_decide_eq_false_2 by lia. simpl. apply IH; assumption.
Qed.

(** Two digit lists of one length with one value are equal. *)
Lemma digits_fold_unique (ds ds' : list Z) (acc n : Z) :
  0 <= acc -> length ds = length ds' ->
  for_each digit_step ds acc = Ok n -> for_each digit_step ds' acc = Ok n -> ds = ds'.
Proof.
  revert ds' acc. induction ds as [|d ds IH]; intros [|d' ds'] acc Hacc Hlen H1 H2;
    simpl in Hlen; try discriminate; [reflexivity|].
  simpl in H1, H2.
  case_bool_decide as Hd; [discriminate|]. case_bool_decide as Hd'; [discriminate|].
  simpl in H1, H2.
  destruct (digits_fold_bounds ds (acc * base + d) n ltac:(nia) H1) as [_ B1].
  destruct (digits_fold_bounds ds' (acc * base + d') n ltac:(nia) H2) as [_ B2].
  assert (Hl : length ds = length ds') by lia. rewrite <- Hl in B2.
  assert (0 < base ^ Z.of_nat (length ds)) by (apply Z.pow_pos_nonneg; lia).
  assert (d = d') as <- by nia.
  f_equal. apply (IH ds' (acc * base + d)); [nia|exact Hl|exact H1|exact H2].
Qed.

Lemma digits_to_int_Ok (ds : list Z) (n : Z) :
  digits_to_int ds base = Ok n ->
  ds <> [] /\ Forall (fun d => 0 <= d < base) ds /\ 0 <= n < base ^ Z.of_nat (length ds).
Proof.
  intros Hrun. assert (Hne : ds <> []).
  { intros ->. unfold digits_to_int in Hrun.
    rewrite bool_decide_eq_false_2 in Hrun by lia.
    rewrite bool_decide_eq_true_2 in Hrun by reflexivity. discriminate. }
  rewrite digits_to_int_unfold in Hrun by exact Hne.
  destruct (digits_fold_bounds ds 0 n ltac:(lia) Hrun) as [Hall Hn].
  split; [exact Hne|]. split; [exact Hall|]. lia.
Qed.

(** The leading digit of a positive value with [len] digits is positive
    exactly when the value reaches [base ^ (len - 1)]. *)
Lemma leading_digit_bound (d : Z) (ds : list Z) (n : Z) :
  digits_to_int (d :: ds) base = Ok n ->
  0 < d <-> base ^ Z.of_nat (length ds) <= n.
Proof.
  intros Hrun. rewrite digits_to_int_unfold in Hrun by discriminate.
  simpl in Hrun. case_bool_decide as Hd; [discriminate|]. simpl in Hrun.
  destruct (digits_fold_bounds ds (0 * base + d) n ltac:(lia) Hrun) as [_ Hn].
  assert (0 < base ^ Z.of_nat (length ds)) by (apply Z.pow_pos_nonneg; lia).
  split; intros; nia.
Qed.

(** A digit list without leading zero is the one [int_to_digits] returns for
    its value. *)
Lemma int_to_digits_of_value (d : Z) (ds : list Z) (n : Z) :
  digits_to_int (d :: ds) base = Ok n -> d <> 0 \/ ds = [] ->
  int_to_digits n base = Ok (d :: ds).
Proof.
  intros Hrun Hlead.
  destruct (digits_to_int_Ok _ _ Hrun) as (_ & Hall & Hn).
  destruct (int_to_digits_spec n base Hbase ltac:(lia))
    as (ds' & Hds' & Hne' & Hall' & Hval' & Hub' & Hlb').
  rewrite Hds'. f_equal.
  destruct (decide (n = 0)) as [->|Hnz].
  - assert (ds' = [0]) as ->.
    { revert Hds'. unfold int_to_digits.
      rewrite bool_decide_eq_false_2 by lia. rewrite bool_decide_eq_false_2 by lia.
      rewrite bool_decide_eq_true_2 by reflexivity. intros [= <-]. reflexivity. }
    pose proof (proj1 (leading_digit_bound d ds 0 Hrun)) as Hld.
    apply Forall_cons in Hall as [Hd _].
    assert (0 < base ^ Z.of_nat (length ds)) by (apply Z.pow_pos_nonneg; lia).
    assert (d = 0) as -> by lia.
    destruct Hlead as [? | ->]; [contradiction|reflexivity].
  - specialize (Hlb' ltac:(lia)).
    assert (Hd : 0 < d).
    { apply Forall_cons in Hall as [Hd _].
      destruct Hlead as [? | ->]; [lia|].
      rewrite digits_to_int_unfold in Hrun by discriminate. simpl in Hrun.
      rewrite bool_decide_eq_false_2 in Hrun by lia. simpl in Hrun.
      injection Hrun as <-. lia. }
    apply (leading_digit_bound d ds n Hrun) in Hd.
    assert (Hlen : length ds' = length (d :: ds)).
    { simpl in Hn |- *.
      destruct (Nat.lt_trichotomy (length ds') (S (length ds))) as [Hlt|[Heq|Hgt]];
        [|exact Heq|].
      - assert (base ^ Z.of_nat (length ds') <= base ^ Z.of_nat (length ds))
          by (apply Z.pow_le_mono_r; lia). lia.
      - assert (base ^ Z.of_nat (S (length ds)) <= base ^ (Z.of_nat (length ds') - 1))
          by (apply Z.pow_le_mono_r; lia). lia. }
    rewrite digits_to_int_unfold in Hval', Hrun by (exact Hne' || discriminate).
    apply (digits_fold_unique ds' (d :: ds) 0 n); [lia|exact Hlen|exact Hval'|exact Hrun].
Qed.

End Digits.

Lemma digits_to_int_strip (k : nat) (ds : list Z) (base : Z) :
  ds <> [] -> digits_to_int (replicate k 0 ++ ds) base = digits_to_int ds base.
Proof.
  intros Hne. unfold digits_to_int. case_bool_decide as Hb; [reflexivity|].
  rewrite (bool_decide_eq_false_2 (ds = [])) by exact Hne.
  rewrite bool_decide_eq_false_2.
  - rewrite for_each_app.
    assert (Hz : for_each (fun acc d =>
        if bool_decide (d < 0 \/ d >= base)
        then Raise (ValueError ("digit " +:+ str d +:+ " out of range for base " +:+ str base))
        else Ok (acc * base + d)) (replicate k 0) 0 = Ok 0).
    { induction k as [|k IH]; simpl; [reflexivity|].
      rewrite bool_decide_eq_false_2 by lia. simpl. exact IH. }
    rewrite Hz. reflexivity.
  - destruct ds; [contradiction|]. intros Hnil.
    apply (f_equal (@length Z)) in Hnil. rewrite length_app in Hnil. simpl in Hnil. lia.
Qed.

(** X1.  For [base >= 2] and [n >= 0], [int_to_digits(n, base)] returns the
    canonical digit list of [n]: digits of [base], read back by
    [digits_to_int] as [n]; it is [[0]] for [n = 0], and for [n > 0] its
    leading digit is positive and its length [len] is the number of digits,
    [base^(len-1) <= n < base^len]. *)
Theorem X1_int_to_digits_canonical (n base : Z) :
  2 <= base -> 0 <= n ->
  exists ds,
    int_to_digits n base = Ok ds
    /\ Forall (fun d => 0 <= d < base) ds
    /\ digits_to_int ds base = Ok n
    /\ (n = 0 -> ds = [0])
    /\ (0 < n ->
        (exists d rest, ds = d :: rest /\ 0 < d)
        /\ base ^ (Z.of_nat (length ds) - 1) <= n < base ^ Z.of_nat (length ds)).
Proof.
  intros Hbase Hn.
  destruct (int_to_digits_spec n base Hbase Hn) as (ds & Hds & Hne & Hall & Hval & Hub & Hlb).
  exists ds. split; [exact Hds|]. split; [exact Hall|]. split; [exact Hval|]. split.
  - intros ->. revert Hds. unfold int_to_digits.
    rewrite bool_decide_eq_false_2 by lia. rewrite bool_decide_eq_false_2 by lia.
    rewrite bool_decide_eq_true_2 by reflexivity. intros [= <-]. reflexivity.
  - intros Hpos. specialize (Hlb Hpos). split; [|lia].
    destruct ds as [|d rest]; [contradiction|].
    exists d, rest. split; [reflexivity|].
    apply (leading_digit_bound base Hbase d rest n Hval).
    simpl in Hlb. replace (Z.of_nat (S (length rest)) - 1) with (Z.of_nat (length rest)) in Hlb
      by lia. exact Hlb.
Qed.

Lemma X1_int_to_digits_canonical_witness :
  exists ds, int_to_digits 424242 6 = Ok ds /\ digits_to_int ds 6 = Ok 424242.
Proof.
  destruct (X1_int_to_digits_canonical 424242 6 ltac:(lia) ltac:(lia))
    as (ds & Hds & _ & Hval & _).
  exists ds. split; [exact Hds|exact Hval].
Defined.

(** X2.  [int_to_digits] raises exactly when [base < 2] or [n < 0].
    [digits_to_int] raises exactly when [base < 2], the list is empty, or a
    digit lies outside [0, base); the exception names the first such digit.
    Neither runs forever. *)
Theorem X2_conversion_errors (n base : Z) (ds : list Z) :
  ((exists e, int_to_digits n base = Raise e) <-> base < 2 \/ n < 0)
  /\ ((exists e, digits_to_int ds base = Raise e)
      <-> base < 2 \/ ds = [] \/ Exists (fun d => d < 0 \/ d >= base) ds)
  /\ (forall pre d post, 2 <= base -> ds = pre ++ d :: post ->
        Forall (fun d => 0 <= d < base) pre -> d < 0 \/ d >= base ->
        digits_to_int ds base
        = Raise (ValueError ("digit " +:+ str d +:+ " out of range for base " +:+ str base)))
  /\ int_to_digits n base <> Diverge
  /\ digits_to_int ds base <> Diverge.
Proof.
  split; [|split; [|split; [|split]]].
  - unfold int_to_digits. repeat case_bool_decide; split;
      try (intros [e He]; discriminate); try (intros _; eexists; reflexivity);
      try (intros [?|?]; lia); intros; lia.
  - split.
    + intros [e He].
      destruct (decide (base < 2)) as [?|Hb]; [auto|].
      destruct (decide (ds = [])) as [?|Hne]; [auto|].
      right. right.
      destruct (decide (Exists (fun d => d < 0 \/ d >= base) ds)) as [Hex|Hnex]; [exact Hex|].
      exfalso.
      assert (Hall' : Forall (fun d => 0 <= d < base) ds).
      { apply Forall_forall. intros d Hd.
        destruct (decide (0 <= d < base)) as [Hok|Hbad]; [exact Hok|].
        exfalso. apply Hnex. apply Exists_exists. exists d. split; [exact Hd|lia]. }
      destruct (digits_fold_total base ds 0 Hall') as [v Hv].
      rewrite (digits_to_int_unfold base ltac:(lia) ds Hne) in He. congruence.
    + intros [Hb|[->|Hex]].
      * unfold digits_to_int. rewrite bool_decide_eq_true_2 by exact Hb. eexists. reflexivity.
      * unfold digits_to_int. case_bool_decide; [eexists; reflexivity|].
        rewrite bool_decide_eq_true_2 by reflexivity. eexists. reflexivity.
      * destruct (decide (base < 2)) as [Hb|Hb].
        { unfold digits_to_int. rewrite bool_decide_eq_true_2 by exact Hb.
          eexists. reflexivity. }
        destruct (digits_to_int ds base) as [v|e|] eqn:E.
        -- apply (digits_to_int_Ok base ltac:(lia)) in E as (_ & Hall & _).
           exfalso. apply Exists_exists in Hex as (d & Hd & Hbad).
           rewrite Forall_forall in Hall. specialize (Hall d Hd). lia.
        -- eexists. reflexivity.
        -- exfalso. apply (digits_to_int_not_Diverge ds base E).
  - intros pre d post Hb -> Hpre Hd.
    rewrite (digits_to_int_unfold base Hb) by (destruct pre; discriminate).
    apply digits_fold_raise; assumption.
  - unfold int_to_digits. repeat case_bool_decide; discriminate.
  - apply digits_to_int_not_Diverge.
Qed.

(** X3.  [int_to_digits] undoes [digits_to_int] up to leading zeros: when
    [digits_to_int] reads a list made of some zeros followed by [d :: rest],
    where [d <> 0] or [rest] is empty, as the value [n], then
    [int_to_digits(n, base)] is [d :: rest]. *)
Theorem X3_int_to_digits_of_digits (base : Z) (k : nat) (d : Z) (rest : list Z) (n : Z) :
  2 <= base ->
  digits_to_int (replicate k 0 ++ d :: rest) base = Ok n ->
  d <> 0 \/ rest = [] ->
  int_to_digits n base = Ok (d :: rest).
Proof.
  intros Hbase Hrun Hlead.
  rewrite digits_to_int_strip in Hrun by discriminate.
  apply (int_to_digits_of_value base Hbase d rest n Hrun Hlead).
Qed.

Lemma X3_int_to_digits_of_digits_witness :
  int_to_digits 424242 6 = Ok [1; 3; 0; 3; 2; 0; 3; 0].
Proof.
  apply (X3_int_to_digits_of_digits 6 2 1 [3; 0; 3; 2; 0; 3; 0] 424242).
  - lia.
  - vm_compute. reflexivity.
  - left. discriminate.
Defined.

(** X4.  [bits_from_int(n, eta)] returns exactly when [eta > 0] and
    [0 <= n < 2^eta]; it then returns [eta] bits, each 0 or 1, which
    [int_from_bits] reads back as [n].  Otherwise it raises: "eta must be > 0"
    for [eta <= 0], else "n must be non-negative" for [n < 0], else
    "eta too small to represent n". *)
Theorem X4_bits_from_int_exact (n eta : Z) :
  (eta <= 0 -> bits_from_int n eta = Raise (ValueError "eta must be > 0"))
  /\ (0 < eta -> n < 0 -> bits_from_int n eta = Raise (ValueError "n must be non-negative"))
  /\ (0 < eta -> 2 ^ eta <= n ->
      bits_from_int n eta = Raise (ValueError "eta too small to represent n"))
  /\ (0 < eta -> 0 <= n < 2 ^ eta ->
      exists bits, bits_from_int n eta = Ok bits
        /\ Z.of_nat (length bits) = eta
        /\ Forall (fun b => b = 0 \/ b = 1) bits
        /\ int_from_bits bits = Ok n)
  /\ ((exists bits, bits_from_int n eta = Ok bits) <-> 0 < eta /\ 0 <= n < 2 ^ eta).
Proof.
  assert (H1 : eta <= 0 -> bits_from_int n eta = Raise (ValueError "eta must be > 0")).
  { intros He. unfold bits_from_int. rewrite bool_decide_eq_true_2 by exact He. reflexivity. }
  assert (H2 : 0 < eta -> n < 0 ->
               bits_from_int n eta = Raise (ValueError "n must be non-negative")).
  { intros He Hn. unfold bits_from_int, int_to_digits.
    rewrite bool_decide_eq_false_2 by lia. rewrite bool_decide_eq_false_2 by lia.
    rewrite bool_decide_eq_true_2 by exact Hn. reflexivity. }
  assert (H3 : 0 < eta -> 2 ^ eta <= n ->
               bits_from_int n eta = Raise (ValueError "eta too small to represent n")).
  { intros He Hn. apply bits_from_int_too_large; assumption. }
  split; [exact H1|]. split; [exact H2|]. split; [exact H3|]. split.
  - intros He Hn. destruct (bits_from_int_spec n eta He Hn) as (bits & Hb & Hl & Hall & Hv).
    exists bits. auto.
  - split.
    + intros [bits Hb].
      destruct (Z.le_gt_cases eta 0) as [He|He]; [rewrite H1 in Hb by exact He; discriminate|].
      destruct (Z.lt_ge_cases n 0) as [Hneg|Hpos];
        [rewrite H2 in Hb by assumption; discriminate|].
      destruct (Z.lt_ge_cases n (2 ^ eta)) as [Hlt|Hge]; [lia|].
      rewrite H3 in Hb by lia. discriminate.
    + intros [He Hn]. destruct (bits_from_int_spec n eta He Hn) as (bits & Hb & _).
      exists bits. exact Hb.
Qed.

(** X5.  [base_convert_digits(digits, base_from, base_to)] keeps the value:
    when [digits] reads as [n] in [base_from] and [base_to >= 2], the result
    reads as [n] in [base_to] and is the canonical digit list of [n].
    Converting back returns the digits one started from whenever they have
    no leading zero. *)
Theorem X5_base_convert_digits_value (ds : list Z) (base_from base_to n : Z) :
  digits_to_int ds base_from = Ok n -> 2 <= base_to ->
  exists out,
    base_convert_digits ds base_from base_to = Ok out
    /\ int_to_digits n base_to = Ok out
    /\ digits_to_int out base_to = Ok n
    /\ (forall d rest, ds = d :: rest -> d <> 0 \/ rest = [] ->
          base_convert_digits out base_to base_from = Ok ds).
Proof.
  intros Hval Hto.
  assert (Hfrom : 2 <= base_from).
  { unfold digits_to_int in Hval. case_bool_decide; [discriminate|lia]. }
  destruct (digits_to_int_Ok base_from Hfrom ds n Hval) as (_ & _ & Hn).
  destruct (int_to_digits_spec n base_to Hto ltac:(lia)) as (out & Hout & _ & _ & Hback & _).
  exists out. unfold base_convert_digits. rewrite Hval. simpl.
  split; [exact Hout|]. split; [exact Hout|]. split; [exact Hback|].
  intros d rest -> Hlead. rewrite Hback. simpl.
  apply (int_to_digits_of_value base_from Hfrom d rest n Hval Hlead).
Qed.

Lemma X5_base_convert_digits_value_witness :
  exists out,
    base_convert_digits [1; 0; 1; 1] 2 6 = Ok out
    /\ base_convert_digits out 6 2 = Ok [1; 0; 1; 1].
Proof.
  destruct (X5_base_convert_digits_value [1; 0; 1; 1] 2 6 11)
    as (out & Hconv & _ & _ & Hback).
  - vm_compute. reflexivity.
  - lia.
  - exists out. split; [exact Hconv|].
    apply (Hback 1 [0; 1; 1] eq_refl). left. discriminate.
Defined.

(* ===================================================================== *)
(** * Further properties: difference expansion *)
(* ===================================================================== *)

(** X6.  For a bit [b] in {0, 1}, [embed_bit(x, y, b)] moves the pair apart
    by its own difference: the result is
    [(x + floor((x - y) / 2) + b, y - ceil((x - y) / 2))].  Hence the
    difference becomes [2 (x - y) + b], whose parity is the bit, the integer
    mean [floor((x + y) / 2)] is kept, and a pair of equal numbers changes by
    the bit alone. *)
Theorem X6_embed_bit_closed_form (x y b : Z) :
  b = 0 \/ b = 1 ->
  exists emb,
    embed_bit x y b = Ok emb
    /\ x_embedded emb = x + _floor_div2 (x - y) + b
    /\ y_embedded emb = y - _ceil_div2 (x - y)
    /\ x_embedded emb - y_embedded emb = 2 * (x - y) + b
    /\ (x_embedded emb - y_embedded emb) mod 2 = b
    /\ _floor_div2 (x_embedded emb + y_embedded emb) = _floor_div2 (x + y)
    /\ (x = y -> emb = mkEmbeddedPair (x + b) y).
Proof.
  intros Hb. unfold embed_bit. rewrite bool_decide_eq_false_2 by lia.
  eexists. split; [reflexivity|]. cbn [x_embedded y_embedded].
  unfold _floor_div2, _ceil_div2.
  split; [|split; [|split; [|split; [|split]]]].
  1-5: destruct Hb; subst b; Z.to_euclidean_division_equations; lia.
  intros ->. f_equal; destruct Hb; subst b; Z.to_euclidean_division_equations; lia.
Qed.

Lemma X6_embed_bit_closed_form_witness :
  exists emb, embed_bit 10 3 1 = Ok emb /\ x_embedded emb - y_embedded emb = 15.
Proof.
  destruct (X6_embed_bit_closed_form 10 3 1 ltac:(lia)) as (emb & He & _ & _ & Hd & _).
  exists emb. split; [exact He|exact Hd].
Defined.

(* ===================================================================== *)
(** * Further properties: keyed sampling *)
(* ===================================================================== *)

Section Sampling.

Variable H : list byte -> list byte -> list byte.

(** X7.  [keyed_index(p, eta, key)] raises only for [eta <= 0].  For
    [eta > 0] a returned index lies in [0, eta): it is the first draw
    [r < limit] reduced modulo [eta], every earlier draw having been
    rejected, and a larger budget of draws returns the same index.  For
    [eta > 2^64] the bound [limit] is 0, no draw is ever accepted, and the
    loop does not end. *)
Theorem X7_keyed_index_sampling (fuel : nat) (p eta : Z) (key : list byte) :
  (eta <= 0 -> keyed_index H fuel p eta key = Raise (ValueError "eta must be > 0"))
  /\ (0 < eta -> forall e, keyed_index H fuel p eta key <> Raise e)
  /\ (forall j, keyed_index H fuel p eta key = Ok j ->
        0 <= j < eta
        /\ (exists c, 0 <= c < Z.of_nat fuel
              /\ hmac64 H key (keyed_index_msg p c) < reject_limit eta
              /\ (forall k, 0 <= k < c ->
                    reject_limit eta <= hmac64 H key (keyed_index_msg p k))
              /\ j = hmac64 H key (keyed_index_msg p c) mod eta)
        /\ (forall fuel', (fuel <= fuel')%nat -> keyed_index H fuel' p eta key = Ok j))
  /\ (2 ^ 64 < eta -> keyed_index H fuel p eta key = Diverge).
Proof.
  split; [apply keyed_index_nonpos|]. split; [|split].
  - intros Heta e. unfold keyed_index. rewrite bool_decide_eq_false_2 by lia.
    intros Hrun.
    destruct (rejection_loop fuel _ _ 0) as [[r c]|e'|] eqn:E; simpl in Hrun;
      try discriminate.
    apply rejection_loop_not_Raise in E. exact E.
  - intros j Hj. split; [apply (keyed_index_Ok H fuel p eta key j Hj)|].
    revert Hj. unfold keyed_index. case_bool_decide as Heta; [discriminate|].
    intros Hrun. apply bind_Ok in Hrun as ([r c'] & Hloop & [= <-]).
    pose proof (rejection_loop_Ok_inv _ _ _ _ _ _ Hloop) as (Hr & Hc & Hdraw).
    pose proof (rejection_loop_first _ _ _ _ _ _ Hloop) as (Hf & Hrej).
    split.
    + exists (c' - 1). unfold reject_limit. rewrite <- Hdraw.
      split; [lia|]. split; [exact Hr|]. split; [|reflexivity].
      intros k Hk. apply Hrej. lia.
    + intros fuel' Hle. rewrite (rejection_loop_more_fuel fuel fuel' _ _ _ _ Hle Hloop).
      reflexivity.
  - intros Hbig. unfold keyed_index. rewrite bool_decide_eq_false_2 by lia.
    rewrite rejection_loop_never; [reflexivity|].
    intros k. pose proof (hmac64_range H key (keyed_index_msg p k)) as Hr.
    change (Z.shiftl 1 64) with (2 ^ 64). rewrite Z.mod_small by lia. lia.
Qed.

(** X8.  [keyed_permutation(seed, n)] raises "n must be >= 0" for [n < 0] and
    nothing else.  Its loop runs over the positions [0 .. n-2] and swaps
    position [i] with a position [j <= i], so the last position is never
    touched: a returned permutation maps [n - 1] to itself.  For [n <= 2] it
    is the identity, with a single draw at most. *)
Theorem X8_keyed_permutation_last_fixed (fuel : nat) (seed : list byte) (n : Z) :
  (n < 0 -> keyed_permutation H fuel seed n = Raise (ValueError "n must be >= 0"))
  /\ (forall P, keyed_permutation H fuel seed n = Ok P -> 1 <= n ->
        P !! Z.to_nat (n - 1) = Some (n - 1))
  /\ (0 <= n <= 2 -> (1 <= fuel)%nat -> keyed_permutation H fuel seed n = Ok (range n)).
Proof.
  split; [|split].
  - intros Hn. unfold keyed_permutation. rewrite bool_decide_eq_true_2 by exact Hn.
    reflexivity.
  - intros P Hrun Hn. revert Hrun. unfold keyed_permutation.
    rewrite bool_decide_eq_false_2 by lia.
    intros Hrun. apply bind_Ok in Hrun as ([P' c] & Hrun & [= ->]).
    revert Hrun.
    apply (for_each_inv (fun st : list Z * Z =>
             Z.of_nat (length st.1) = n /\ st.1 !! Z.to_nat (n - 1) = Some (n - 1))).
    + intros [P0 c0] i [P1 c1] Hi%elem_of_range [Hlen Hlast] Hbody. simpl in *.
      apply bind_Ok in Hbody as ([r c'] & _ & Hbody).
      apply bind_Ok in Hbody as (Pj & _ & Hbody).
      apply bind_Ok in Hbody as (Pi & _ & Hbody).
      pose proof (Z.mod_pos_bound r (i + 1) ltac:(lia)) as Hj.
      rewrite setitem_in in Hbody by lia. simpl in Hbody.
      rewrite setitem_in in Hbody by (rewrite length_insert; lia). simpl in Hbody.
      injection Hbody as <- <-.
      split; [rewrite !length_insert; exact Hlen|].
      rewrite !list_lookup_insert_ne by lia. exact Hlast.
    + simpl. split; [rewrite length_range; lia|].
      unfold range. rewrite lookup_seqZ_lt by lia. f_equal; lia.
  - intros Hn Hfuel. unfold keyed_permutation. rewrite bool_decide_eq_false_2 by lia.
    destruct (decide (n = 2)) as [->|Hne].
    + destruct fuel as [|fuel']; [lia|].
      change (range (2 - 1)) with [0]. cbn [for_each mbind result_bind rejection_loop].
      pose proof (hmac64_range H seed (keyed_permutation_label 0 0)) as Hr.
      rewrite bool_decide_eq_true_2
        by (change (Z.shiftl 1 64 - Z.shiftl 1 64 mod (0 + 1)) with (2 ^ 64); lia).
      cbn [mbind result_bind]. rewrite Z.mod_1_r. reflexivity.
    + assert (Hr : range (n - 1) = []).
      { unfold range. assert (n = 0 \/ n = 1) as [-> | ->] by lia; reflexivity. }
      rewrite Hr. reflexivity.
Qed.

End Sampling.

Lemma digits_to_int_inj (base : Z) (ds ds' : list Z) (n : Z) :
  2 <= base -> length ds = length ds' ->
  digits_to_int ds base = Ok n -> digits_to_int ds' base = Ok n -> ds = ds'.
Proof.
  intros Hbase Hlen H1 H2.
  destruct (digits_to_int_Ok base Hbase ds n H1) as (Hne & _).
  destruct (digits_to_int_Ok base Hbase ds' n H2) as (Hne' & _).
  rewrite (digits_to_int_unfold base Hbase ds Hne) in H1.
  rewrite (digits_to_int_unfold base Hbase ds' Hne') in H2.
  apply (digits_fold_unique base Hbase ds ds' 0 n ltac:(lia) Hlen H1 H2).
Qed.

Lemma digits_to_int_total (base : Z) (ds : list Z) :
  2 <= base -> ds <> [] -> Forall (fun d => 0 <= d < base) ds ->
  exists n, digits_to_int ds base = Ok n.
Proof.
  intros Hbase Hne Hall. rewrite (digits_to_int_unfold base Hbase ds Hne).
  apply digits_fold_total. exact Hall.
Qed.

(* ===================================================================== *)
(** * Further properties: the watermark graph *)
(* ===================================================================== *)

Lemma follow_next_ring (zeta6 : list Z) (k : nat) (a : Z) :
  0 <= a < Z.of_nat (length zeta6) ->
  follow_next (ring_heap zeta6) k (Z.to_nat a)
  = Some (Z.to_nat ((a + Z.of_nat k) mod Z.of_nat (length zeta6))).
Proof.
  revert a. induction k as [|k IH]; intros a Ha.
  - simpl. rewrite Z.add_0_r, Z.mod_small by lia. reflexivity.
  - cbn [follow_next]. rewrite ring_heap_next by exact Ha.
    rewrite IH by (apply Z.mod_pos_bound; lia).
    rewrite Zplus_mod_idemp_l. do 2 f_equal. f_equal. lia.
Qed.

Lemma decoded_digit_range (mu d : Z) : 0 < mu -> 0 <= decoded_digit mu d <= mu.
Proof.
  intros Hmu. unfold decoded_digit. case_bool_decide; [lia|].
  pose proof (Z.mod_pos_bound (d - 1) mu Hmu). lia.
Qed.

Lemma decoded_digit_fixed (mu d : Z) : 0 < mu -> decoded_digit mu d = d <-> 0 <= d <= mu.
Proof.
  intros Hmu. unfold decoded_digit. case_bool_decide as Hd; [lia|].
  pose proof (Z.mod_pos_bound (d - 1) mu Hmu). split.
  - intros Heq. lia.
  - intros Hr. rewrite Z.mod_small by lia. lia.
Qed.

Lemma ring_heap_decoded (zeta6 : list Z) :
  zeta6 <> [] ->
  ring_heap (map (decoded_digit (Z.of_nat (length zeta6))) zeta6) = ring_heap zeta6.
Proof.
  intros Hne. pose proof (ring_positive zeta6 Hne) as Hmu.
  unfold ring_heap. rewrite length_map.
  change (map ?f ?l) with (f <$> l). rewrite imap_fmap.
  apply imap_ext. intros i d Hd. unfold compose. f_equal.
  unfold digit_target, decoded_digit.
  pose proof (Z.mod_pos_bound (d - 1) (Z.of_nat (length zeta6)) Hmu).
  destruct (bool_decide (d = 0)) eqn:E.
  - rewrite bool_decide_eq_true_2 by reflexivity. reflexivity.
  - rewrite bool_decide_eq_false_2 by lia. do 2 f_equal.
    replace (Z.of_nat i + ((d - 1) mod Z.of_nat (length zeta6) + 1) - 1)
      with (Z.of_nat i + (d - 1) mod Z.of_nat (length zeta6)) by lia.
    rewrite Zplus_mod_idemp_r. f_equal. lia.
Qed.

Lemma decode_ring_heap_any (zeta6 : list Z) :
  zeta6 <> [] ->
  decode_watermark (ring_heap zeta6) 0%nat (Z.of_nat (length zeta6))
  = Ok (map (decoded_digit (Z.of_nat (length zeta6))) zeta6).
Proof.
  intros Hne. pose proof (ring_positive zeta6 Hne) as Hmu.
  rewrite <- (ring_heap_decoded zeta6 Hne).
  rewrite <- (length_map (decoded_digit (Z.of_nat (length zeta6))) zeta6) at 2.
  apply decode_ring_heap.
  - destruct zeta6; [contradiction|discriminate].
  - rewrite length_map. apply Forall_forall. intros d Hd.
    apply list_elem_of_fmap in Hd as (d0 & -> & _).
    apply decoded_digit_range. exact Hmu.
Qed.

(** X9.  [encode_watermark] raises for the empty digit array and otherwise
    returns node 0 of a heap of [mu = len(zeta6)] nodes whose [next] pointers
    form one cycle through all of them: [k] steps from node [a] lead to node
    [(a + k) mod mu].  The [digit] pointer of node [r] is [None] for the digit
    0 and otherwise the node [(d - 1) mod mu] steps ahead of [r]. *)
Theorem X9_encode_watermark_ring (zeta6 : list Z) :
  let mu := Z.of_nat (length zeta6) in
  ((exists e, encode_watermark zeta6 = Raise e) <-> zeta6 = [])
  /\ (zeta6 <> [] ->
      exists h, encode_watermark zeta6 = Ok (h, 0%nat)
        /\ length h = length zeta6
        /\ (forall (a k : nat), (a < length zeta6)%nat ->
              follow_next h k a = Some (Z.to_nat ((Z.of_nat a + Z.of_nat k) mod mu)))
        /\ (forall (r : nat) d, zeta6 !! r = Some d ->
              digit (deref h r)
              = if bool_decide (d = 0) then None
                else follow_next h (Z.to_nat ((d - 1) mod mu)) r)).
Proof.
  intros mu. split.
  - split.
    + intros [e He]. destruct (decide (zeta6 = [])) as [?|Hne]; [assumption|].
      rewrite encode_watermark_spec in He by exact Hne. discriminate.
    + intros ->. eexists. reflexivity.
  - intros Hne. pose proof (ring_positive zeta6 Hne) as Hmu.
    exists (ring_heap zeta6). split; [apply encode_watermark_spec; exact Hne|].
    split; [unfold ring_heap; apply length_imap|]. split.
    + intros a k Ha.
      rewrite <- (Nat2Z.id a) at 1. apply follow_next_ring. lia.
    + intros r d Hd. pose proof (lookup_lt_Some _ _ _ Hd) as Hr.
      pose proof (ring_heap_node zeta6 (Z.of_nat r) d ltac:(lia)) as Hnode.
      rewrite Nat2Z.id in Hnode. rewrite (Hnode Hd). unfold ring_node. cbn [digit].
      unfold digit_target. case_bool_decide; [reflexivity|].
      rewrite <- (Nat2Z.id r) at 2. rewrite follow_next_ring by lia.
      pose proof (Z.mod_pos_bound (d - 1) mu Hmu).
      rewrite Z2Nat.id by lia. fold mu. rewrite Zplus_mod_idemp_r.
      do 2 f_equal. f_equal. lia.
Qed.

(** X10.  Decoding the graph of a non-empty digit array [zeta6] with its own
    length [mu] returns, digit by digit, 0 for 0 and [(d - 1) mod mu + 1]
    otherwise.  So decoding is the inverse of encoding exactly on the arrays
    whose digits all lie in [0, mu]; a larger digit comes back reduced into
    [1, mu]. *)
Theorem X10_decode_encode_formula (zeta6 : list Z) :
  zeta6 <> [] ->
  let mu := Z.of_nat (length zeta6) in
  (e ← encode_watermark zeta6; decode_watermark e.1 e.2 mu)
  = Ok (map (decoded_digit mu) zeta6)
  /\ ((e ← encode_watermark zeta6; decode_watermark e.1 e.2 mu) = Ok zeta6
      <-> Forall (fun d => 0 <= d <= mu) zeta6).
Proof.
  intros Hne mu. pose proof (ring_positive zeta6 Hne) as Hmu.
  assert (Hrun : (e ← encode_watermark zeta6; decode_watermark e.1 e.2 mu)
                 = Ok (map (decoded_digit mu) zeta6)).
  { rewrite encode_watermark_spec by exact Hne. cbn [mbind result_bind fst snd].
    apply decode_ring_heap_any. exact Hne. }
  split; [exact Hrun|]. rewrite Hrun. split.
  - intros [= Heq]. apply Forall_forall. intros d Hd.
    apply list_elem_of_lookup in Hd as [i Hi].
    apply (f_equal (fun l => l !! i)) in Heq.
    change (map ?f ?l) with (f <$> l) in Heq.
    rewrite list_lookup_fmap, Hi in Heq. simpl in Heq. injection Heq as Heq.
    apply (decoded_digit_fixed mu d Hmu). exact Heq.
  - intros Hall. f_equal. apply list_eq. intros i.
    change (map ?f ?l) with (f <$> l). rewrite list_lookup_fmap.
    destruct (zeta6 !! i) as [d|] eqn:Hi; [|reflexivity]. simpl. f_equal.
    apply (decoded_digit_fixed mu d Hmu).
    rewrite Forall_forall in Hall. apply Hall. apply list_elem_of_lookup. eauto.
Qed.

Lemma X10_decode_encode_formula_witness :
  (e ← encode_watermark [5; 0; 7]; decode_watermark e.1 e.2 3) = Ok [2; 0; 1].
Proof.
  exact (proj1 (X10_decode_encode_formula [5; 0; 7] ltac:(discriminate))).
Defined.

Lemma for_each_Raise_inv {A S : Type} (Inv : S -> Prop) (body : S -> A -> result S)
    (xs : list A) :
  (forall s x s', x ∈ xs -> Inv s -> body s x = Ok s' -> Inv s') ->
  forall st e, Inv st -> for_each body xs st = Raise e ->
  exists s x, x ∈ xs /\ Inv s /\ body s x = Raise e.
Proof.
  induction xs as [|x xs IH]; intros Hstep st e Hst; simpl; [discriminate|].
  destruct (body st x) as [s1|e1|] eqn:E; simpl.
  - intros Hrun. destruct (IH (fun s y s' Hy => Hstep s y s' (list_elem_of_further _ _ _ Hy))
                             s1 e (Hstep st x s1 (list_elem_of_here _ _) Hst E) Hrun)
      as (s & y & Hy & Hs & Hb).
    exists s, y. split; [right; exact Hy|]. split; assumption.
  - intros [= ->]. exists st, x. split; [left|]. split; assumption.
  - discriminate.
Qed.

(** A loop whose body assigns [w p] at index [p], where [w p] may raise. *)
Lemma for_each_assign_inv {S : Type} (w : Z -> result S) (n : Z)
    (body : list S -> Z -> result (list S)) (P : list Z) :
  (forall g p, p ∈ P -> Z.of_nat (length g) = n ->
     body g p = (x ← w p; setitem g p x)) ->
  (forall p, p ∈ P -> 0 <= p < n) ->
  forall g g', Z.of_nat (length g) = n -> for_each body P g = Ok g' ->
  Z.of_nat (length g') = n
  /\ (forall p, p ∈ P -> exists x, w p = Ok x /\ g' !! Z.to_nat p = Some x)
  /\ (forall k, (forall p, p ∈ P -> Z.to_nat p <> k) -> g' !! k = g !! k).
Proof.
  induction P as [|p P IH]; intros Hbody Hin g g' Hg; simpl.
  - intros [= <-]. split; [exact Hg|]. split; [|reflexivity].
    intros p Hp. inversion Hp.
  - rewrite (Hbody g p (list_elem_of_here _ _) Hg).
    pose proof (Hin p (list_elem_of_here _ _)) as Hp.
    destruct (w p) as [x|e|] eqn:Hw; simpl; try discriminate.
    rewrite setitem_in by lia. simpl. intros Hrun.
    destruct (IH (fun g0 q Hq => Hbody g0 q (list_elem_of_further _ _ _ Hq))
                 (fun q Hq => Hin q (list_elem_of_further _ _ _ Hq))
                 (<[Z.to_nat p := x]> g) g' ltac:(rewrite length_insert; exact Hg) Hrun)
      as (Hlen & Hset & Hrest).
    split; [exact Hlen|]. split.
    + intros q Hq. apply elem_of_cons in Hq as [->|Hq]; [|apply Hset; exact Hq].
      destruct (decide (p ∈ P)) as [HpP|HpP].
      * apply Hset. exact HpP.
      * exists x. split; [exact Hw|]. rewrite Hrest.
        -- apply list_lookup_insert_eq. lia.
        -- intros q Hq Heq. apply HpP.
           assert (q = p) as <-; [|exact Hq].
           pose proof (Hin q (list_elem_of_further _ _ _ Hq)). lia.
    + intros k Hk. rewrite Hrest.
      * apply list_lookup_insert_ne. apply Hk. left.
      * intros q Hq. apply Hk. right. exact Hq.
Qed.

Section AnyHeap.

Variable h : list Node.

Local Abbreviation walk_step := (fun '(nodes, cur) (_ : Z) =>
  match next (deref h cur) with
  | None => Raise (ValueError "invalid structure (broken ring)")
  | Some cur' => Ok (nodes ++ [cur'], cur')
  end).

Lemma walk_nodes (xs : list Z) (nodes : list nat) (cur : nat) (nodes' : list nat)
    (cur' : nat) :
  for_each walk_step xs (nodes, cur) = Ok (nodes', cur') ->
  length nodes' = (length nodes + length xs)%nat
  /\ (forall i, (i < length nodes)%nat -> nodes' !! i = nodes !! i)
  /\ (forall i, (i < length xs)%nat ->
        nodes' !! (length nodes + i)%nat = follow_next h (S i) cur).
Proof.
  revert nodes cur. induction xs as [|x xs IH]; intros nodes cur; simpl.
  - intros [= <- <-]. split; [lia|]. split; [reflexivity|]. intros i Hi. lia.
  - destruct (next (deref h cur)) as [c1|] eqn:E; simpl; [|discriminate].
    intros Hrun. destruct (IH _ _ Hrun) as (Hlen & Hold & Hnew).
    rewrite length_app in Hlen, Hold, Hnew. simpl in Hlen, Hold, Hnew.
    split; [lia|]. split.
    + intros i Hi. rewrite Hold by lia. apply lookup_app_l. exact Hi.
    + intros [|i] Hi.
      * rewrite Hold by lia. rewrite Nat.add_0_r.
        rewrite lookup_app_r by lia. rewrite Nat.sub_diag. reflexivity.
      * replace (length nodes + S i)%nat with (length nodes + 1 + i)%nat by lia.
        rewrite Hnew by lia. reflexivity.
Qed.

Lemma walk_nodes_Raise (xs : list Z) (st : list nat * nat) (e : exn) :
  for_each walk_step xs st = Raise e ->
  e = ValueError "invalid structure (broken ring)".
Proof.
  revert st. induction xs as [|x xs IH]; intros [nodes cur]; simpl; [discriminate|].
  destruct (next (deref h cur)) as [c1|]; simpl.
  - apply IH.
  - intros [= <-]. reflexivity.
Qed.

Lemma probe_loop_Ok (k : nat) (mu : Z) (target probe : nat) (s s' : Z) :
  probe_loop k h mu target probe s = Ok s' ->
  s <= s' /\ (s <= mu -> s' <= mu)
  /\ follow_next h (Z.to_nat (s' - s)) probe = Some target
  /\ (forall i, (i < Z.to_nat (s' - s))%nat -> follow_next h i probe <> Some target).
Proof.
  revert probe s. induction k as [|k IH]; intros probe s; simpl.
  - case_bool_decide as Hp; [discriminate|]. intros [= <-].
    rewrite Z.sub_diag. simpl. split; [lia|]. split; [lia|].
    split; [f_equal; first [exact Hp | apply dec_stable; exact Hp]|]. intros i Hi. lia.
  - case_bool_decide as Hp.
    + destruct (next (deref h probe)) as [q|] eqn:E; [|discriminate].
      case_bool_decide as Hs; [discriminate|]. intros Hrun.
      destruct (IH _ _ Hrun) as (Hle & Hmu & Hreach & Hleast).
      split; [lia|]. split; [lia|].
      replace (Z.to_nat (s' - s)) with (S (Z.to_nat (s' - (s + 1)))) by lia.
      split.
      * cbn [follow_next]. rewrite E. exact Hreach.
      * intros [|i] Hi.
        -- simpl. intros [= Heq]. contradiction.
        -- cbn [follow_next]. rewrite E. apply Hleast. lia.
    + intros [= <-]. rewrite Z.sub_diag. simpl. split; [lia|]. split; [lia|].
      split; [f_equal; first [exact Hp | apply dec_stable; exact Hp]|]. intros i Hi. lia.
Qed.

Lemma probe_loop_Raise (k : nat) (mu : Z) (target probe : nat) (s : Z) (e : exn) :
  probe_loop k h mu target probe s = Raise e ->
  e = ValueError "invalid structure (broken ring)"
  \/ e = ValueError "invalid structure (unreachable digit)".
Proof.
  revert probe s. induction k as [|k IH]; intros probe s; simpl.
  - case_bool_decide; discriminate.
  - case_bool_decide; [|discriminate].
    destruct (next (deref h probe)) as [q|]; [|intros [= <-]; left; reflexivity].
    case_bool_decide; [intros [= <-]; right; reflexivity|]. apply IH.
Qed.

(** X11.  [decode_watermark] on an arbitrary heap: it always ends; it raises
    only "mu must be > 0" (exactly for [mu <= 0]), "broken ring" or
    "unreachable digit"; and when it returns, the list has [mu] entries, and
    entry [r] describes the node [a] reached by [r] steps from the head: it
    is 0 if [a] has no digit pointer, and otherwise [s + 1] with
    [0 <= s <= mu] the least number of steps from [a] to the node its digit
    pointer names. *)
Theorem X11_decode_watermark_any_heap (head : nat) (mu : Z) :
  decode_watermark h head mu <> Diverge
  /\ ((mu <= 0 -> decode_watermark h head mu = Raise (ValueError "mu must be > 0"))
  /\ (forall e, decode_watermark h head mu = Raise e ->
        (e = ValueError "mu must be > 0" /\ mu <= 0)
        \/ e = ValueError "invalid structure (broken ring)"
        \/ e = ValueError "invalid structure (unreachable digit)")
  /\ (forall zs, decode_watermark h head mu = Ok zs ->
        0 < mu /\ Z.of_nat (length zs) = mu
        /\ forall (r : nat) d, zs !! r = Some d ->
             exists a, follow_next h r head = Some a
               /\ match digit (deref h a) with
                  | None => d = 0
                  | Some t =>
                      1 <= d <= mu + 1
                      /\ follow_next h (Z.to_nat (d - 1)) a = Some t
                      /\ forall i, (i < Z.to_nat (d - 1))%nat ->
                           follow_next h i a <> Some t
                  end)).
Proof.
  split; [apply decode_watermark_not_Diverge|].
  split.
  { intros Hmu. unfold decode_watermark. rewrite bool_decide_eq_true_2 by exact Hmu.
    reflexivity. }
  unfold decode_watermark. case_bool_decide as Hmu.
  { split; [intros e [= <-]; left; split; [reflexivity|exact Hmu]|discriminate]. }
  destruct (for_each _ (range2 1 mu) ([head], head)) as [[nodes cur]|e1|] eqn:Hwalk;
    cbn [mbind result_bind].
  2: { split; [|discriminate]. intros e [= <-]. right. left.
       apply (walk_nodes_Raise _ _ _ Hwalk). }
  2: { split; discriminate. }
  apply walk_nodes in Hwalk as (Hlen & Hold & Hnew).
  unfold range2 in Hlen, Hnew. rewrite length_seqZ in Hlen, Hnew. simpl in Hlen, Hold, Hnew.
  assert (Hnodes : forall r : nat, Z.of_nat r < mu -> nodes !! r = follow_next h r head).
  { intros [|r] Hr; [apply (Hold 0%nat); lia|]. apply (Hnew r). lia. }
  set (w := fun r : Z =>
         nr ← getitem nodes r;
         match digit (deref h nr) with
         | None => Ok 0
         | Some target => s ← probe_loop (S (Z.to_nat mu)) h mu target nr 0; Ok (s + 1)
         end).
  assert (Hbody : forall g p, p ∈ range mu -> Z.of_nat (length g) = mu ->
            (nr ← getitem nodes p;
             match digit (deref h nr) with
             | None => setitem g p 0
             | Some target =>
                 s ← probe_loop (S (Z.to_nat mu)) h mu target nr 0; setitem g p (s + 1)
             end) = (x ← w p; setitem g p x)).
  { intros g p _ _. unfold w.
    destruct (getitem nodes p) as [nr|e|]; cbn [mbind result_bind]; try reflexivity.
    destruct (digit (deref h nr)) as [t|]; cbn [mbind result_bind]; [|reflexivity].
    destruct (probe_loop (S (Z.to_nat mu)) h mu t nr 0); reflexivity. }
  assert (Hw : forall p, 0 <= p < mu ->
            exists a, follow_next h (Z.to_nat p) head = Some a /\ getitem nodes p = Ok a).
  { intros p Hp. destruct (getitem_in_range nodes p ltac:(lia)) as (a & Ha & Hget).
    exists a. split; [|exact Hget]. rewrite <- Hnodes by lia. exact Ha. }
  split.
  - intros e Hrun.
    apply (for_each_Raise_inv (fun g => Z.of_nat (length g) = mu)) in Hrun
      as (g & p & Hp & Hg & Hraise).
    + rewrite (Hbody g p Hp Hg) in Hraise. apply elem_of_range in Hp.
      destruct (Hw p Hp) as (a & _ & Hget). unfold w in Hraise. rewrite Hget in Hraise.
      cbn [mbind result_bind] in Hraise.
      destruct (digit (deref h a)) as [t|].
      * destruct (probe_loop (S (Z.to_nat mu)) h mu t a 0) as [s|e'|] eqn:Hprobe;
          cbn [mbind result_bind] in Hraise.
        -- rewrite setitem_in in Hraise by lia. discriminate.
        -- injection Hraise as <-. right. apply (probe_loop_Raise _ _ _ _ _ _ Hprobe).
        -- discriminate.
      * cbn [mbind result_bind] in Hraise.
        rewrite setitem_in in Hraise by lia. discriminate.
    + intros g p g' Hp Hg Hstep. rewrite (Hbody g p Hp Hg) in Hstep.
      apply bind_Ok in Hstep as (x & _ & Hset).
      rewrite (setitem_length _ _ _ _ Hset). exact Hg.
    + rewrite length_replicate. lia.
  - intros zs Hrun. split; [lia|].
    apply (for_each_assign_inv w mu _ (range mu) Hbody) in Hrun as (Hlz & Hset & _).
    2: { intros p Hp%elem_of_range. exact Hp. }
    2: { rewrite length_replicate. lia. }
    split; [exact Hlz|]. intros r d Hd.
    pose proof (lookup_lt_Some _ _ _ Hd) as Hr.
    destruct (Hset (Z.of_nat r) ltac:(apply elem_of_range; lia)) as (x & Hx & Hzs).
    rewrite Nat2Z.id in Hzs. rewrite Hd in Hzs. injection Hzs as <-.
    destruct (Hw (Z.of_nat r) ltac:(lia)) as (a & Ha & Hget). rewrite Nat2Z.id in Ha.
    exists a. split; [exact Ha|]. unfold w in Hx. rewrite Hget in Hx.
    cbn [mbind result_bind] in Hx.
    destruct (digit (deref h a)) as [t|]; [|injection Hx as <-; reflexivity].
    apply bind_Ok in Hx as (s & Hprobe & [= <-]).
    apply probe_loop_Ok in Hprobe as (Hs0 & Hsmu & Hreach & Hleast).
    rewrite Z.sub_0_r in Hreach, Hleast.
    replace (s + 1 - 1) with s by lia.
    split; [lia|]. split; [exact Hreach|exact Hleast].
Qed.

End AnyHeap.

Lemma map_decoded_digit_fixed (mu : Z) (l : list Z) :
  0 < mu -> map (decoded_digit mu) l = l <-> Forall (fun d => 0 <= d <= mu) l.
Proof.
  intros Hmu. induction l as [|d l IH]; simpl.
  - split; [constructor|reflexivity].
  - rewrite Forall_cons. rewrite <- IH, <- (decoded_digit_fixed mu d Hmu). split.
    + intros [= Hd Hl]. split; assumption.
    + intros [Hd Hl]. rewrite Hd, Hl. reflexivity.
Qed.

Lemma decoded_digit_le (mu d : Z) : 0 < mu -> 0 <= d -> 0 <= decoded_digit mu d <= d.
Proof.
  intros Hmu Hd. unfold decoded_digit. case_bool_decide; [lia|].
  pose proof (Z.mod_pos_bound (d - 1) mu Hmu).
  pose proof (Z.mod_le (d - 1) mu ltac:(lia) Hmu). lia.
Qed.

(** The controller on the ring of the expected code's own digits. *)
Lemma controller_verify_ring (zeta : Z) (zeta6 : list Z) :
  0 <= zeta -> int_to_digits zeta 6 = Ok zeta6 ->
  exists vr,
    controller_verify (ring_heap zeta6) 0%nat zeta = Ok vr
    /\ error vr = None
    /\ recovered_zeta6 vr = Some (map (decoded_digit (Z.of_nat (length zeta6))) zeta6)
    /\ (is_authentic vr = true
        <-> Forall (fun d => d <= Z.of_nat (length zeta6)) zeta6).
Proof.
  intros Hz Hz6.
  destruct (int_to_digits_spec zeta 6 ltac:(lia) Hz)
    as (zeta6' & Hz6' & Hne & Hdig & Hval & _).
  rewrite Hz6 in Hz6'. injection Hz6' as <-.
  pose proof (ring_positive zeta6 Hne) as Hmu.
  set (mu := Z.of_nat (length zeta6)) in *.
  destruct (digits_to_int_total 6 (map (decoded_digit mu) zeta6)) as [z' Hz'].
  { lia. }
  { destruct zeta6; [contradiction|discriminate]. }
  { apply Forall_forall. intros d Hd. apply list_elem_of_fmap in Hd as (d0 & -> & Hd0).
    rewrite Forall_forall in Hdig. specialize (Hdig d0 Hd0).
    pose proof (decoded_digit_le mu d0 Hmu ltac:(lia)). lia. }
  exists (mkVerificationResult (bool_decide (z' = zeta)) (Some z')
            (Some (map (decoded_digit mu) zeta6)) None).
  split; [|split; [reflexivity|split; [reflexivity|]]].
  - unfold controller_verify. rewrite bool_decide_eq_false_2 by lia.
    rewrite Hz6. cbn [mbind result_bind]. fold mu.
    unfold mu at 1. rewrite decode_ring_heap_any by exact Hne. fold mu.
    cbn [mbind result_bind]. rewrite Hz'. reflexivity.
  - cbn [is_authentic]. rewrite bool_decide_eq_true. split.
    + intros ->.
      assert (Heq : map (decoded_digit mu) zeta6 = zeta6).
      { apply (digits_to_int_inj 6 _ _ zeta ltac:(lia)); [apply length_map|exact Hz'|exact Hval]. }
      apply (map_decoded_digit_fixed mu zeta6 Hmu) in Heq.
      eapply Forall_impl; [exact Heq|]. simpl. intros d Hd. lia.
    + intros Hall.
      assert (Heq : map (decoded_digit mu) zeta6 = zeta6).
      { apply (map_decoded_digit_fixed mu zeta6 Hmu).
        rewrite Forall_forall in Hall, Hdig |- *. intros d Hd.
        specialize (Hall d Hd). specialize (Hdig d Hd). lia. }
      rewrite Heq in Hz'. congruence.
Qed.

(** X12.  The controller on the graph of the expected code itself: for every
    [zeta >= 0], [controller_verify] applied to [encode_watermark] of the
    base-6 digits of [zeta] returns a result without an error, and it is
    authentic exactly when no base-6 digit of [zeta] exceeds the number of
    those digits.  This holds for every [zeta >= 6^4]; a smaller code with a
    digit larger than its digit count is reported as not authentic even
    though nothing was altered. *)
Theorem X12_controller_verify_encoded (zeta : Z) :
  0 <= zeta ->
  exists zeta6 vr,
    int_to_digits zeta 6 = Ok zeta6
    /\ (e ← encode_watermark zeta6; controller_verify e.1 e.2 zeta) = Ok vr
    /\ error vr = None
    /\ recovered_zeta6 vr = Some (map (decoded_digit (Z.of_nat (length zeta6))) zeta6)
    /\ (is_authentic vr = true
        <-> Forall (fun d => d <= Z.of_nat (length zeta6)) zeta6)
    /\ (1296 <= zeta -> is_authentic vr = true).
Proof.
  intros Hz.
  destruct (int_to_digits_spec zeta 6 ltac:(lia) Hz) as (zeta6 & Hz6 & Hne & _).
  destruct (controller_verify_ring zeta zeta6 Hz Hz6) as (vr & Hrun & Herr & Hrec & Hauth).
  exists zeta6, vr. split; [exact Hz6|]. split.
  { rewrite encode_watermark_spec by exact Hne. exact Hrun. }
  split; [exact Herr|]. split; [exact Hrec|]. split; [exact Hauth|].
  intros Hbig. apply Hauth. apply (long_codes_fit zeta zeta6 Hbig Hz6).
Qed.

Lemma X12_controller_verify_encoded_witness :
  exists vr,
    (e ← encode_watermark [5]; controller_verify e.1 e.2 5) = Ok vr
    /\ is_authentic vr = false.
Proof.
  destruct (X12_controller_verify_encoded 5 ltac:(lia))
    as (zeta6 & vr & Hz6 & Hrun & _ & _ & Hauth & _).
  vm_compute in Hz6. injection Hz6 as <-.
  exists vr. split; [exact Hrun|].
  destruct (is_authentic vr); [|reflexivity].
  exfalso. apply proj1 in Hauth. specialize (Hauth eq_refl).
  apply Forall_inv in Hauth. simpl in Hauth. lia.
Defined.

(* ===================================================================== *)
(** * Further properties: the encoder *)
(* ===================================================================== *)

Lemma extract_determines (x' y' b x y : Z) :
  extract_bit_and_restore x' y' = (b, (x, y)) ->
  x' = x + _floor_div2 (x - y) + b /\ y' = y - _ceil_div2 (x - y) /\ (b = 0 \/ b = 1).
Proof.
  unfold extract_bit_and_restore, _floor_div2, _ceil_div2.
  intros [= Hb Hx Hy]. revert Hb Hx Hy.
  Z.to_euclidean_division_equations. lia.
Qed.

Lemma extract_difference (x' y' : Z) :
  let r := extract_bit_and_restore x' y' in
  r.1 = (x' - y') mod 2
  /\ r.2.1 - r.2.2 = _floor_div2 (x' - y')
  /\ _floor_div2 (r.2.1 + r.2.2) = _floor_div2 (x' + y').
Proof.
  unfold extract_bit_and_restore, _floor_div2, _ceil_div2. cbn [fst snd].
  split; [reflexivity|]. split; Z.to_euclidean_division_equations; lia.
Qed.

Lemma hints_detection_full (I P : list Z) :
  (forall p, p ∈ P -> 0 <= p < Z.of_nat (length I) / 2) ->
  exists gamma, hints_detection I P = Ok gamma
    /\ Z.of_nat (length gamma) = Z.of_nat (length I) / 2
    /\ (forall p x y, p ∈ P ->
         I !! Z.to_nat (2 * p) = Some x -> I !! Z.to_nat (2 * p + 1) = Some y ->
         gamma !! Z.to_nat p = Some ((x - y) mod 2))
    /\ (forall k : nat, Z.of_nat k < Z.of_nat (length I) / 2 ->
         (forall p, p ∈ P -> Z.to_nat p <> k) -> gamma !! k = Some 0).
Proof.
  intros HP. unfold hints_detection.
  destruct (pairs_fit (Z.of_nat (length I)) ltac:(lia)) as [Hn Hfit].
  destruct (for_each_assign
    (fun p => (default 0 (I !! Z.to_nat (2 * p)) - default 0 (I !! Z.to_nat (2 * p + 1))) mod 2)
    (Z.of_nat (length I) / 2)
    (fun gamma p =>
       x ← getitem I (2 * p);
       y ← getitem I (2 * p + 1);
       setitem gamma p ((x - y) mod 2)) P)
    with (g := replicate (Z.to_nat (Z.of_nat (length I) / 2)) 0)
    as (gamma & Hrun & Hlen & Hset & Hrest).
  - intros g p Hp Hg. specialize (HP p Hp).
    destruct (getitem_in_range I (2 * p) ltac:(lia)) as (x & Hx & ->).
    destruct (getitem_in_range I (2 * p + 1) ltac:(lia)) as (y & Hy & ->).
    simpl. rewrite Hx, Hy. simpl. apply setitem_in. lia.
  - exact HP.
  - rewrite length_replicate. lia.
  - exists gamma. split; [exact Hrun|]. split; [exact Hlen|]. split.
    + intros p x y Hp Hx Hy. rewrite (Hset p Hp), Hx, Hy. reflexivity.
    + intros k Hk Hout. rewrite (Hrest k Hout). apply lookup_replicate_2. lia.
Qed.

(** X13.  For pair indices [P] within the list, [hints_detection(I, P)]
    returns one hint per pair of [I]: the parity of [x - y] for each pair
    named in [P], and 0 for every other pair; every hint is 0 or 1.  Read
    from a pair made by [embed_bit], the hint is the embedded bit. *)
Theorem X13_hints_detection_parities (I P : list Z) :
  (forall p, p ∈ P -> 0 <= p < Z.of_nat (length I) / 2) ->
  exists gamma, hints_detection I P = Ok gamma
    /\ Z.of_nat (length gamma) = Z.of_nat (length I) / 2
    /\ Forall (fun g => g = 0 \/ g = 1) gamma
    /\ (forall p x y, p ∈ P ->
         I !! Z.to_nat (2 * p) = Some x -> I !! Z.to_nat (2 * p + 1) = Some y ->
         gamma !! Z.to_nat p = Some ((x - y) mod 2)
         /\ forall x0 y0 b emb, embed_bit x0 y0 b = Ok emb ->
              x = x_embedded emb -> y = y_embedded emb ->
              gamma !! Z.to_nat p = Some b)
    /\ (forall k : nat, Z.of_nat k < Z.of_nat (length I) / 2 ->
         (forall p, p ∈ P -> Z.to_nat p <> k) -> gamma !! k = Some 0).
Proof.
  intros HP. destruct (hints_detection_full I P HP) as (gamma & Hrun & Hlen & Hset & Hrest).
  destruct (pairs_fit (Z.of_nat (length I)) ltac:(lia)) as [Hn Hfit].
  exists gamma. split; [exact Hrun|]. split; [exact Hlen|]. split; [|split; [|exact Hrest]].
  - apply Forall_lookup. intros k g Hg. pose proof (lookup_lt_Some _ _ _ Hg) as Hk.
    destruct (decide (Z.of_nat k ∈ P)) as [Hin|Hout].
    + specialize (HP _ Hin).
      destruct (lookup_lt_is_Some_2 I (Z.to_nat (2 * Z.of_nat k))) as [x Hx]; [lia|].
      destruct (lookup_lt_is_Some_2 I (Z.to_nat (2 * Z.of_nat k + 1))) as [y Hy]; [lia|].
      pose proof (Hset _ x y Hin Hx Hy) as Hv. rewrite Nat2Z.id, Hg in Hv.
      injection Hv as ->. pose proof (Z.mod_pos_bound (x - y) 2 ltac:(lia)). lia.
    + rewrite Hrest in Hg; [injection Hg as <-; left; reflexivity|lia|].
      intros p Hp Heq. apply Hout. specialize (HP p Hp).
      replace (Z.of_nat k) with p by lia. exact Hp.
  - intros p x y Hp Hx Hy. split; [apply (Hset p x y Hp Hx Hy)|].
    intros x0 y0 b emb Hemb -> ->. rewrite (Hset p _ _ Hp Hx Hy). f_equal.
    revert Hemb. unfold embed_bit. case_bool_decide as Hb; [discriminate|].
    intros [= <-]. cbn [x_embedded y_embedded]. unfold _floor_div2, _ceil_div2.
    assert (b = 0 \/ b = 1) as [-> | ->] by lia; Z.to_euclidean_division_equations; lia.
Qed.

Lemma X13_hints_detection_parities_witness :
  exists gamma, hints_detection [0; 2; 3; 4; 4; 6] [0; 1; 2] = Ok gamma
    /\ Forall (fun g => g = 0 \/ g = 1) gamma.
Proof.
  destruct (X13_hints_detection_parities [0; 2; 3; 4; 4; 6] [0; 1; 2])
    as (gamma & Hrun & _ & Hbits & _).
  - intros p Hp. change (Z.of_nat (length [0; 2; 3; 4; 4; 6]) / 2) with 3.
    apply elem_of_three in Hp as [-> | [-> | ->]]; lia.
  - exists gamma. split; [exact Hrun|exact Hbits].
Defined.

(** X14.  For a duplicate-free list [P] of pair indices within the list,
    [restore_params_from_pairs] returns a list of the same length in which
    each pair named in [P] is replaced by what [extract_bit_and_restore]
    restores from it, so its difference is halved (rounding down) and its
    integer mean is kept, and every other position is as received. *)
Theorem X14_restore_pairs (n : Z) (P I : list Z) :
  NoDup P -> (forall p, p ∈ P -> 0 <= p < n) -> 2 * n <= Z.of_nat (length I) ->
  exists I', restore_params_from_pairs I P = Ok I'
    /\ length I' = length I
    /\ (forall p x y, p ∈ P ->
          I !! Z.to_nat (2 * p) = Some x -> I !! Z.to_nat (2 * p + 1) = Some y ->
          exists x0 y0,
            I' !! Z.to_nat (2 * p) = Some x0 /\ I' !! Z.to_nat (2 * p + 1) = Some y0
            /\ extract_bit_and_restore x y = ((x - y) mod 2, (x0, y0))
            /\ x0 - y0 = _floor_div2 (x - y)
            /\ _floor_div2 (x0 + y0) = _floor_div2 (x + y))
    /\ (forall k, (forall p, p ∈ P -> k <> Z.to_nat (2 * p) /\ k <> Z.to_nat (2 * p + 1)) ->
          I' !! k = I !! k).
Proof.
  intros Hnd Hin Hlen.
  destruct (restore_params_from_pairs_spec n P I Hnd Hin Hlen)
    as (I' & Hrun & HlI & Hset & Hoth).
  exists I'. split; [exact Hrun|]. split; [exact HlI|]. split; [|exact Hoth].
  intros p x y Hp Hx Hy. destruct (Hset p x y Hp Hx Hy) as [Hx0 Hy0].
  pose proof (extract_difference x y) as (Hb & Hd & Hm). cbn zeta in Hb, Hd, Hm.
  destruct (extract_bit_and_restore x y) as [b [x0 y0]]. cbn [fst snd] in *.
  exists x0, y0. split; [exact Hx0|]. split; [exact Hy0|].
  split; [rewrite Hb; reflexivity|]. split; assumption.
Qed.

Lemma X14_restore_pairs_witness :
  exists I', restore_params_from_pairs [0; 2; 3; 4; 4; 6; 7] [2; 0] = Ok I'
    /\ length I' = 7%nat.
Proof.
  destruct (X14_restore_pairs 3 [2; 0] [0; 2; 3; 4; 4; 6; 7]) as (I' & Hrun & Hlen & _).
  - apply NoDup_cons. split; [|apply NoDup_singleton].
    intros Hin. apply list_elem_of_singleton in Hin. discriminate.
  - intros p Hp. apply elem_of_cons in Hp as [-> | Hp]; [lia|].
    apply list_elem_of_singleton in Hp as ->. lia.
  - simpl. lia.
  - exists I'. split; [exact Hrun|exact Hlen].
Defined.

Lemma resolve_bit_bit (H : list byte -> list byte -> list byte) (key : list byte)
    (j o z : Z) :
  resolve_bit H key j o z = 0 \/ resolve_bit H key j o z = 1.
Proof.
  unfold resolve_bit, keyed_bit. repeat case_bool_decide; try lia.
  pose proof (Z.mod_pos_bound (hmac64 H key (encode_utf8 (chaos_msg j o z))) 2 ltac:(lia)).
  lia.
Qed.

Section Pipeline.

Variable H : list byte -> list byte -> list byte.
Variable fuel : nat.

(** What [build_watermark_graph] does with any list whose length passes the
    checks of [_compute_permutation]: nothing on its way can raise. *)
Lemma build_watermark_graph_any (received : list Z) (key : list byte) (eta : Z)
    (P : list Z) :
  _compute_permutation H fuel (Z.of_nat (length received)) key eta = Ok P ->
  exists gamma zeta2_hat zeta_hat zeta6_hat,
    hints_detection received P = Ok gamma
    /\ code_builder H fuel gamma eta key P = Ok zeta2_hat
    /\ Z.of_nat (length zeta2_hat) = eta
    /\ Forall (fun b => b = 0 \/ b = 1) zeta2_hat
    /\ digits_to_int zeta2_hat 2 = Ok zeta_hat
    /\ 0 <= zeta_hat < 2 ^ eta
    /\ int_to_digits zeta_hat 6 = Ok zeta6_hat
    /\ build_watermark_graph H fuel received key eta
       = Ok (mkAuthenticationBuild (ring_heap zeta6_hat) 0%nat P eta).
Proof.
  intros HP.
  destruct (compute_permutation_Ok H _ _ _ _ _ HP) as (Hlen & Heta & Hperm & Hidx & _).
  assert (HinP : forall p, p ∈ P -> 0 <= p < Z.of_nat (length received) / 2).
  { intros p Hp. rewrite Hperm in Hp. apply elem_of_range in Hp. exact Hp. }
  destruct (hints_detection_full received P HinP) as (gamma & Hgamma & Hlg & _).
  destruct (code_builder_spec H fuel gamma eta key P) as (zeta2_hat & Hcb & Hlhat & Hhat).
  { intros p Hp. destruct (Hidx p Hp) as (j & Hj & _). exists j. exact Hj. }
  { intros p Hp. specialize (HinP p Hp).
    destruct (getitem_in_range gamma p ltac:(lia)) as (g & _ & Hgp). exists g. exact Hgp. }
  assert (Hbits : Forall (fun b => b = 0 \/ b = 1) zeta2_hat).
  { apply Forall_lookup. intros i b Hb. pose proof (lookup_lt_Some _ _ _ Hb) as Hi.
    specialize (Hhat (Z.of_nat i) ltac:(lia)). rewrite Nat2Z.id, Hb in Hhat.
    injection Hhat as ->. apply resolve_bit_bit. }
  destruct (digits_to_int_total 2 zeta2_hat) as [zeta_hat Hval].
  { lia. }
  { intros ->. simpl in Hlhat. lia. }
  { eapply Forall_impl; [exact Hbits|]. simpl. intros b Hb. lia. }
  destruct (digits_to_int_Ok 2 ltac:(lia) zeta2_hat zeta_hat Hval) as (_ & _ & Hrange).
  rewrite Hlhat, Z2Nat.id in Hrange by lia.
  destruct (int_to_digits_spec zeta_hat 6 ltac:(lia) ltac:(lia))
    as (zeta6_hat & Hz6 & Hne & _).
  exists gamma, zeta2_hat, zeta_hat, zeta6_hat.
  split; [exact Hgamma|]. split; [exact Hcb|]. split; [lia|]. split; [exact Hbits|].
  split; [exact Hval|]. split; [exact Hrange|]. split; [exact Hz6|].
  unfold build_watermark_graph. rewrite HP. cbn [mbind result_bind].
  rewrite Hgamma. cbn [mbind result_bind]. rewrite Hcb. cbn [mbind result_bind].
  unfold base_convert_digits. rewrite Hval. cbn [mbind result_bind].
  rewrite Hz6. cbn [mbind result_bind].
  rewrite encode_watermark_spec by exact Hne. reflexivity.
Qed.

(** X15.  What [prepare_parameters] writes: when the coverage check passes
    and [0 <= zeta < 2^eta], it returns the permutation of the check and a
    list of the same length in which every pair [(x, y)] carries the bit [b]
    of [zeta] at the pair's keyed index, as
    [(x + floor((x - y) / 2) + b, y - ceil((x - y) / 2))]; a trailing unpaired
    element is as given. *)
Theorem X15_prepare_embeds_bits (params : list Z) (key : list byte) (zeta eta : Z)
    (P : list Z) :
  _compute_permutation H fuel (Z.of_nat (length params)) key eta = Ok P ->
  0 <= zeta < 2 ^ eta ->
  exists zeta2 wm,
    bits_from_int zeta eta = Ok zeta2
    /\ prepare_parameters H fuel params key zeta eta = Ok (mkPreparedInput wm P eta)
    /\ length wm = length params
    /\ (forall p x y, 0 <= p < Z.of_nat (length params) / 2 ->
          params !! Z.to_nat (2 * p) = Some x -> params !! Z.to_nat (2 * p + 1) = Some y ->
          exists j b,
            keyed_index H fuel p eta key = Ok j /\ zeta2 !! Z.to_nat j = Some b
            /\ wm !! Z.to_nat (2 * p) = Some (x + _floor_div2 (x - y) + b)
            /\ wm !! Z.to_nat (2 * p + 1) = Some (y - _ceil_div2 (x - y)))
    /\ (forall k : nat, 2 * (Z.of_nat (length params) / 2) <= Z.of_nat k ->
          wm !! k = params !! k).
Proof.
  intros HP Hz.
  destruct (prepare_parameters_spec H fuel params key zeta eta P HP Hz)
    as (zeta2 & wm & Hbits & Hprep & Hlw & Hpairs & Hother).
  destruct (compute_permutation_Ok H _ _ _ _ _ HP) as (Hlen & Heta & Hperm & Hidx & _).
  destruct (bits_from_int_spec zeta eta ltac:(lia) Hz) as (zeta2' & Hbits' & Hlen2 & _).
  rewrite Hbits in Hbits'. injection Hbits' as <-.
  exists zeta2, wm. split; [exact Hbits|]. split; [exact Hprep|]. split; [exact Hlw|].
  split.
  - intros p x y Hp Hx Hy.
    assert (HpP : p ∈ P) by (rewrite Hperm; apply elem_of_range; exact Hp).
    destruct (Hidx p HpP) as (j & Hj & Hjr).
    destruct (lookup_lt_is_Some_2 zeta2 (Z.to_nat j)) as [b Hb]; [lia|].
    destruct (Hpairs p x y j b HpP Hx Hy Hj Hb) as (x' & y' & Hx' & Hy' & Hext).
    apply extract_determines in Hext as (-> & -> & _).
    exists j, b. split; [exact Hj|]. split; [exact Hb|]. split; assumption.
  - intros k Hk. apply Hother. intros p Hp.
    rewrite Hperm in Hp. apply elem_of_range in Hp. lia.
Qed.

(** X16.  Restoring undoes preparing, for every code: when the coverage check
    passes and [0 <= zeta < 2^eta], [prepare] returns a list from which
    [restore_params_from_pairs], with the permutation of the check, returns
    exactly the original parameters. *)
Theorem X16_restore_undoes_prepare (params : list Z) (key : list byte) (zeta eta : Z)
    (P : list Z) :
  _compute_permutation H fuel (Z.of_nat (length params)) key eta = Ok P ->
  0 <= zeta < 2 ^ eta ->
  exists w,
    prepare H fuel params key zeta eta = Ok w
    /\ length w = length params
    /\ restore_params_from_pairs w P = Ok params.
Proof.
  intros HP Hz.
  destruct (restore_prepare H fuel params key zeta eta P HP Hz)
    as (prep & Hprep & HPp & Hrestore).
  destruct (prepare_parameters_Ok H _ _ _ _ _ _ Hprep) as (_ & _ & _ & _ & Hlen).
  exists (watermarked_params prep). unfold prepare. rewrite Hprep.
  split; [reflexivity|]. split; [exact Hlen|]. rewrite <- HPp. exact Hrestore.
Qed.

(** X17.  The server reads the code back from a prepared list, for every
    code: when the coverage check passes and [0 <= zeta < 2^eta], the hints
    detected in the list [prepare] returns make [code_builder] return exactly
    the [eta] bits of [zeta], and [build_watermark_graph] returns the graph
    that [encode_watermark] makes of the base-6 digits of [zeta], with the
    permutation of the check. *)
Theorem X17_build_recovers_code (params : list Z) (key : list byte) (zeta eta : Z)
    (P : list Z) :
  _compute_permutation H fuel (Z.of_nat (length params)) key eta = Ok P ->
  0 <= zeta < 2 ^ eta ->
  exists w gamma zeta6 b,
    prepare H fuel params key zeta eta = Ok w
    /\ hints_detection w P = Ok gamma
    /\ code_builder H fuel gamma eta key P = bits_from_int zeta eta
    /\ int_to_digits zeta 6 = Ok zeta6
    /\ build_watermark_graph H fuel w key eta = Ok b
    /\ encode_watermark zeta6 = Ok (graph_heap b, graph_head b)
    /\ build_permutation b = P /\ build_eta b = eta.
Proof.
  intros HP Hz.
  destruct (int_to_digits_spec zeta 6 ltac:(lia) ltac:(lia)) as (zeta6 & Hz6 & Hne & _).
  destruct (build_of_prepared H fuel params key zeta eta P zeta6 HP Hz Hz6)
    as (wm & gamma & Hprep & Hgamma & Hcb & Hbuild).
  exists wm, gamma, zeta6, (mkAuthenticationBuild (ring_heap zeta6) 0%nat P eta).
  unfold prepare. rewrite Hprep.
  split; [reflexivity|]. split; [exact Hgamma|]. split; [exact Hcb|].
  split; [exact Hz6|]. split; [exact Hbuild|].
  split; [apply encode_watermark_spec; exact Hne|]. split; reflexivity.
Qed.

(** X18.  The verdict on an untouched prepared list: when the coverage check
    passes and [0 <= zeta < 2^eta], the graph built from the list [prepare]
    returns is verified against [zeta] without an error, and it is found
    authentic exactly when no base-6 digit of [zeta] exceeds the number of
    those digits; this is so for every [zeta >= 6^4]. *)
Theorem X18_verdict_on_prepared (params : list Z) (key : list byte) (zeta eta : Z)
    (P : list Z) :
  _compute_permutation H fuel (Z.of_nat (length params)) key eta = Ok P ->
  0 <= zeta < 2 ^ eta ->
  exists w zeta6 b vr,
    prepare H fuel params key zeta eta = Ok w
    /\ int_to_digits zeta 6 = Ok zeta6
    /\ build_watermark_graph H fuel w key eta = Ok b
    /\ controller_verify (graph_heap b) (graph_head b) zeta = Ok vr
    /\ error vr = None
    /\ (is_authentic vr = true
        <-> Forall (fun d => d <= Z.of_nat (length zeta6)) zeta6)
    /\ (1296 <= zeta -> is_authentic vr = true).
Proof.
  intros HP Hz.
  destruct (int_to_digits_spec zeta 6 ltac:(lia) ltac:(lia)) as (zeta6 & Hz6 & Hne & _).
  destruct (build_of_prepared H fuel params key zeta eta P zeta6 HP Hz Hz6)
    as (wm & gamma & Hprep & _ & _ & Hbuild).
  destruct (controller_verify_ring zeta zeta6 ltac:(lia) Hz6)
    as (vr & Hrun & Herr & _ & Hauth).
  exists wm, zeta6, (mkAuthenticationBuild (ring_heap zeta6) 0%nat P eta), vr.
  unfold prepare. rewrite Hprep.
  split; [reflexivity|]. split; [exact Hz6|]. split; [exact Hbuild|].
  split; [exact Hrun|]. split; [exact Herr|]. split; [exact Hauth|].
  intros Hbig. apply Hauth. apply (long_codes_fit zeta zeta6 Hbig Hz6).
Qed.

(** X19.  Building never fails on the values received: whenever the length
    of the received list passes the checks of [_compute_permutation],
    [build_watermark_graph] returns, whatever integers the list holds; the
    graph is that of the base-6 digits of a code [zeta_hat] with
    [0 <= zeta_hat < 2^eta], the head is its first node, and the permutation
    is that of the check. *)
Theorem X19_build_returns_on_any_values (received : list Z) (key : list byte) (eta : Z)
    (P : list Z) :
  _compute_permutation H fuel (Z.of_nat (length received)) key eta = Ok P ->
  exists zeta_hat zeta6_hat b,
    0 <= zeta_hat < 2 ^ eta
    /\ int_to_digits zeta_hat 6 = Ok zeta6_hat
    /\ build_watermark_graph H fuel received key eta = Ok b
    /\ encode_watermark zeta6_hat = Ok (graph_heap b, graph_head b)
    /\ build_permutation b = P /\ build_eta b = eta.
Proof.
  intros HP.
  destruct (build_watermark_graph_any received key eta P HP)
    as (gamma & zeta2_hat & zeta_hat & zeta6_hat & _ & _ & _ & _ & _ & Hr & Hz6 & Hbuild).
  exists zeta_hat, zeta6_hat, (mkAuthenticationBuild (ring_heap zeta6_hat) 0%nat P eta).
  split; [exact Hr|]. split; [exact Hz6|]. split; [exact Hbuild|].
  split; [|split; reflexivity].
  apply encode_watermark_spec.
  destruct (int_to_digits_spec zeta_hat 6 ltac:(lia) ltac:(lia)) as (z6 & Hz6' & Hne & _).
  rewrite Hz6 in Hz6'. injection Hz6' as <-. exact Hne.
Qed.

End Pipeline.

(* ===================================================================== *)
(** * Further properties: the protected call *)
(* ===================================================================== *)

Section Protect.

Variable H : list byte -> list byte -> list byte.
Variable fuel : nat.

Lemma build_watermark_graph_Ok (received : list Z) (key : list byte) (eta : Z)
    (b : AuthenticationBuild) :
  build_watermark_graph H fuel received key eta = Ok b ->
  _compute_permutation H fuel (Z.of_nat (length received)) key eta
  = Ok (build_permutation b).
Proof.
  unfold build_watermark_graph. intros Hrun.
  apply bind_Ok in Hrun as (P & HP & Hrun).
  apply bind_Ok in Hrun as (gamma & _ & Hrun).
  apply bind_Ok in Hrun as (zeta2 & _ & Hrun).
  apply bind_Ok in Hrun as (zeta6 & _ & Hrun).
  apply bind_Ok in Hrun as ([h head] & _ & [= <-]). exact HP.
Qed.

Lemma hints_detection_parities (I I' P : list Z) :
  length I = length I' ->
  P ≡ₚ range (Z.of_nat (length I) / 2) ->
  (forall p x y x' y', 0 <= p < Z.of_nat (length I) / 2 ->
     I !! Z.to_nat (2 * p) = Some x -> I !! Z.to_nat (2 * p + 1) = Some y ->
     I' !! Z.to_nat (2 * p) = Some x' -> I' !! Z.to_nat (2 * p + 1) = Some y' ->
     (x - y) mod 2 = (x' - y') mod 2) ->
  hints_detection I P = hints_detection I' P.
Proof.
  intros Hlen Hperm Hpar.
  destruct (pairs_fit (Z.of_nat (length I)) ltac:(lia)) as [Hn Hfit].
  assert (HinP : forall p, p ∈ P <-> 0 <= p < Z.of_nat (length I) / 2).
  { intros p. rewrite Hperm. apply elem_of_range. }
  destruct (hints_detection_full I P) as (g & -> & Hlg & Hset & _).
  { intros p Hp. apply HinP. exact Hp. }
  destruct (hints_detection_full I' P) as (g' & -> & Hlg' & Hset' & _).
  { intros p Hp. rewrite <- Hlen. apply HinP. exact Hp. }
  rewrite <- Hlen in Hlg'. f_equal. apply list_eq. intros i.
  destruct (decide (Z.of_nat i < Z.of_nat (length I) / 2)) as [Hi|Hi].
  - destruct (lookup_lt_is_Some_2 I (Z.to_nat (2 * Z.of_nat i))) as [x Hx]; [lia|].
    destruct (lookup_lt_is_Some_2 I (Z.to_nat (2 * Z.of_nat i + 1))) as [y Hy]; [lia|].
    destruct (lookup_lt_is_Some_2 I' (Z.to_nat (2 * Z.of_nat i))) as [x' Hx']; [lia|].
    destruct (lookup_lt_is_Some_2 I' (Z.to_nat (2 * Z.of_nat i + 1))) as [y' Hy']; [lia|].
    assert (Hp : Z.of_nat i ∈ P) by (apply HinP; lia).
    pose proof (Hset _ x y Hp Hx Hy) as Hg. pose proof (Hset' _ x' y' Hp Hx' Hy') as Hg'.
    rewrite Nat2Z.id in Hg, Hg'. rewrite Hg, Hg'. f_equal.
    apply (Hpar (Z.of_nat i) x y x' y'); [lia|assumption..].
  - rewrite !lookup_ge_None_2 by lia. reflexivity.
Qed.

(** X20.  The server sees only parities: two received lists of the same
    length whose pairs [(x, y)] agree in the parity of [x - y] give the same
    result of [build_watermark_graph], hence the same verdict, and a
    protected function that ignores its argument returns the same under
    every [on_tamper] setting.  A change that keeps those parities, such as
    adding an even number to an element, is not noticed. *)
Theorem X20_build_sees_only_parities (I I' : list Z) (key : list byte) (eta : Z) :
  length I = length I' ->
  (forall p x y x' y', 0 <= p < Z.of_nat (length I) / 2 ->
     I !! Z.to_nat (2 * p) = Some x -> I !! Z.to_nat (2 * p + 1) = Some y ->
     I' !! Z.to_nat (2 * p) = Some x' -> I' !! Z.to_nat (2 * p + 1) = Some y' ->
     (x - y) mod 2 = (x' - y') mod 2) ->
  build_watermark_graph H fuel I key eta = build_watermark_graph H fuel I' key eta
  /\ forall (zeta : Z) (on_tamper : string) (R : Type) (r : result R),
       protect H fuel key zeta eta on_tamper (fun _ => r) I
       = protect H fuel key zeta eta on_tamper (fun _ => r) I'.
Proof.
  intros Hlen Hpar.
  assert (Hbuild : build_watermark_graph H fuel I key eta
                   = build_watermark_graph H fuel I' key eta).
  { unfold build_watermark_graph. rewrite <- Hlen.
    destruct (_compute_permutation H fuel (Z.of_nat (length I)) key eta)
      as [P| |] eqn:HP; cbn [mbind result_bind]; try reflexivity.
    destruct (compute_permutation_Ok H _ _ _ _ _ HP) as (_ & _ & Hperm & _).
    rewrite (hints_detection_parities I I' P Hlen Hperm Hpar). reflexivity. }
  split; [exact Hbuild|].
  intros zeta on_tamper R r. unfold protect. rewrite Hbuild.
  destruct (build_watermark_graph H fuel I' key eta) as [b| |] eqn:Hb;
    cbn [mbind result_bind]; try reflexivity.
  destruct (controller_verify (graph_heap b) (graph_head b) zeta) as [vr| |];
    cbn [mbind result_bind]; try reflexivity.
  destruct (is_authentic vr); [|reflexivity].
  pose proof (build_watermark_graph_Ok I' key eta b Hb) as HP.
  destruct (compute_permutation_Ok H _ _ _ _ _ HP) as (_ & _ & Hperm & _).
  destruct (pairs_fit (Z.of_nat (length I')) ltac:(lia)) as [Hn Hfit].
  assert (Hnd : NoDup (build_permutation b)) by (rewrite Hperm; apply NoDup_range).
  assert (Hin : forall p, p ∈ build_permutation b -> 0 <= p < Z.of_nat (length I') / 2).
  { intros p Hp. rewrite Hperm in Hp. apply elem_of_range in Hp. exact Hp. }
  destruct (restore_params_from_pairs_spec _ _ I Hnd Hin ltac:(lia)) as (J & -> & _).
  destruct (restore_params_from_pairs_spec _ _ I' Hnd Hin ltac:(lia)) as (J' & -> & _).
  reflexivity.
Qed.

(** X21.  A prepared list passes the protected call: when the coverage check
    passes, [0 <= zeta < 2^eta] and the code is one the graph carries
    ([zeta >= 6^4], or no base-6 digit of [zeta] exceeds the number of its
    digits), [protect] applied to the list [prepare] returns calls the
    function on exactly the original parameters, under every [on_tamper]
    setting. *)
Theorem X21_protect_accepts_prepared (params : list Z) (key : list byte) (zeta eta : Z)
    (P : list Z) (on_tamper : string) (R : Type) (func : list Z -> result R) :
  _compute_permutation H fuel (Z.of_nat (length params)) key eta = Ok P ->
  0 <= zeta < 2 ^ eta ->
  (1296 <= zeta
   \/ exists zeta6, int_to_digits zeta 6 = Ok zeta6
        /\ Forall (fun d => d <= Z.of_nat (length zeta6)) zeta6) ->
  exists w,
    prepare H fuel params key zeta eta = Ok w
    /\ protect H fuel key zeta eta on_tamper func w = Some <$> func params.
Proof.
  intros HP Hz Hcode.
  destruct (int_to_digits_spec zeta 6 ltac:(lia) ltac:(lia)) as (zeta6 & Hz6 & Hne & _).
  assert (Hfit : Forall (fun d => d <= Z.of_nat (length zeta6)) zeta6).
  { destruct Hcode as [Hbig|(z6 & Hz6' & Hfit)].
    - apply (long_codes_fit zeta zeta6 Hbig Hz6).
    - rewrite Hz6 in Hz6'. injection Hz6' as <-. exact Hfit. }
  destruct (build_of_prepared H fuel params key zeta eta P zeta6 HP Hz Hz6)
    as (wm & gamma & Hprep & _ & _ & Hbuild).
  destruct (restore_prepare H fuel params key zeta eta P HP Hz)
    as (prep & Hprep' & _ & Hrestore).
  rewrite Hprep in Hprep'. injection Hprep' as <-. cbn [watermarked_params permutation] in Hrestore.
  destruct (controller_verify_ring zeta zeta6 ltac:(lia) Hz6) as (vr & Hrun & _ & _ & Hauth).
  apply Hauth in Hfit.
  exists wm. unfold prepare. rewrite Hprep. split; [reflexivity|].
  unfold protect. rewrite Hbuild. cbn [mbind result_bind graph_heap graph_head build_permutation].
  rewrite Hrun. cbn [mbind result_bind]. rewrite Hfit, Hrestore. reflexivity.
Qed.

(** X22.  A prepared list whose code the graph does not carry is turned away,
    although nothing was altered: when the coverage check passes,
    [0 <= zeta < 2^eta] and some base-6 digit of [zeta] exceeds the number of
    its digits, [protect] applied to the list [prepare] returns takes the
    tamper path: it calls the function on the list as received for
    "call_anyway", returns [None] for "return_none", and for every other
    setting raises "Parameter authentication failed: code mismatch". *)
Theorem X22_protect_rejects_uncarried_code (params : list Z) (key : list byte)
    (zeta eta : Z) (P zeta6 : list Z) (R : Type) (func : list Z -> result R) :
  _compute_permutation H fuel (Z.of_nat (length params)) key eta = Ok P ->
  0 <= zeta < 2 ^ eta ->
  int_to_digits zeta 6 = Ok zeta6 ->
  Exists (fun d => Z.of_nat (length zeta6) < d) zeta6 ->
  exists w,
    prepare H fuel params key zeta eta = Ok w
    /\ restore_params_from_pairs w P = Ok params
    /\ protect H fuel key zeta eta "call_anyway" func w = Some <$> func w
    /\ protect H fuel key zeta eta "return_none" func w = Ok None
    /\ (forall on_tamper, on_tamper <> "call_anyway" -> on_tamper <> "return_none" ->
          protect H fuel key zeta eta on_tamper func w
          = Raise (ValueError "Parameter authentication failed: code mismatch")).
Proof.
  intros HP Hz Hz6 Hbad.
  destruct (build_of_prepared H fuel params key zeta eta P zeta6 HP Hz Hz6)
    as (wm & gamma & Hprep & _ & _ & Hbuild).
  destruct (restore_prepare H fuel params key zeta eta P HP Hz)
    as (prep & Hprep' & _ & Hrestore).
  rewrite Hprep in Hprep'. injection Hprep' as <-. cbn [watermarked_params permutation] in Hrestore.
  destruct (controller_verify_ring zeta zeta6 ltac:(lia) Hz6)
    as (vr & Hrun & Herr & _ & Hauth).
  assert (Hno : is_authentic vr = false).
  { destruct (is_authentic vr); [|reflexivity]. exfalso.
    pose proof (proj1 Hauth eq_refl) as Hfit.
    apply Exists_exists in Hbad as (d & Hd & Hlt).
    rewrite Forall_forall in Hfit. specialize (Hfit d Hd). lia. }
  assert (Hmsg : error_or_mismatch vr = "code mismatch").
  { unfold error_or_mismatch. rewrite Herr. reflexivity. }
  exists wm. unfold prepare. rewrite Hprep. split; [reflexivity|].
  split; [exact Hrestore|].
  unfold protect. rewrite Hbuild. cbn [mbind result_bind graph_heap graph_head build_permutation].
  rewrite Hrun. cbn [mbind result_bind]. rewrite Hno, Hmsg.
  split; [reflexivity|]. split; [reflexivity|].
  intros on_tamper H1 H2.
  rewrite (bool_decide_eq_false_2 _ H1), (bool_decide_eq_false_2 _ H2). reflexivity.
Qed.

End Protect.

(** The coverage check passes for six parameters, two bits and the key of the
    unit tests, with one draw per loop. *)
Lemma unit_test_permutation :
  exists P, _compute_permutation Hashlib.hmac_sha256 1 6 unit_test_key 2 = Ok P.
Proof. eexists. vm_compute. reflexivity. Qed.

Lemma X15_prepare_embeds_bits_witness :
  exists zeta2 wm P,
    bits_from_int 2 2 = Ok zeta2
    /\ prepare_parameters Hashlib.hmac_sha256 1 [1; 2; 3; 4; 5; 6] unit_test_key 2 2
       = Ok (mkPreparedInput wm P 2)
    /\ length wm = 6%nat.
Proof.
  destruct unit_test_permutation as [P HP].
  destruct (X15_prepare_embeds_bits Hashlib.hmac_sha256 1 [1; 2; 3; 4; 5; 6]
              unit_test_key 2 2 P HP ltac:(change (2 ^ 2) with 4; lia))
    as (zeta2 & wm & Hbits & Hprep & Hlen & _).
  exists zeta2, wm, P. split; [exact Hbits|]. split; [exact Hprep|exact Hlen].
Defined.

Lemma X16_restore_undoes_prepare_witness :
  exists w P,
    prepare Hashlib.hmac_sha256 1 [1; 2; 3; 4; 5; 6] unit_test_key 2 2 = Ok w
    /\ restore_params_from_pairs w P = Ok [1; 2; 3; 4; 5; 6].
Proof.
  destruct unit_test_permutation as [P HP].
  destruct (X16_restore_undoes_prepare Hashlib.hmac_sha256 1 [1; 2; 3; 4; 5; 6]
              unit_test_key 2 2 P HP ltac:(change (2 ^ 2) with 4; lia))
    as (w & Hprep & _ & Hrestore).
  exists w, P. split; [exact Hprep|exact Hrestore].
Defined.

Lemma X17_build_recovers_code_witness :
  exists w b,
    prepare Hashlib.hmac_sha256 1 [1; 2; 3; 4; 5; 6] unit_test_key 2 2 = Ok w
    /\ build_watermark_graph Hashlib.hmac_sha256 1 w unit_test_key 2 = Ok b
    /\ encode_watermark [2] = Ok (graph_heap b, graph_head b).
Proof.
  destruct unit_test_permutation as [P HP].
  destruct (X17_build_recovers_code Hashlib.hmac_sha256 1 [1; 2; 3; 4; 5; 6]
              unit_test_key 2 2 P HP ltac:(change (2 ^ 2) with 4; lia))
    as (w & gamma & zeta6 & b & Hprep & _ & _ & Hz6 & Hbuild & Henc & _).
  vm_compute in Hz6. injection Hz6 as <-.
  exists w, b. split; [exact Hprep|]. split; [exact Hbuild|exact Henc].
Defined.

Lemma X18_verdict_on_prepared_witness :
  exists w b vr,
    prepare Hashlib.hmac_sha256 1 [1; 2; 3; 4; 5; 6] unit_test_key 1 2 = Ok w
    /\ build_watermark_graph Hashlib.hmac_sha256 1 w unit_test_key 2 = Ok b
    /\ controller_verify (graph_heap b) (graph_head b) 1 = Ok vr
    /\ is_authentic vr = true.
Proof.
  destruct unit_test_permutation as [P HP].
  destruct (X18_verdict_on_prepared Hashlib.hmac_sha256 1 [1; 2; 3; 4; 5; 6]
              unit_test_key 1 2 P HP ltac:(change (2 ^ 2) with 4; lia))
    as (w & zeta6 & b & vr & Hprep & Hz6 & Hbuild & Hrun & _ & Hauth & _).
  vm_compute in Hz6. injection Hz6 as <-.
  exists w, b, vr. split; [exact Hprep|]. split; [exact Hbuild|]. split; [exact Hrun|].
  apply Hauth. constructor; [simpl; lia|constructor].
Defined.

Lemma X19_build_returns_on_any_values_witness :
  exists b,
    build_watermark_graph Hashlib.hmac_sha256 1 [10; -3; 0; 0; 7; 99] unit_test_key 2
    = Ok b.
Proof.
  destruct unit_test_permutation as [P HP].
  destruct (X19_build_returns_on_any_values Hashlib.hmac_sha256 1 [10; -3; 0; 0; 7; 99]
              unit_test_key 2 P HP)
    as (zeta_hat & zeta6_hat & b & _ & _ & Hbuild & _).
  exists b. exact Hbuild.
Defined.

Lemma X20_build_sees_only_parities_witness :
  build_watermark_graph Hashlib.hmac_sha256 1 [0; 2; 3; 4; 4; 6] unit_test_key 2
  = build_watermark_graph Hashlib.hmac_sha256 1 [2; 2; 3; 8; 4; 6] unit_test_key 2.
Proof.
  apply (X20_build_sees_only_parities Hashlib.hmac_sha256 1
           [0; 2; 3; 4; 4; 6] [2; 2; 3; 8; 4; 6] unit_test_key 2 eq_refl).
  intros p x y x' y' Hp. change (Z.of_nat (length [0; 2; 3; 4; 4; 6]) / 2) with 3 in Hp.
  assert (p = 0 \/ p = 1 \/ p = 2) as [-> | [-> | ->]] by lia;
    simpl; intros [= <-] [= <-] [= <-] [= <-]; reflexivity.
Defined.

Lemma X21_protect_accepts_prepared_witness :
  exists w,
    prepare Hashlib.hmac_sha256 1 [1; 2; 3; 4; 5; 6] unit_test_key 1 2 = Ok w
    /\ protect Hashlib.hmac_sha256 1 unit_test_key 1 2 "raise" (fun l => Ok (length l)) w
       = Ok (Some 6%nat).
Proof.
  destruct unit_test_permutation as [P HP].
  apply (X21_protect_accepts_prepared Hashlib.hmac_sha256 1 [1; 2; 3; 4; 5; 6]
           unit_test_key 1 2 P "raise" nat (fun l => Ok (length l)) HP).
  - change (2 ^ 2) with 4. lia.
  - right. exists [1]. split; [vm_compute; reflexivity|].
    constructor; [simpl; lia|constructor].
Defined.

Lemma X22_protect_rejects_uncarried_code_witness :
  exists w,
    prepare Hashlib.hmac_sha256 1 [1; 2; 3; 4; 5; 6] unit_test_key 2 2 = Ok w
    /\ protect Hashlib.hmac_sha256 1 unit_test_key 2 2 "return_none"
         (fun l => Ok (length l)) w = Ok None.
Proof.
  destruct unit_test_permutation as [P HP].
  destruct (X22_protect_rejects_uncarried_code Hashlib.hmac_sha256 1 [1; 2; 3; 4; 5; 6]
              unit_test_key 2 2 P [2] nat (fun l => Ok (length l)) HP)
    as (w & Hprep & _ & _ & Hnone & _).
  - change (2 ^ 2) with 4. lia.
  - vm_compute. reflexivity.
  - constructor. simpl. lia.
  - exists w. split; [exact Hprep|exact Hnone].
Defined.

(* ===================================================================== *)
(** * Further properties: decoding with fewer nodes than the ring has *)
(* ===================================================================== *)

Section RingPrefix.

Variable zeta6 : list Z.
Hypothesis Hne : zeta6 <> [].
Local Abbreviation ring_size := (Z.of_nat (length zeta6)).

(** The probe of [decode_watermark] on the ring, with the step bound [m] of a
    caller that takes the ring to have [m] nodes. *)
Lemma probe_loop_ring_bound (m r k : Z) (fuel : nat) (s : Z) :
  0 <= s <= k -> k < ring_size -> k <= m -> (Z.to_nat (k - s) <= fuel)%nat ->
  probe_loop fuel (ring_heap zeta6) m
    (Z.to_nat ((r + k) mod ring_size)) (Z.to_nat ((r + s) mod ring_size)) s = Ok k.
Proof.
  pose proof (ring_positive zeta6 Hne) as Hmu.
  revert s. induction fuel as [|fuel IH]; intros s Hs Hk Hm Hfuel.
  - assert (s = k) as -> by lia. simpl.
    rewrite bool_decide_eq_false_2 by (intros Hneq; apply Hneq; reflexivity). reflexivity.
  - simpl. case_bool_decide as Hneq; cycle 1.
    { f_equal. apply (mod_eq_small ring_size r s k); [lia|lia|lia|].
      pose proof (Z.mod_pos_bound (r + s) ring_size ltac:(lia)).
      pose proof (Z.mod_pos_bound (r + k) ring_size ltac:(lia)).
      lia. }
    assert (s < k).
    { destruct (decide (s = k)) as [->|]; [contradiction|lia]. }
    rewrite ring_heap_next by (apply Z.mod_pos_bound; lia).
    rewrite bool_decide_eq_false_2 by lia.
    rewrite Zplus_mod_idemp_l.
    replace (r + s + 1) with (r + (s + 1)) by lia.
    apply IH; lia.
Qed.

Lemma decode_ring_heap_prefix (m : Z) :
  0 < m <= ring_size ->
  Forall (fun d => d = 0 \/ (d - 1) mod ring_size <= m) (take (Z.to_nat m) zeta6) ->
  decode_watermark (ring_heap zeta6) 0%nat m
  = Ok (map (decoded_digit ring_size) (take (Z.to_nat m) zeta6)).
Proof.
  intros Hm Hdigits. pose proof (ring_positive zeta6 Hne) as Hmu.
  unfold decode_watermark. rewrite bool_decide_eq_false_2 by lia.
  unfold range2. replace (m - 1) with (Z.of_nat (Z.to_nat m - 1)) by lia.
  rewrite (collect_ring zeta6 Hne) by lia. cbn [mbind result_bind app].
  replace (0%nat :: seq 1 (Z.to_nat m - 1)) with (seq 0 (Z.to_nat m))
    by (destruct (Z.to_nat m) eqn:E; [lia|simpl; f_equal; f_equal; lia]).
  destruct (for_each_assign
    (fun r => decoded_digit ring_size (default 0 (zeta6 !! Z.to_nat r))) m
    (fun out r =>
       nr ← getitem (seq 0 (Z.to_nat m)) r;
       match digit (deref (ring_heap zeta6) nr) with
       | None => setitem out r 0
       | Some target =>
           s ← probe_loop (S (Z.to_nat m)) (ring_heap zeta6) m target nr 0;
           setitem out r (s + 1)
       end) (range m)) with (g := replicate (Z.to_nat m) 0)
    as (out & Hrun & Hlen & Hset & _).
  - intros g r Hr%elem_of_range Hg.
    rewrite getitem_seq by lia. cbn [mbind result_bind].
    destruct (lookup_lt_is_Some_2 zeta6 (Z.to_nat r)) as [d Hd]; [lia|].
    rewrite (ring_heap_node zeta6 r d) by (lia || exact Hd). rewrite Hd.
    change (default 0 (Some d)) with d. unfold ring_node. cbn [digit].
    assert (Hdr : d = 0 \/ (d - 1) mod ring_size <= m).
    { rewrite Forall_forall in Hdigits. apply Hdigits.
      apply list_elem_of_lookup. exists (Z.to_nat r).
      rewrite lookup_take_lt by lia. exact Hd. }
    unfold digit_target, decoded_digit. case_bool_decide as Hd0.
    + apply setitem_in. lia.
    + destruct Hdr as [?|Hdr]; [contradiction|].
      pose proof (Z.mod_pos_bound (d - 1) ring_size Hmu) as Hk.
      pose proof (probe_loop_ring_bound m r ((d - 1) mod ring_size) (S (Z.to_nat m)) 0
                    ltac:(lia) ltac:(lia) Hdr ltac:(lia)) as Hprobe.
      rewrite Z.add_0_r, (Z.mod_small r ring_size) in Hprobe by lia.
      rewrite Zplus_mod_idemp_r in Hprobe.
      replace (r + (d - 1)) with (r + d - 1) in Hprobe by lia.
      rewrite Hprobe. cbn [mbind result_bind]. apply setitem_in. lia.
  - intros r Hr%elem_of_range. exact Hr.
  - rewrite length_replicate. lia.
  - rewrite Hrun. f_equal. apply list_eq. intros i.
    change (map ?f ?l) with (f <$> l). rewrite list_lookup_fmap.
    destruct (decide (i < Z.to_nat m)%nat) as [Hi|Hi].
    + specialize (Hset (Z.of_nat i) ltac:(apply elem_of_range; lia)).
      rewrite Nat2Z.id in Hset. rewrite Hset. rewrite lookup_take_lt by lia.
      destruct (lookup_lt_is_Some_2 zeta6 i ltac:(lia)) as [d Hd]. rewrite Hd. reflexivity.
    + rewrite lookup_take_ge by lia. rewrite lookup_ge_None_2 by lia. reflexivity.
Qed.

End RingPrefix.

Lemma controller_verify_extension (zeta' : Z) (zeta6' ext : list Z) :
  0 <= zeta' -> int_to_digits zeta' 6 = Ok zeta6' -> ext <> [] ->
  Forall (fun d => d <= Z.of_nat (length zeta6') + 1) zeta6' ->
  controller_verify (ring_heap (zeta6' ++ ext)) 0%nat zeta'
  = Ok (mkVerificationResult true (Some zeta') (Some zeta6') None).
Proof.
  intros Hz Hz6 Hext Hsmall.
  destruct (int_to_digits_spec zeta' 6 ltac:(lia) Hz) as (z6 & Hz6' & Hne & Hdig & Hval & _).
  rewrite Hz6 in Hz6'. injection Hz6' as <-.
  assert (Hne' : zeta6' ++ ext <> []) by (destruct zeta6'; [contradiction|discriminate]).
  assert (Hlen : Z.of_nat (length zeta6') < Z.of_nat (length (zeta6' ++ ext))).
  { rewrite length_app. destruct ext; [contradiction|simpl; lia]. }
  pose proof (ring_positive zeta6' Hne) as Hmu.
  assert (Htake : take (Z.to_nat (Z.of_nat (length zeta6'))) (zeta6' ++ ext) = zeta6').
  { rewrite Nat2Z.id. apply take_app_length. }
  unfold controller_verify. rewrite bool_decide_eq_false_2 by lia.
  rewrite Hz6. cbn [mbind result_bind].
  rewrite (decode_ring_heap_prefix (zeta6' ++ ext) Hne'); [|lia|].
  - rewrite Htake.
    assert (Hfix : map (decoded_digit (Z.of_nat (length (zeta6' ++ ext)))) zeta6' = zeta6').
    { apply map_decoded_digit_fixed; [lia|].
      rewrite Forall_forall in Hdig, Hsmall |- *. intros d Hd.
      specialize (Hdig d Hd). specialize (Hsmall d Hd). lia. }
    rewrite Hfix. cbn [mbind result_bind]. rewrite Hval. cbn [mbind result_bind].
    rewrite bool_decide_eq_true_2 by reflexivity. reflexivity.
  - rewrite Htake. rewrite Forall_forall in Hdig, Hsmall |- *. intros d Hd.
    specialize (Hdig d Hd). specialize (Hsmall d Hd).
    destruct (decide (d = 0)) as [?|Hd0]; [left; assumption|right].
    rewrite Z.mod_small by lia. lia.
Qed.

(** X23.  The controller decodes only as many nodes as the expected code has
    base-6 digits, so it cannot tell the expected code from a longer one that
    starts with the same digits: when no digit of [zeta'] exceeds the number
    of its digits by more than one, [controller_verify] finds the graph of
    any proper extension of the digit array of [zeta'] authentic, with
    [zeta'] as the recovered code. *)
Theorem X23_controller_accepts_extension (zeta' : Z) (zeta6' ext : list Z) :
  0 <= zeta' -> int_to_digits zeta' 6 = Ok zeta6' -> ext <> [] ->
  Forall (fun d => d <= Z.of_nat (length zeta6') + 1) zeta6' ->
  (e ← encode_watermark (zeta6' ++ ext); controller_verify e.1 e.2 zeta')
  = Ok (mkVerificationResult true (Some zeta') (Some zeta6') None).
Proof.
  intros Hz Hz6 Hext Hsmall.
  rewrite encode_watermark_spec by (destruct zeta6'; [exact Hext|discriminate]).
  cbn [mbind result_bind fst snd].
  apply controller_verify_extension; assumption.
Qed.

Lemma X23_controller_accepts_extension_witness :
  (e ← encode_watermark ([1] ++ [0; 4; 5]); controller_verify e.1 e.2 1)
  = Ok (mkVerificationResult true (Some 1) (Some [1]) None).
Proof.
  apply (X23_controller_accepts_extension 1 [1] [0; 4; 5]).
  - lia.
  - vm_compute. reflexivity.
  - discriminate.
  - constructor; [simpl; lia|constructor].
Defined.

Section ProtectExtension.

Variable H : list byte -> list byte -> list byte.
Variable fuel : nat.

(** X24.  The same at the protected call: a server that expects the code
    [zeta'] accepts a list prepared with a different, longer code [zeta]
    whose base-6 digits start with those of [zeta'], and calls the function
    on the original parameters: when the coverage check passes,
    [0 <= zeta < 2^eta], and no digit of [zeta'] exceeds the number of its
    digits by more than one. *)
Theorem X24_protect_accepts_extended_code (params : list Z) (key : list byte)
    (zeta zeta' eta : Z) (P zeta6' ext : list Z) (on_tamper : string) (R : Type)
    (func : list Z -> result R) :
  _compute_permutation H fuel (Z.of_nat (length params)) key eta = Ok P ->
  0 <= zeta < 2 ^ eta ->
  0 <= zeta' -> int_to_digits zeta' 6 = Ok zeta6' ->
  ext <> [] -> int_to_digits zeta 6 = Ok (zeta6' ++ ext) ->
  Forall (fun d => d <= Z.of_nat (length zeta6') + 1) zeta6' ->
  exists w,
    prepare H fuel params key zeta eta = Ok w
    /\ zeta <> zeta'
    /\ protect H fuel key zeta' eta on_tamper func w = Some <$> func params.
Proof.
  intros HP Hz Hz' Hz6' Hext Hz6 Hsmall.
  destruct (build_of_prepared H fuel params key zeta eta P (zeta6' ++ ext) HP Hz Hz6)
    as (wm & gamma & Hprep & _ & _ & Hbuild).
  destruct (restore_prepare H fuel params key zeta eta P HP Hz)
    as (prep & Hprep' & _ & Hrestore).
  rewrite Hprep in Hprep'. injection Hprep' as <-. cbn [watermarked_params permutation] in Hrestore.
  exists wm. unfold prepare. rewrite Hprep. split; [reflexivity|]. split.
  - intros ->. rewrite Hz6' in Hz6. injection Hz6 as Heq.
    apply (f_equal (@length Z)) in Heq. rewrite length_app in Heq.
    destruct ext; [contradiction|simpl in Heq; lia].
  - unfold protect. rewrite Hbuild.
    cbn [mbind result_bind graph_heap graph_head build_permutation].
    rewrite (controller_verify_extension zeta' zeta6' ext Hz' Hz6' Hext Hsmall).
    cbn [mbind result_bind is_authentic]. rewrite Hrestore. reflexivity.
Qed.

End ProtectExtension.

Lemma X24_protect_accepts_extended_code_witness :
  exists w,
    prepare Hashlib.hmac_sha256 2 (seqZ 1 16) unit_test_key 6 4 = Ok w
    /\ protect Hashlib.hmac_sha256 2 unit_test_key 1 4 "raise" (fun l => Ok l) w
       = Ok (Some (seqZ 1 16)).
Proof.
  assert (HP : exists P,
            _compute_permutation Hashlib.hmac_sha256 2
              (Z.of_nat (length (seqZ 1 16))) unit_test_key 4 = Ok P)
    by (eexists; vm_compute; reflexivity).
  destruct HP as [P HP].
  destruct (X24_protect_accepts_extended_code Hashlib.hmac_sha256 2 (seqZ 1 16)
              unit_test_key 6 1 4 P [1] [0] "raise" (list Z) (fun l => Ok l) HP)
    as (w & Hprep & _ & Hcall).
  - change (2 ^ 4) with 16. lia.
  - lia.
  - vm_compute. reflexivity.
  - discriminate.
  - vm_compute. reflexivity.
  - constructor; [simpl; lia|constructor].
  - exists w. split; [exact Hprep|exact Hcall].
Defined.
